(** * Movie_Book: the seat-reservation core

    A shallow embedding of the two places where seats are contended for:

    - [backend/server.js]: the Socket.IO handlers around the process-wide
      [activeSeatLocks] Map (requestLock, releaseLock, confirmBooking,
      disconnect, the 30-second sweep and the 3-minute auto-release timer);
    - [backend/routes/bookings.js]: [POST /api/bookings] and
      [PUT /api/bookings/:id/cancel], which run inside a MongoDB transaction
      over the Booking, Show and SeatLock collections; together with the show
      creation of [backend/routes/shows.js].

    Conventions.  Dates are milliseconds since the epoch, in [Z], and so
    are prices and seat numbers, which the schemas take as numbers.  Every
    reading of the clock ([Date.now()], [new Date()]) is an explicit
    argument, and so is every failure of a store operation (an oracle says
    which awaited call throws).  Handlers are run one after the other: the
    socket handlers have no [await], and the two transactional routes are
    taken under the isolation of their transaction.

    Mongo ObjectIds and socket ids are identified with their text: an id
    in a request is taken in the form in which the store has it (24 hex
    digits in lower case), and two ids are the same when their texts are.
    A text that Mongoose cannot cast to an ObjectId makes the awaited call
    throw; that is one of the failures the oracle stands for.

    [save()] validates a document before the [pre('save')] hooks of its
    model run.  The booking that [POST /api/bookings] builds has no
    [bookingReference], which the schema requires and the hook would only
    give afterwards: its first save is rejected, and so no commit of the
    code as it stands creates a booking.  The same holds of the show that
    [POST /api/admin/theater/shows] builds with a number for its price.

    Around them: the room tracking of [backend/server.js] (joinShow,
    leaveShow, the second loop of disconnect); the seat map, the update
    and the deletion of a show in [backend/routes/shows.js]; the update
    and the deletion of a show in the admin routes; the [canCancel] flag
    of the two read routes for bookings; [generateSeats] of
    [models/Screen.js] and [cleanupExpired] of [models/SeatLock.js].  The
    routes outside a transaction are taken one request at a time. *)

From Stdlib Require Import String Ascii List ListDec ZArith Bool Lia.
From Stdlib Require Import DecimalString DecimalZ.
From Stdlib Require Import Sorted Permutation.
Import ListNotations.
Local Open Scope string_scope.
Local Open Scope list_scope.
Local Open Scope Z_scope.

(** ** JavaScript helpers *)

Module JS.

(** [`${n}`] for an integral number. *)
Definition toString (n : Z) : string :=
  NilZero.string_of_int (Z.to_int n).

(** [!s] for a string that may be absent: the empty string, [null] and
    [undefined] are falsy. *)
Definition truthy (s : string) : bool := negb (String.eqb s "").

Definition truthy_opt (s : option string) : bool :=
  match s with
  | Some s => truthy s
  | None => false
  end.

(** A template literal, given as the list of its parts. *)
Definition template (parts : list string) : string :=
  String.concat "" parts.

(** [xs.join(', ')] *)
Definition join (sep : string) (xs : list string) : string :=
  String.concat sep xs.

(** [xs.includes(x)] on strings. *)
Definition includes (x : string) (xs : list string) : bool :=
  existsb (String.eqb x) xs.

(** A [Map] with string keys.  JavaScript Maps iterate in insertion order,
    [set] on a present key keeps its position, so the table is an
    association list. *)
Section MapOps.
Context {V : Type}.

Definition Map := list (string * V).

Fixpoint get (k : string) (m : Map) : option V :=
  match m with
  | [] => None
  | (k', v) :: m' => if String.eqb k k' then Some v else get k m'
  end.

Definition has (k : string) (m : Map) : bool :=
  match get k m with
  | Some _ => true
  | None => false
  end.

Fixpoint set (k : string) (v : V) (m : Map) : Map :=
  match m with
  | [] => [(k, v)]
  | (k', v') :: m' =>
      if String.eqb k k' then (k, v) :: m' else (k', v') :: set k v m'
  end.

Definition delete (k : string) (m : Map) : Map :=
  filter (fun e => negb (String.eqb k (fst e))) m.

End MapOps.
Arguments Map : clear implicits.

End JS.

(** ** The lock registry of [backend/server.js] *)

Module Registry.

(** The value stored under a lock key (server.js, lines 225-232). *)
Record Lock := mkLock {
  lockId : string;
  userId : string;
  seatId : string;
  showId : string;
  expiresAt : Z;
  socketId : string
}.

(** What the server sends.  [SeatLocksReleased] carries the optional
    [reason] and [lockId] fields of the three places that emit it. *)
Inductive Payload :=
| Error (message : string)
| LockFailed (message : string) (conflicts : list string)
| LockSuccess (lockId : string) (expiresAt : Z)
| SeatLocksLocked (seatIds : list string) (lockId : string)
    (expiresAt : Z) (lockedBy : string)
| SeatLocksReleased (seatIds : list string) (reason : option string)
    (lockId : option string)
| SeatsBooked (seatIds : list string) (bookingId : string) (bookedAt : Z).

Inductive Emit :=
| ToSocket (socket : string) (p : Payload)      (* socket.emit *)
| ToRoom (room : string) (p : Payload).         (* io.to(room).emit *)

(** A pending [setTimeout(() => releaseSeatLock(showId, seatIds, lockId))]. *)
Record Timer := mkTimer {
  due : Z;
  t_showId : string;
  t_seatIds : list string;
  t_lockId : string
}.

Record Server := mkServer {
  activeSeatLocks : JS.Map Lock;
  timers : list Timer
}.

Definition initial : Server := mkServer [] [].

(** [`${showId}_${seatId}`] *)
Definition lockKey (showId seatId : string) : string :=
  JS.template [showId; "_"; seatId].

Definition room (showId : string) : string :=
  JS.template ["show_"; showId].

(** The payload of a requestLock event.  [seatIds = None] stands for a
    missing field or a value that is not an array. *)
Record LockRequest := mkLockRequest {
  rq_showId : string;
  rq_seatIds : option (list string);
  rq_userId : string
}.

(** The three readings of the clock taken while one requestLock runs:
    for the lock id (line 202), for the expiry (line 203) and when the
    auto-release timer is armed (line 248). *)
Record Readings := mkReadings {
  at_lockId : Z;
  at_expiry : Z;
  at_timer : Z
}.

Definition lease : Z := 3 * 60 * 1000.

Definition maxSeats : nat := 8.

(** A request that passes the guards of lines 192-200, so that its seats
    are looked up in the table. *)
Definition admitted (rq : LockRequest) (seatIds : list string) : Prop :=
  rq_seatIds rq = Some seatIds /\
  JS.truthy (rq_showId rq) = true /\
  JS.truthy (rq_userId rq) = true /\
  (length seatIds <= maxSeats)%nat.

Definition conflictsOf (showId : string) (seatIds : list string)
    (m : JS.Map Lock) : list string :=
  filter (fun seatId => JS.has (lockKey showId seatId) m) seatIds.

Definition createLocks (l : string -> Lock) (showId : string)
    (seatIds : list string) (m : JS.Map Lock) : JS.Map Lock :=
  fold_left (fun m seatId => JS.set (lockKey showId seatId) (l seatId) m)
    seatIds m.

(** [`lock_${showId}_${userId}_${Date.now()}`] *)
Definition lockIdFor (rq : LockRequest) (clk : Readings) : string :=
  JS.template ["lock_"; rq_showId rq; "_"; rq_userId rq; "_";
               JS.toString (at_lockId clk)].

(** [socket.on('requestLock', ...)], lines 188-256.  The handler has no
    [await]: it runs to completion before any other event is handled. *)
Definition requestLock (socket : string) (rq : LockRequest) (clk : Readings)
    (st : Server) : Server * list Emit :=
  match rq_seatIds rq with
  | Some seatIds =>
      if negb (JS.truthy (rq_showId rq)) || negb (JS.truthy (rq_userId rq))
      then (st, [ToSocket socket (Error "Invalid lock request data")])
      else if (maxSeats <? length seatIds)%nat
      then (st, [ToSocket socket (Error "Cannot lock more than 8 seats")])
      else
        let showId := rq_showId rq in
        let userId := rq_userId rq in
        let lockId := lockIdFor rq clk in
        let expiresAt := at_expiry clk + lease in
        let conflicts := conflictsOf showId seatIds (activeSeatLocks st) in
        if (0 <? length conflicts)%nat
        then (st, [ToSocket socket
                     (LockFailed
                        (JS.template ["Seats "; JS.join ", " conflicts;
                                      " are already locked"])
                        conflicts)])
        else
          let mk seatId :=
            mkLock lockId userId seatId showId expiresAt socket in
          (mkServer
             (createLocks mk showId seatIds (activeSeatLocks st))
             (timers st ++
                [mkTimer (at_timer clk + lease) showId seatIds lockId]),
           [ToRoom (room showId)
              (SeatLocksLocked seatIds lockId expiresAt userId);
            ToSocket socket (LockSuccess lockId expiresAt)])
  | None => (st, [ToSocket socket (Error "Invalid lock request data")])
  end.

(** [releaseSeatLock(showId, seatIds, specificLockId = null)],
    lines 306-320: one seat of the loop, then the loop. *)
Definition releaseOne (showId : string) (specificLockId : option string)
    (acc : JS.Map Lock * list Emit) (seatId : string)
    : JS.Map Lock * list Emit :=
  let key := lockKey showId seatId in
  match JS.get key (fst acc) with
  | Some lock =>
      if negb (JS.truthy_opt specificLockId)
         || match specificLockId with
            | Some id => String.eqb (lockId lock) id
            | None => false
            end
      then (JS.delete key (fst acc),
            snd acc ++ [ToRoom (room showId)
                          (SeatLocksReleased [seatId] None
                             (Some (lockId lock)))])
      else acc
  | None => acc
  end.

(** The test of line 311: the seat has an entry, and either no lock id was
    passed or it is the entry's. *)
Definition releasable (showId : string) (specificLockId : option string)
    (m : JS.Map Lock) (seatId : string) : bool :=
  match JS.get (lockKey showId seatId) m with
  | Some lock =>
      negb (JS.truthy_opt specificLockId)
      || match specificLockId with
         | Some id => String.eqb (lockId lock) id
         | None => false
         end
  | None => false
  end.

Definition releaseSeatLock (showId : string) (seatIds : list string)
    (specificLockId : option string) (m : JS.Map Lock)
    : JS.Map Lock * list Emit :=
  fold_left (releaseOne showId specificLockId) seatIds (m, []).

(** The payload of a releaseLock event.  The handler reads [showId],
    [seatIds] and [lockId]; the client of this repository sends [showId],
    [seatIds] and [userId], so that [lockId] is left out. *)
Record ReleaseRequest := mkReleaseRequest {
  rl_showId : string;
  rl_seatIds : list string;
  rl_lockId : option string;
  rl_userId : option string
}.

(** [socket.on('releaseLock', ...)], lines 258-261. *)
Definition releaseLock (rl : ReleaseRequest) (st : Server)
    : Server * list Emit :=
  let r := releaseSeatLock (rl_showId rl) (rl_seatIds rl) (rl_lockId rl)
             (activeSeatLocks st) in
  (mkServer (fst r) (timers st), snd r).

(** [socket.on('confirmBooking', ...)], lines 263-275. *)
Definition confirmBooking (showId : string) (seatIds : list string)
    (bookingId : string) (now : Z) (st : Server) : Server * list Emit :=
  let r := releaseSeatLock showId seatIds None (activeSeatLocks st) in
  (mkServer (fst r) (timers st),
   snd r ++ [ToRoom (room showId) (SeatsBooked seatIds bookingId now)]).

(** The loop shared by the sweep and the disconnect handler: walk the
    entries, delete those that [p] selects and tell the show's room. *)
Definition visit (p : Lock -> bool) (reason : string)
    (acc : JS.Map Lock * list Emit) (e : string * Lock)
    : JS.Map Lock * list Emit :=
  if p (snd e)
  then (JS.delete (fst e) (fst acc),
        snd acc ++ [ToRoom (room (showId (snd e)))
                      (SeatLocksReleased [seatId (snd e)] (Some reason)
                         None)])
  else acc.

Definition purge (p : Lock -> bool) (reason : string) (m : JS.Map Lock)
    : JS.Map Lock * list Emit :=
  fold_left (visit p reason) m (m, []).

(** The [setInterval] callback, lines 118-130. *)
Definition sweep (now : Z) (st : Server) : Server * list Emit :=
  let r := purge (fun lock => expiresAt lock <? now) "expired"
             (activeSeatLocks st) in
  (mkServer (fst r) (timers st), snd r).

(** [socket.on('disconnect', ...)], lines 277-290 (the lock part). *)
Definition disconnect (socket : string) (st : Server)
    : Server * list Emit :=
  let r := purge (fun lock => String.eqb (socketId lock) socket)
             "user_disconnected" (activeSeatLocks st) in
  (mkServer (fst r) (timers st), snd r).

(** The auto-release of lines 247-250: the first pending timer that is due
    at [now] fires; nothing happens when none is due. *)
Fixpoint takeDue (now : Z) (ts : list Timer) : option (Timer * list Timer) :=
  match ts with
  | [] => None
  | t :: ts' =>
      if due t <=? now then Some (t, ts')
      else match takeDue now ts' with
           | Some (t', rest) => Some (t', t :: rest)
           | None => None
           end
  end.

Definition fireTimer (now : Z) (st : Server) : Server * list Emit :=
  match takeDue now (timers st) with
  | Some (t, rest) =>
      let r := releaseSeatLock (t_showId t) (t_seatIds t)
                 (Some (t_lockId t)) (activeSeatLocks st) in
      (mkServer (fst r) rest, snd r)
  | None => (st, [])
  end.

(** What a requester is told. *)
Definition granted (out : list Emit) : bool :=
  existsb (fun e => match e with
                    | ToSocket _ (LockSuccess _ _) => true
                    | _ => false
                    end) out.

Definition lockedFor (showId seatId : string) (st : Server) : option Lock :=
  JS.get (lockKey showId seatId) (activeSeatLocks st).

(** Lock requests handled one after the other. *)
Definition requests (rqs : list (string * LockRequest * Readings))
    (st : Server) : Server :=
  fold_left
    (fun st x => fst (requestLock (fst (fst x)) (snd (fst x)) (snd x) st))
    rqs st.

End Registry.

(** ** The durable store: models and [backend/routes/bookings.js] *)

Module Store.

(** [models/Show.js]: the fields the routes read or write.  Prices are
    whole amounts. *)
Record Price := mkPrice { regular : Z; premium : Z; vip : Z }.

Record Show := mkShow {
  s_id : string;
  movieId : string;
  theaterId : string;
  screenId : string;
  startTime : Z;
  endTime : Z;
  price : Price;
  totalSeats : Z;
  availableSeats : Z;
  isActive : bool
}.

(** [models/Booking.js] *)
Inductive Status := pending | confirmed | cancelled | refunded.

Inductive PaymentStatus :=
| payment_pending | payment_completed | payment_failed | payment_refunded.

Record SeatBooking := mkSeatBooking {
  row : string;
  number : Z;
  type : string;
  seatPrice : Z
}.

Record Booking := mkBooking {
  b_id : string;
  b_userId : string;
  b_showId : string;
  b_seats : list SeatBooking;
  totalAmount : Z;
  status : Status;
  paymentStatus : PaymentStatus;
  bookingReference : string;
  qrCode : option string;
  b_specialRequests : option string;
  cancelledAt : option Z
}.

(** [models/SeatLock.js] *)
Record SeatLock := mkSeatLock {
  sl_showId : string;
  sl_seatId : string;
  lockedByUserId : string;
  sl_expiresAt : Z
}.

Record DB := mkDB {
  bookings : list Booking;
  shows : list Show;
  seatLocks : list SeatLock
}.

Definition empty : DB := mkDB [] [] [].

(** *** Collection operations *)

Definition status_eqb (a b : Status) : bool :=
  match a, b with
  | pending, pending | confirmed, confirmed
  | cancelled, cancelled | refunded, refunded => true
  | _, _ => false
  end.

(** [Show.findById] *)
Definition findShow (id : string) (db : DB) : option Show :=
  find (fun s => String.eqb (s_id s) id) (shows db).

(** [Booking.findById] *)
Definition findBooking (id : string) (db : DB) : option Booking :=
  find (fun b => String.eqb (b_id b) id) (bookings db).

Definition withAvailable (n : Z) (s : Show) : Show :=
  mkShow (s_id s) (movieId s) (theaterId s) (screenId s) (startTime s)
    (endTime s) (price s) (totalSeats s) n (isActive s).

(** [Show.findByIdAndUpdate(id, { $inc: { availableSeats: d } })]: the one
    document with that [_id] is updated. *)
Fixpoint incAvailable (id : string) (d : Z) (ss : list Show) : list Show :=
  match ss with
  | [] => []
  | s :: ss' =>
      if String.eqb (s_id s) id
      then withAvailable (availableSeats s + d) s :: ss'
      else s :: incAvailable id d ss'
  end.

(** [booking.save()] of a loaded document: the stored document with the
    same [_id] is replaced. *)
Fixpoint replaceBooking (b : Booking) (bs : list Booking) : list Booking :=
  match bs with
  | [] => []
  | b' :: bs' =>
      if String.eqb (b_id b') (b_id b) then b :: bs'
      else b' :: replaceBooking b bs'
  end.

(** [`${s.row}${s.number}`] *)
Definition seatIdOf (row : string) (number : Z) : string :=
  JS.template [row; JS.toString number].

(** The aggregation of lines 94-107: the seat ids of the confirmed and
    pending bookings of a show. *)
Definition bookedSeatIds (showId : string) (db : DB) : list string :=
  flat_map
    (fun b => map (fun s => seatIdOf (row s) (number s)) (b_seats b))
    (filter
       (fun b => String.eqb (b_showId b) showId
                 && (status_eqb (status b) confirmed
                     || status_eqb (status b) pending))
       (bookings db)).

(** [SeatLock.find({ showId, seatId: { $in: seatIds },
    expiresAt: { $gte: now } })] *)
Definition activeLocks (showId : string) (seatIds : list string) (now : Z)
    (db : DB) : list SeatLock :=
  filter
    (fun l => String.eqb (sl_showId l) showId
              && JS.includes (sl_seatId l) seatIds
              && (now <=? sl_expiresAt l))
    (seatLocks db).

(** [SeatLock.deleteMany({ showId, seatId: { $in: seatIds },
    lockedByUserId })] *)
Definition deleteLocks (showId : string) (seatIds : list string)
    (user : string) (ls : list SeatLock) : list SeatLock :=
  filter
    (fun l => negb (String.eqb (sl_showId l) showId
                    && JS.includes (sl_seatId l) seatIds
                    && String.eqb (lockedByUserId l) user))
    ls.

(** *** The request body and [bookingSchema] (lines 14-22)

    The body is taken with its fields present and of the right JavaScript
    type (a number that is an integer, strings); the schema's rules on the
    values are [validate] below. *)

Record SeatRequest := mkSeatRequest {
  r_row : string;
  r_number : Z;
  r_type : string
}.

Record Body := mkBody {
  showId : string;
  seats : list SeatRequest;
  specialRequests : option string
}.

Definition between (lo hi : ascii) (c : ascii) : bool :=
  (N_of_ascii lo <=? N_of_ascii c)%N && (N_of_ascii c <=? N_of_ascii hi)%N.

Definition isHex (c : ascii) : bool :=
  between "0" "9" c || between "a" "f" c || between "A" "F" c.

(** [Joi.string().hex().length(24)] *)
Definition validShowId (s : string) : bool :=
  (String.length s =? 24)%nat && forallb isHex (list_ascii_of_string s).

(** [/^[A-Z]$/] *)
Definition validRow (s : string) : bool :=
  match s with
  | String c EmptyString => between "A" "Z" c
  | _ => false
  end.

Definition validType (s : string) : bool :=
  JS.includes s ["regular"; "premium"; "vip"].

Definition validSeat (s : SeatRequest) : bool :=
  validRow (r_row s) && (1 <=? r_number s) && (r_number s <=? 50)
  && validType (r_type s).

(** [bookingSchema.validate]: the key of the first rule that fails, in the
    order of the schema's keys; [None] when the body is accepted.  There is
    no uniqueness rule on [seats]. *)
Definition validate (body : Body) : option string :=
  if negb (validShowId (showId body)) then Some "showId"
  else if negb (forallb validSeat (seats body)
                && (1 <=? length (seats body))%nat
                && (length (seats body) <=? 8)%nat)
  then Some "seats"
  else match specialRequests body with
       | Some s =>
           if (1 <=? String.length s)%nat && (String.length s <=? 200)%nat
           then None else Some "specialRequests"
       | None => None
       end.

(** *** Failures of awaited calls *)

Inductive Op :=
| FindShow | AggregateBookings | FindLocks | SaveBooking | GenerateQR
| SaveQR | DeleteLocks | IncShow | CommitTransaction | FetchPopulated
| FindBooking | FindScreen | FindMovie | FindConflict | CreateShow.

(** What was thrown: Mongoose's [ValidationError], or anything else. *)
Inductive Thrown := ValidationError | OtherError.

Definition Oracle := Op -> option Thrown.

Definition noFault : Oracle := fun _ => None.

(** *** The transaction

    Between [session.startTransaction()] and [commitTransaction()] the
    handler works on the session's view of the store; [abortTransaction()]
    drops that view.  A computation in [Txn R A] either stops with the
    reply [R] that follows an abort, or goes on with a value and the
    session's view. *)
Definition Txn (R A : Type) : Type := DB -> R + (A * DB).

Definition ret {R A} (a : A) : Txn R A := fun w => inr (a, w).

Definition bind {R A B} (c : Txn R A) (k : A -> Txn R B) : Txn R B :=
  fun w => match c w with
           | inl r => inl r
           | inr (a, w') => k a w'
           end.

(** [await session.abortTransaction(); return res.status(..).json(..)] *)
Definition reject {R A} (r : R) : Txn R A := fun _ => inl r.

(** An awaited read in the session; a throw lands in the catch block. *)
Definition query {R A} (caught : Thrown -> R) (o : Oracle) (op : Op)
    (f : DB -> A) : Txn R A :=
  fun w => match o op with
           | Some e => inl (caught e)
           | None => inr (f w, w)
           end.

(** An awaited write in the session. *)
Definition update {R} (caught : Thrown -> R) (o : Oracle) (op : Op)
    (f : DB -> DB) : Txn R unit :=
  fun w => match o op with
           | Some e => inl (caught e)
           | None => inr (tt, f w)
           end.

Definition guard {R} (ok : bool) (r : R) : Txn R unit :=
  if ok then ret tt else reject r.

Notation "x <- c ;; k" := (bind c (fun x => k))
  (at level 61, c at next level, right associativity).
Notation "c ;;; k" := (bind c (fun _ => k))
  (at level 61, right associativity).

(** *** [POST /api/bookings] (lines 50-223) *)

Inductive CommitReply :=
| Created (b : Booking)                        (* 201 *)
| Invalid (field : string)                     (* 400, from the schema *)
| ShowNotFound                                 (* 404 *)
| TooLate                                      (* 400, the 15 minutes *)
| SeatsTaken (conflicts : list string)         (* 409 *)
| LocksMissing (missingLocks : list string)    (* 409 *)
| InvalidBooking                               (* 400, in the catch *)
| BookingFailed                                (* 500, in the catch *)
| NoReply.        (* the catch block itself threw: no response is sent *)

Definition caughtCommit (e : Thrown) : CommitReply :=
  match e with
  | ValidationError => InvalidBooking
  | OtherError => BookingFailed
  end.

(** What the handler takes from its surroundings: the authenticated user,
    the clock at lines 80 and 125, the [_id] given to the new document and
    the QR code generated for it. *)
Record CommitEnv := mkCommitEnv {
  userId : string;
  now_window : Z;
  now_locks : Z;
  newId : string;
  newQR : string
}.

(** [show.price[seat.type] || show.price.regular] *)
Definition priceFor (p : Price) (type : string) : Z :=
  let listed :=
    if String.eqb type "regular" then Some (regular p)
    else if String.eqb type "premium" then Some (premium p)
    else if String.eqb type "vip" then Some (vip p)
    else None in
  match listed with
  | Some n => if n =? 0 then regular p else n
  | None => regular p
  end.

Definition seatIdsOf (body : Body) : list string :=
  map (fun s => seatIdOf (r_row s) (r_number s)) (seats body).

Definition userLocksOf (user : string) (active : list SeatLock)
    : list SeatLock :=
  filter (fun l => String.eqb (lockedByUserId l) user) active.

Definition missingLocksOf (seatIds : list string)
    (userLocks : list SeatLock) : list string :=
  filter
    (fun seatId =>
       negb (existsb (fun l => String.eqb (sl_seatId l) seatId) userLocks))
    seatIds.

Definition seatsWithPrices (show : Show) (body : Body)
    : list SeatBooking :=
  map (fun s => mkSeatBooking (r_row s) (r_number s) (r_type s)
                  (priceFor (price show) (r_type s)))
    (seats body).

(** A document that has not been saved yet: [new Booking(bookingData)] of
    line 162.  [bookingReference] is there only if it was given. *)
Record NewBooking := mkNewBooking {
  n_id : string;
  n_userId : string;
  n_showId : string;
  n_seats : list SeatBooking;
  n_totalAmount : Z;
  n_status : Status;
  n_paymentStatus : PaymentStatus;
  n_bookingReference : option string;
  n_specialRequests : option string
}.

(** [bookingData] of lines 152-160: it has no [bookingReference]. *)
Definition bookingData (env : CommitEnv) (show : Show) (body : Body)
    : NewBooking :=
  let priced := seatsWithPrices show body in
  mkNewBooking (newId env) (userId env) (showId body) priced
    (fold_left (fun sum seat => sum + seatPrice seat) priced 0)
    confirmed payment_completed None (specialRequests body).

(** The validation that [save()] runs on a new document, against
    [bookingSchema] of [models/Booking.js]: [bookingReference] is required
    (lines 53-57) and [totalAmount] has [min: 0] (35-39); the other
    required fields are always given.  Mongoose validates before it runs
    the model's [pre('save')] hook (lines 86-100), so the reference that
    the hook generates for a new document without one comes after the
    check that refuses such a document. *)
Definition validated (n : NewBooking) : option Booking :=
  match n_bookingReference n with
  | Some reference =>
      if 0 <=? n_totalAmount n
      then Some (mkBooking (n_id n) (n_userId n) (n_showId n) (n_seats n)
                   (n_totalAmount n) (n_status n) (n_paymentStatus n)
                   reference None (n_specialRequests n) None)
      else None
  | None => None
  end.

Definition withQR (qr : string) (b : Booking) : Booking :=
  mkBooking (b_id b) (b_userId b) (b_showId b) (b_seats b) (totalAmount b)
    (status b) (paymentStatus b) (bookingReference b) (Some qr)
    (b_specialRequests b) (cancelledAt b).

(** The unique indexes on [_id] and [bookingReference]. *)
Definition canInsertBooking (b : Booking) (w : DB) : bool :=
  negb (existsb (fun b' => String.eqb (b_id b') (b_id b)
                           || String.eqb (bookingReference b')
                                (bookingReference b))
          (bookings w)).

Definition setBookings (f : list Booking -> list Booking) (w : DB) : DB :=
  mkDB (f (bookings w)) (shows w) (seatLocks w).

Definition setShows (f : list Show -> list Show) (w : DB) : DB :=
  mkDB (bookings w) (f (shows w)) (seatLocks w).

Definition setSeatLocks (f : list SeatLock -> list SeatLock) (w : DB) : DB :=
  mkDB (bookings w) (shows w) (f (seatLocks w)).

(** The first [booking.save({ session })] (line 163): the document is
    validated, which throws a [ValidationError] when it is refused, and
    then inserted, which throws a duplicate-key error when a unique index
    is violated. *)
Definition insertBooking (o : Oracle) (n : NewBooking)
    : Txn CommitReply Booking :=
  fun w => match o SaveBooking with
           | Some e => inl (caughtCommit e)
           | None =>
               match validated n with
               | None => inl (caughtCommit ValidationError)
               | Some b =>
                   if canInsertBooking b w
                   then inr (b, setBookings (fun bs => bs ++ [b]) w)
                   else inl (caughtCommit OtherError)
               end
           end.

(** The body of the [try], up to the call of [commitTransaction]. *)
Definition bookingTxn (o : Oracle) (env : CommitEnv) (body : Body)
    : Txn CommitReply Booking :=
  match validate body with
  | Some field => reject (Invalid field)
  | None =>
      found <- query caughtCommit o FindShow (findShow (showId body)) ;;
      match found with
      | None => reject ShowNotFound
      | Some show =>
          guard (isActive show) ShowNotFound ;;;
          guard (negb (startTime show - now_window env <? 15 * (1000 * 60)))
            TooLate ;;;
          let seatIds := seatIdsOf body in
          booked <- query caughtCommit o AggregateBookings
                      (bookedSeatIds (showId body)) ;;
          let conflicts :=
            filter (fun id => JS.includes id booked) seatIds in
          guard (negb (0 <? length conflicts)%nat) (SeatsTaken conflicts) ;;;
          active <- query caughtCommit o FindLocks
                      (activeLocks (showId body) seatIds (now_locks env)) ;;
          let userLocks := userLocksOf (userId env) active in
          guard (length userLocks =? length seatIds)%nat
            (LocksMissing (missingLocksOf seatIds userLocks)) ;;;
          booking <- insertBooking o (bookingData env show body) ;;
          qr <- query caughtCommit o GenerateQR (fun _ => newQR env) ;;
          let booking := withQR qr booking in
          update caughtCommit o SaveQR
            (setBookings (replaceBooking booking)) ;;;
          update caughtCommit o DeleteLocks
            (setSeatLocks (deleteLocks (showId body) seatIds (userId env))) ;;;
          update caughtCommit o IncShow
            (setShows (incAvailable (showId body)
                         (- Z.of_nat (length seatIds)))) ;;;
          ret booking
      end
  end.

(** The whole handler.  A reply that follows [abortTransaction] leaves the
    store as it was.  When [commitTransaction] has returned, the session's
    view is the store; if the read that follows throws, the catch block
    calls [abortTransaction] on a committed session, which throws in turn,
    and no response is sent. *)
Definition createBooking (o : Oracle) (env : CommitEnv) (body : Body)
    (db : DB) : CommitReply * DB :=
  match bookingTxn o env body db with
  | inl r => (r, db)
  | inr (b, w) =>
      match o CommitTransaction with
      | Some e => (caughtCommit e, db)
      | None =>
          match o FetchPopulated with
          | Some _ => (NoReply, w)
          | None => (Created b, w)
          end
      end
  end.

(** *** [PUT /api/bookings/:id/cancel] (lines 369-448) *)

Inductive CancelReply :=
| Cancelled (bookingId : string) (refundAmount : Z) (at_ : Z)   (* 200 *)
| BookingNotFound                                               (* 404 *)
| AccessDenied                                                  (* 403 *)
| NotConfirmed                                                  (* 400 *)
| TooLateToCancel                                               (* 400 *)
| CancelFailed.                                                 (* 500 *)

(** The authenticated user and the three readings of the clock: for the
    two-hour window (line 406), for [booking.cancelledAt] (line 415), and
    in the [pre('save')] hook of the model, which sets [cancelledAt] once
    more when the status has changed to cancelled (lines 91-96). *)
Record CancelEnv := mkCancelEnv {
  c_userId : string;
  c_now_window : Z;
  c_now_cancel : Z;
  c_now_saved : Z
}.

Definition cancelledAs (now : Z) (b : Booking) : Booking :=
  mkBooking (b_id b) (b_userId b) (b_showId b) (b_seats b) (totalAmount b)
    cancelled payment_refunded (bookingReference b) (qrCode b)
    (b_specialRequests b) (Some now).

(** The hook's [this.cancelledAt = new Date()]. *)
Definition stamped (now : Z) (b : Booking) : Booking :=
  mkBooking (b_id b) (b_userId b) (b_showId b) (b_seats b) (totalAmount b)
    (status b) (paymentStatus b) (bookingReference b) (qrCode b)
    (b_specialRequests b) (Some now).

Definition cancelTxn (o : Oracle) (env : CancelEnv) (id : string)
    : Txn CancelReply Booking :=
  let caught := fun _ : Thrown => CancelFailed in
  found <- query caught o FindBooking
             (fun w => match findBooking id w with
                       | Some b => Some (b, findShow (b_showId b) w)
                       | None => None
                       end) ;;
  match found with
  | None => reject BookingNotFound
  | Some (booking, populated) =>
      guard (String.eqb (b_userId booking) (c_userId env)) AccessDenied ;;;
      guard (status_eqb (status booking) confirmed) NotConfirmed ;;;
      match populated with
      | None => reject (caught OtherError)  (* [booking.showId] is null *)
      | Some show =>
          guard (negb (startTime show - c_now_window env
                       <? 2 * (1000 * 60 * 60)))
            TooLateToCancel ;;;
          let booking :=
            stamped (c_now_saved env)
              (cancelledAs (c_now_cancel env) booking) in
          update caught o SaveBooking
            (setBookings (replaceBooking booking)) ;;;
          update caught o IncShow
            (setShows (incAvailable (s_id show)
                         (Z.of_nat (length (b_seats booking))))) ;;;
          ret booking
      end
  end.

Definition cancelBooking (o : Oracle) (env : CancelEnv) (id : string)
    (db : DB) : CancelReply * DB :=
  match cancelTxn o env id db with
  | inl r => (r, db)
  | inr (b, w) =>
      match o CommitTransaction with
      | Some _ => (CancelFailed, db)
      | None =>
          (Cancelled (b_id b) (totalAmount b) (c_now_saved env), w)
      end
  end.

(** *** Show creation

    [POST /api/shows] of [backend/routes/shows.js].  The screen and the
    movie are looked up in collections that play no other part here, so
    the documents found are given. *)

Record Screen := mkScreen { sc_theaterId : string; sc_totalSeats : Z }.

Record Movie := mkMovie { mv_isActive : bool; mv_duration : Z }.

Record ShowValue := mkShowValue {
  v_movieId : string;
  v_screenId : string;
  v_startTime : Z;
  v_price : Price
}.

Record ShowEnv := mkShowEnv {
  sh_now : Z;
  sh_userTheater : string;
  sh_screen : option Screen;
  sh_movie : option Movie;
  sh_newId : string
}.

Inductive ShowReply :=
| ShowCreated (s : Show)     (* 201 *)
| ShowInvalid                (* 400 *)
| ScreenNotFound             (* 404 *)
| ScreenDenied               (* 403 *)
| MovieNotFound              (* 404 *)
| ShowConflict               (* 409 *)
| ShowFailed.                (* 500 *)

(** [showSchema] *)
Definition validShow (now : Z) (v : ShowValue) : bool :=
  JS.truthy (v_movieId v) && JS.truthy (v_screenId v)
  && (now <=? v_startTime v)
  && (0 <=? regular (v_price v)) && (0 <=? premium (v_price v))
  && (0 <=? vip (v_price v)).

Definition overlaps (screen : string) (start stop : Z) (s : Show) : bool :=
  String.eqb (screenId s) screen && isActive s
  && (startTime s <? stop) && (start <? endTime s).

Definition canInsertShow (s : Show) (db : DB) : bool :=
  negb (existsb (fun s' => String.eqb (s_id s') (s_id s)
                           || (String.eqb (screenId s') (screenId s)
                               && (startTime s' =? startTime s)))
          (shows db)).

Definition createShow (o : Oracle) (env : ShowEnv) (v : ShowValue)
    (db : DB) : ShowReply * DB :=
  if negb (validShow (sh_now env) v) then (ShowInvalid, db) else
  match o FindScreen, sh_screen env with
  | Some _, _ => (ShowFailed, db)
  | None, None => (ScreenNotFound, db)
  | None, Some screen =>
      if negb (String.eqb (sc_theaterId screen) (sh_userTheater env))
      then (ScreenDenied, db) else
      match o FindMovie, sh_movie env with
      | Some _, _ => (ShowFailed, db)
      | None, None => (MovieNotFound, db)
      | None, Some movie =>
          if negb (mv_isActive movie) then (MovieNotFound, db) else
          let start := v_startTime v in
          let stop := start + (mv_duration movie + 30) * 60000 in
          match o FindConflict with
          | Some _ => (ShowFailed, db)
          | None =>
              if existsb (overlaps (v_screenId v) start stop) (shows db)
              then (ShowConflict, db) else
              let show :=
                mkShow (sh_newId env) (v_movieId v) (sc_theaterId screen)
                  (v_screenId v) start stop (v_price v)
                  (sc_totalSeats screen) (sc_totalSeats screen) true in
              match o CreateShow with
              | Some _ => (ShowFailed, db)
              | None =>
                  if canInsertShow show db
                  then (ShowCreated show,
                        setShows (fun ss => ss ++ [show]) db)
                  else (ShowFailed, db)
              end
          end
      end
  end.

(** [POST /api/admin/theater/shows] of the admin routes (lines 485-536).
    The body's date, time and price are taken as present, [a_startTime]
    being the start they give. *)
Record AdminShowValue := mkAdminShowValue {
  a_theaterId : string;
  a_movieId : string;
  a_screen : string;
  a_startTime : Z
}.

(** A show document that has not been saved yet.  In [models/Show.js]
    [price] is a nested object of three required numbers; [ns_price] is
    that object, if the document was given one. *)
Record NewShow := mkNewShow {
  ns_id : string;
  ns_movieId : string;
  ns_theaterId : string;
  ns_screenId : string;
  ns_startTime : Z;
  ns_endTime : Z;
  ns_price : option Price;
  ns_totalSeats : Z;
  ns_availableSeats : Z
}.

(** The validation that [save()] runs on a new show: the three prices are
    required and not negative. *)
Definition validatedShow (n : NewShow) : option Show :=
  match ns_price n with
  | Some p =>
      if (0 <=? regular p) && (0 <=? premium p) && (0 <=? vip p)
      then Some (mkShow (ns_id n) (ns_movieId n) (ns_theaterId n)
                   (ns_screenId n) (ns_startTime n) (ns_endTime n) p
                   (ns_totalSeats n) (ns_availableSeats n) true)
      else None
  | None => None
  end.

(** The handler.  The document is given [price: Number(price)], a number
    where the schema has the object of the three prices, so that none of
    them is set; every show would get 100 seats.  A failed save lands in
    [handleErrors], which answers 500. *)
Definition adminCreateShow (o : Oracle) (newId : string)
    (v : AdminShowValue) (db : DB) : ShowReply * DB :=
  if negb (JS.truthy (a_theaterId v)) then (ShowInvalid, db) else
  if negb (JS.truthy (a_movieId v) && JS.truthy (a_screen v))
  then (ShowInvalid, db) else
  let doc :=
    mkNewShow newId (a_movieId v) (a_theaterId v) (a_screen v)
      (a_startTime v) (a_startTime v + 2 * 60 * 60 * 1000) None
      100 100 in
  match o CreateShow with
  | Some _ => (ShowFailed, db)
  | None =>
      match validatedShow doc with
      | None => (ShowFailed, db)
      | Some show =>
          if canInsertShow show db
          then (ShowCreated show, setShows (fun ss => ss ++ [show]) db)
          else (ShowFailed, db)
      end
  end.

(** *** Running requests against the store *)

Inductive Request :=
| PostShow (o : Oracle) (env : ShowEnv) (v : ShowValue)
| AdminPostShow (o : Oracle) (newId : string) (v : AdminShowValue)
| PostBooking (o : Oracle) (env : CommitEnv) (body : Body)
| PutCancel (o : Oracle) (env : CancelEnv) (id : string).

Definition handle (db : DB) (rq : Request) : DB :=
  match rq with
  | PostShow o env v => snd (createShow o env v db)
  | AdminPostShow o newId v => snd (adminCreateShow o newId v db)
  | PostBooking o env body => snd (createBooking o env body db)
  | PutCancel o env id => snd (cancelBooking o env id db)
  end.

(** A history of the store: requests to the routes, and changes of the
    SeatLock collection made from outside them (its TTL index, and the
    writer of lock documents, which is none of these routes). *)
Inductive Step :=
| Route (rq : Request)
| SeatLocksChanged (ls : list SeatLock).

Definition apply (db : DB) (st : Step) : DB :=
  match st with
  | Route rq => handle db rq
  | SeatLocksChanged ls => setSeatLocks (fun _ => ls) db
  end.

Definition run (steps : list Step) (db : DB) : DB :=
  fold_left apply steps db.

(** The number of seats covered by the confirmed bookings of a show. *)
Definition confirmedSeats (showId : string) (bs : list Booking) : Z :=
  fold_right
    (fun b n =>
       if String.eqb (b_showId b) showId && status_eqb (status b) confirmed
       then Z.of_nat (length (b_seats b)) + n else n)
    0 bs.

(** The unique index [{ showId: 1, seatId: 1 }] of the SeatLock model. *)
Definition lockIndexUnique (ls : list SeatLock) : Prop :=
  NoDup (map (fun l => (sl_showId l, sl_seatId l)) ls).

(** *** Vocabulary for the properties *)

(** The three effects of a commit: the booking is stored, the show's
    counter goes down by the number of seats, the holder's lock documents
    on those seats are deleted. *)
Definition committed (env : CommitEnv) (body : Body) (b : Booking)
    (db db' : DB) : Prop :=
  (bookings db' = bookings db ++ [b]
   /\ status b = confirmed /\ b_userId b = userId env
   /\ b_showId b = showId body
   /\ map (fun s => seatIdOf (row s) (number s)) (b_seats b)
      = seatIdsOf body)
  /\ (shows db'
      = incAvailable (showId body) (- Z.of_nat (length (seats body)))
          (shows db)
      /\ exists show,
          findShow (showId body) db = Some show /\
          findShow (showId body) db'
          = Some (withAvailable
                    (availableSeats show - Z.of_nat (length (seats body)))
                    show))
  /\ seatLocks db'
     = deleteLocks (showId body) (seatIdsOf body) (userId env)
         (seatLocks db).

(** The holder has an unexpired lock document on the seat. *)
Definition holdsLiveLock (user showId : string) (now : Z) (db : DB)
    (seat : string) : bool :=
  existsb
    (fun l => String.eqb (sl_showId l) showId
              && String.eqb (sl_seatId l) seat
              && String.eqb (lockedByUserId l) user
              && (now <=? sl_expiresAt l))
    (seatLocks db).

(** A request that gets as far as the check for booked seats of lines
    93-119: the schema accepts it, the show is found, active and far
    enough ahead, and neither read throws. *)
Definition reachesConflictCheck (o : Oracle) (env : CommitEnv)
    (body : Body) (db : DB) : Prop :=
  validate body = None
  /\ o FindShow = None
  /\ (exists show,
         findShow (showId body) db = Some show /\ isActive show = true
         /\ 15 * (1000 * 60) <= startTime show - now_window env)
  /\ o AggregateBookings = None.

(** ... and as far as the lock check of lines 121-141: besides, no
    requested seat is booked and the read of the locks does not throw. *)
Definition reachesLockCheck (o : Oracle) (env : CommitEnv) (body : Body)
    (db : DB) : Prop :=
  reachesConflictCheck o env body db
  /\ (forall seat, In seat (seatIdsOf body) ->
                   ~ In seat (bookedSeatIds (showId body) db))
  /\ o FindLocks = None.

(** In every show, the counter is the capacity less the seats of the
    confirmed bookings. *)
Definition counted (db : DB) : Prop :=
  forall s, In s (shows db) ->
            availableSeats s
            = totalSeats s - confirmedSeats (s_id s) (bookings db).

(** No show has a negative counter. *)
Definition stocked (db : DB) : Prop :=
  forall s, In s (shows db) -> 0 <= availableSeats s.

(** The screens on which the history creates shows have a seat count that
    is not negative ([totalSeats] of a screen is the length of its seat
    list, [models/Screen.js] line 107). *)
Definition seated (steps : list Step) : Prop :=
  forall o env v screen,
    In (Route (PostShow o env v)) steps ->
    sh_screen env = Some screen -> 0 <= sc_totalSeats screen.

(** Show ids are unique and every booking is for a stored show. *)
Definition keyed (db : DB) : Prop :=
  NoDup (map s_id (shows db))
  /\ forall b, In b (bookings db) ->
               exists s, In s (shows db) /\ s_id s = b_showId b.

End Store.

(** ** The server as a whole: the registry next to the store *)

Module System.

Record World := mkWorld {
  registry : Registry.Server;
  store : Store.DB
}.

Inductive Event :=
| RequestLock (socket : string) (rq : Registry.LockRequest)
    (clk : Registry.Readings)
| ReleaseLock (rl : Registry.ReleaseRequest)
| ConfirmBooking (showId : string) (seatIds : list string)
    (bookingId : string) (now : Z)
| Disconnect (socket : string)
| Sweep (now : Z)
| Timeout (now : Z)
| Http (rq : Store.Request).

(** What one event sends back: socket traffic, or nothing that matters
    here beyond the new store for an HTTP request. *)
Definition step (w : World) (e : Event) : World * list Registry.Emit :=
  let socketEvent (r : Registry.Server * list Registry.Emit) :=
    (mkWorld (fst r) (store w), snd r) in
  match e with
  | RequestLock socket rq clk =>
      socketEvent (Registry.requestLock socket rq clk (registry w))
  | ReleaseLock rl => socketEvent (Registry.releaseLock rl (registry w))
  | ConfirmBooking showId seatIds bookingId now =>
      socketEvent
        (Registry.confirmBooking showId seatIds bookingId now (registry w))
  | Disconnect socket =>
      socketEvent (Registry.disconnect socket (registry w))
  | Sweep now => socketEvent (Registry.sweep now (registry w))
  | Timeout now => socketEvent (Registry.fireTimer now (registry w))
  | Http rq => (mkWorld (registry w) (Store.handle (store w) rq), [])
  end.

Definition run (events : list Event) (w : World) : World :=
  fold_left (fun w e => fst (step w e)) events w.

(** The seats a holder has locked, over all shows. *)
Definition heldBy (user : string) (st : Registry.Server) : nat :=
  length (filter (fun e => String.eqb (Registry.userId (snd e)) user)
            (Registry.activeSeatLocks st)).

End System.

(** ** Concrete scenarios *)

Module Scenario.
Import Registry.

Definition theShow : string := "64b7f0c2a1d3e4f5a6b7c8d9".

Definition asks (user : string) (seats : list string) : LockRequest :=
  mkLockRequest theShow (Some seats) user.

Definition at_ (t : Z) : Readings := mkReadings t t t.

(** Alice locks A1 at time 0; her timer is armed 5 ms later. *)
Definition afterAlice : Server :=
  fst (requestLock "socketA" (asks "alice" ["A1"]) (mkReadings 0 0 5)
         initial).

(** The entry Alice's request leaves under A1. *)
Definition aliceLock : Lock :=
  mkLock (lockIdFor (asks "alice" ["A1"]) (mkReadings 0 0 5)) "alice" "A1"
    theShow 180000 "socketA".

(** A release of A1 under a lock id that is not Alice's. *)
Definition strayRelease : ReleaseRequest :=
  mkReleaseRequest theShow ["A1"] (Some "lock_of_someone_else") None.

(** Bob's release of A1 as the client sends it: no lock id. *)
Definition bobRelease : ReleaseRequest :=
  mkReleaseRequest theShow ["A1"] None (Some "bob").

Definition fiveA : list string := ["A1"; "A2"; "A3"; "A4"; "A5"].
Definition fiveB : list string := ["B1"; "B2"; "B3"; "B4"; "B5"].
Definition nine : list string :=
  ["A1"; "A2"; "A3"; "A4"; "A5"; "A6"; "A7"; "A8"; "A9"].

(** The store side: one show of 100 seats well ahead of the clock. *)
Definition prices : Store.Price := Store.mkPrice 200 350 500.

Definition showtime : Z := 100000000.

Definition theShowDoc : Store.Show :=
  Store.mkShow theShow "movie" "theater" "screen" showtime
    (showtime + 9000000) prices 100 100 true.

Definition seat (row : string) (number : Z) : Store.SeatRequest :=
  Store.mkSeatRequest row number "regular".

Definition posts (seats : list Store.SeatRequest) : Store.Body :=
  Store.mkBody theShow seats None.

Definition as_ (user id : string) : Store.CommitEnv :=
  Store.mkCommitEnv user 1000 1000 id "qr".

Definition lockDoc (user seatId : string) : Store.SeatLock :=
  Store.mkSeatLock theShow seatId user 180000.

(** A confirmed booking of A1. *)
Definition bookingOfA1 (user : string) : Store.Booking :=
  Store.mkBooking "booking0" user theShow
    [Store.mkSeatBooking "A" 1 "regular" 200] 200 Store.confirmed
    Store.payment_completed "BK0" (Some "qr") None None.

Definition storeWith (bs : list Store.Booking) (ls : list Store.SeatLock)
    : Store.DB :=
  Store.mkDB bs [theShowDoc] ls.

(** A screen with a single seat, and the request that schedules a show
    on it. *)
Definition smallScreen : Store.ShowEnv :=
  Store.mkShowEnv 0 "theater" (Some (Store.mkScreen "theater" 1))
    (Some (Store.mkMovie true 120)) theShow.

Definition showValue : Store.ShowValue :=
  Store.mkShowValue "movie" "screen" showtime prices.


End Scenario.

(** ** Room tracking of [backend/server.js] *)

Module Rooms.
Import Registry.

(** A [Set] of socket ids, in insertion order. *)
Definition add (x : string) (s : list string) : list string :=
  if JS.includes x s then s else s ++ [x].

Definition remove (x : string) (s : list string) : list string :=
  filter (fun y => negb (String.eqb x y)) s.

(** One element of the [currentLocks] snapshot (lines 156-160). *)
Record LockView := mkLockView {
  v_seatId : string;
  v_lockedBy : string;
  v_expiresAt : Z
}.

Inductive Reply :=
| JoinError (message : string)
| CurrentLocks (locks : list LockView).

(** [key.startsWith(`${showId}_`)] *)
Definition ofShow (showId : string) (key : string) : bool :=
  String.prefix (JS.template [showId; "_"]) key.

Definition currentLocks (showId : string) (m : JS.Map Lock)
    : list LockView :=
  map (fun e => mkLockView (seatId (snd e)) (userId (snd e))
                  (expiresAt (snd e)))
    (filter (fun e => ofShow showId (fst e)) m).

(** [socket.on('joinShow', ...)], lines 135-168: the room gets its set if
    it has none, the socket is added to it, and the socket is sent the
    locks of the show. *)
Definition joinShow (socket showId userId : string) (m : JS.Map Lock)
    (rooms : JS.Map (list string)) : JS.Map (list string) * Reply :=
  if negb (JS.truthy showId) || negb (JS.truthy userId)
  then (rooms, JoinError "Show ID and User ID are required")
  else
    let r := room showId in
    let rooms1 := if JS.has r rooms then rooms else JS.set r [] rooms in
    let rooms2 :=
      match JS.get r rooms1 with
      | Some users => JS.set r (add socket users) rooms1
      | None => rooms1
      end in
    (rooms2, CurrentLocks (currentLocks showId m)).

(** What is done to one room when a socket goes: the socket is taken out
    of its set, and the room is dropped when the set is empty. *)
Definition dropFrom (socket : string) (rooms : JS.Map (list string))
    (r : string) (users : list string) : JS.Map (list string) :=
  let users' := remove socket users in
  if (length users' =? 0)%nat then JS.delete r rooms
  else JS.set r users' rooms.

(** [socket.on('leaveShow', ...)], lines 170-186. *)
Definition leaveShow (socket showId : string)
    (rooms : JS.Map (list string)) : JS.Map (list string) :=
  match JS.get (room showId) rooms with
  | Some users => dropFrom socket rooms (room showId) users
  | None => rooms
  end.

(** The second loop of the disconnect handler, lines 292-298. *)
Definition dropSocket (socket : string) (rooms : JS.Map (list string))
    : JS.Map (list string) :=
  fold_left (fun acc e => dropFrom socket acc (fst e) (snd e)) rooms rooms.

Inductive Event :=
| Join (socket showId userId : string)
| Leave (socket showId : string)
| Gone (socket : string).

Definition step (m : JS.Map Lock) (rooms : JS.Map (list string))
    (e : Event) : JS.Map (list string) :=
  match e with
  | Join socket showId userId => fst (joinShow socket showId userId m rooms)
  | Leave socket showId => leaveShow socket showId rooms
  | Gone socket => dropSocket socket rooms
  end.

Definition run (m : JS.Map Lock) (events : list Event)
    (rooms : JS.Map (list string)) : JS.Map (list string) :=
  fold_left (step m) events rooms.

(** Room keys are unique, and no tracked room is empty or lists a socket
    twice. *)
Definition kept (rooms : JS.Map (list string)) : Prop :=
  NoDup (map fst rooms)
  /\ forall r users, In (r, users) rooms -> users <> [] /\ NoDup users.

End Rooms.

(** ** More of the models and routes *)

Module Catalog.
Import Store.

(** *** [models/SeatLock.js] *)

(** [isExpired] *)
Definition isExpired (now : Z) (l : SeatLock) : bool :=
  sl_expiresAt l <? now.

(** [cleanupExpired]: [deleteMany({ expiresAt: { $lt: now } })] *)
Definition cleanupExpired (now : Z) (db : DB) : DB :=
  setSeatLocks (filter (fun l => negb (sl_expiresAt l <? now))) db.

(** *** [models/Screen.js]: [generateSeats] (lines 83-108) *)

Definition rowNames : list string :=
  ["A"; "B"; "C"; "D"; "E"; "F"; "G"; "H"; "I"; "J"; "K"; "L"; "M";
   "N"; "O"; "P"; "Q"; "R"; "S"; "T"; "U"; "V"; "W"; "X"; "Y"; "Z"].

(** A generated seat; [rows[i]] is undefined from the 27th row on. *)
Record SeatDraft := mkSeatDraft {
  d_row : option string;
  d_number : Z;
  d_type : string
}.

(** The test of line 92, on the row index [i] and the seat number [j]. *)
Definition seatTypeAt (rows columns : nat) (i j : nat) : string :=
  if (2 <=? Z.of_nat i) && (Z.of_nat i <? Z.of_nat rows - 2)
     && (3 <? Z.of_nat j) && (Z.of_nat j <? Z.of_nat columns - 3)
  then "premium" else "regular".

Definition generateSeats (rows columns : nat) : list SeatDraft :=
  flat_map
    (fun i =>
       map (fun j => mkSeatDraft (nth_error rowNames i) (Z.of_nat j)
                       (seatTypeAt rows columns i j))
         (seq 1 columns))
    (seq 0 rows).

(** [this.totalSeats = seats.length] *)
Definition generatedTotal (rows columns : nat) : Z :=
  Z.of_nat (length (generateSeats rows columns)).

(** A stored seat of a screen ([seatSchema]; [row] is required). *)
Record ScreenSeat := mkScreenSeat {
  ss_row : string;
  ss_number : Z;
  ss_type : string
}.

Definition stored (d : SeatDraft) : option ScreenSeat :=
  match d_row d with
  | Some r => Some (mkScreenSeat r (d_number d) (d_type d))
  | None => None
  end.

(** The seat seen as an element of a booking request. *)
Definition requested (s : ScreenSeat) : SeatRequest :=
  mkSeatRequest (ss_row s) (ss_number s) (ss_type s).

(** *** [GET /api/shows/:id/seats] of [routes/shows.js] *)

Inductive SeatStatus := Available | Booked | Locked.

Record Summary := mkSummary {
  total : nat;
  booked : nat;
  locked : nat;
  available : nat
}.

(** The seat ids of the unexpired lock documents of a show. *)
Definition lockedSeatIds (showId : string) (now : Z) (db : DB)
    : list string :=
  map sl_seatId
    (filter (fun l => String.eqb (sl_showId l) showId
                      && (now <=? sl_expiresAt l))
       (seatLocks db)).

Definition statusOf (bookedIds lockedIds : list string) (id : string)
    : SeatStatus :=
  if JS.includes id bookedIds then Booked
  else if JS.includes id lockedIds then Locked
  else Available.

Definition tally (s : Summary) (st : SeatStatus) : Summary :=
  match st with
  | Booked => mkSummary (S (total s)) (S (booked s)) (locked s) (available s)
  | Locked => mkSummary (S (total s)) (booked s) (S (locked s)) (available s)
  | Available =>
      mkSummary (S (total s)) (booked s) (locked s) (S (available s))
  end.

Record SeatView := mkSeatView {
  sv_seat : ScreenSeat;
  sv_status : SeatStatus;
  sv_price : Z
}.

(** The names an object literal inherits from [Object.prototype].  For a
    seat in a row of such a name [seatsByRow[seat.row]] is there before
    any seat is entered and is no array, so that [push] throws. *)
Definition inherited : list string :=
  ["constructor"; "hasOwnProperty"; "isPrototypeOf";
   "propertyIsEnumerable"; "toLocaleString"; "toString"; "valueOf";
   "__defineGetter__"; "__defineSetter__"; "__lookupGetter__";
   "__lookupSetter__"; "__proto__"].

(** [rows.sort((a, b) => a.number - b.number)]: the sort of an array is
    stable, so a seat is entered before the first seat that its number
    does not exceed. *)
Fixpoint insertByNumber (v : SeatView) (vs : list SeatView)
    : list SeatView :=
  match vs with
  | [] => [v]
  | x :: rest =>
      if ss_number (sv_seat v) <=? ss_number (sv_seat x) then v :: vs
      else x :: insertByNumber v rest
  end.

Definition sortByNumber (vs : list SeatView) : list SeatView :=
  fold_right insertByNumber [] vs.

Definition byNumber (a b : SeatView) : Prop :=
  ss_number (sv_seat a) <= ss_number (sv_seat b).

Definition isBooked (st : SeatStatus) : bool :=
  match st with Booked => true | _ => false end.

(** The object [seatsByRow] as the map it is: the seats pushed under a
    row, in the screen's order, then sorted by number.  The empty list
    stands for a row that is no key of the object. *)
Definition seatsByRow (views : list SeatView) (r : string)
    : list SeatView :=
  sortByNumber (filter (fun v => String.eqb (ss_row (sv_seat v)) r) views).

Inductive SeatsReply :=
| SeatMap (byRow : string -> list SeatView) (summary : Summary)  (* 200 *)
| SeatsNotFound                                                  (* 404 *)
| SeatsFailed.                                                   (* 500 *)

(** The handler (lines 975-1021).  [screen] is the populated screen's
    seats, [None] when the screen document is gone. *)
Definition seatsOfShow (o : Oracle) (screen : option (list ScreenSeat))
    (now : Z) (id : string) (db : DB) : SeatsReply :=
  match o FindShow, findShow id db with
  | Some _, _ => SeatsFailed
  | None, None => SeatsNotFound
  | None, Some show =>
      if negb (isActive show) then SeatsNotFound else
      match o AggregateBookings, o FindLocks, screen with
      | Some _, _, _ | _, Some _, _ | _, _, None => SeatsFailed
      | None, None, Some seats =>
          if existsb (fun seat => JS.includes (ss_row seat) inherited) seats
          then SeatsFailed else
          let bookedIds := bookedSeatIds (s_id show) db in
          let lockedIds := lockedSeatIds (s_id show) now db in
          let views :=
            map (fun seat =>
                   mkSeatView seat
                     (statusOf bookedIds lockedIds
                        (seatIdOf (ss_row seat) (ss_number seat)))
                     (priceFor (price show) (ss_type seat)))
              seats in
          SeatMap (seatsByRow views)
            (fold_left tally (map sv_status views) (mkSummary 0 0 0 0))
      end
  end.

(** *** [DELETE /api/shows/:id] of [routes/shows.js] (lines 1091-1106) *)

Inductive DeleteReply :=
| ShowDeleted         (* 200 *)
| DeleteNotFound      (* 404 *)
| DeleteDenied        (* 403 *)
| HasBookings         (* 400 *)
| DeleteFailed.       (* 500 *)

(** [Booking.exists({ showId, status: { $in: ['confirmed', 'pending'] } })] *)
Definition hasBookings (showId : string) (db : DB) : bool :=
  existsb (fun b => String.eqb (b_showId b) showId
                    && (status_eqb (status b) confirmed
                        || status_eqb (status b) pending))
    (bookings db).

Definition withActive (a : bool) (s : Show) : Show :=
  mkShow (s_id s) (movieId s) (theaterId s) (screenId s) (startTime s)
    (endTime s) (price s) (totalSeats s) (availableSeats s) a.

(** [Show.findByIdAndUpdate(id, { isActive: false })] *)
Fixpoint deactivate (id : string) (ss : list Show) : list Show :=
  match ss with
  | [] => []
  | s :: ss' =>
      if String.eqb (s_id s) id then withActive false s :: ss'
      else s :: deactivate id ss'
  end.

(** The handler.  [theaterFound] says whether the populated theater of the
    show exists, [userTheater] is the user's [theaterId], if any; without
    either, the comparison of line 1095 throws.  The three awaited calls
    are [Show.findById], [Booking.exists] and [Show.findByIdAndUpdate]. *)
Definition deleteShow (o : Oracle) (userTheater : option string)
    (theaterFound : bool) (id : string) (db : DB) : DeleteReply * DB :=
  match o FindShow, findShow id db with
  | Some _, _ => (DeleteFailed, db)
  | None, None => (DeleteNotFound, db)
  | None, Some show =>
      match theaterFound, userTheater with
      | false, _ | _, None => (DeleteFailed, db)
      | true, Some mine =>
          if negb (String.eqb (theaterId show) mine)
          then (DeleteDenied, db) else
          match o AggregateBookings with
          | Some _ => (DeleteFailed, db)
          | None =>
              if hasBookings id db then (HasBookings, db) else
              match o IncShow with
              | Some _ => (DeleteFailed, db)
              | None => (ShowDeleted, setShows (deactivate id) db)
              end
          end
      end
  end.

(** *** [PUT /api/shows/:id] of [routes/shows.js] (lines 1059-1088) *)

Record UpdateEnv := mkUpdateEnv {
  up_now : Z;
  up_userTheater : option string;
  up_theaterFound : bool;
  up_movie : option Movie
}.

Inductive UpdateReply :=
| ShowUpdated (s : Show)    (* 200 *)
| UpdateInvalid             (* 400, from the schema *)
| UpdateNotFound            (* 404 *)
| UpdateDenied              (* 403 *)
| UpdateHasBookings         (* 400 *)
| UpdateConflict            (* 409 *)
| UpdateFailed.             (* 500 *)

(** [{ ...value, endTime: end }] written over the stored document. *)
Definition updated (v : ShowValue) (stop : Z) (s : Show) : Show :=
  mkShow (s_id s) (v_movieId v) (theaterId s) (v_screenId v)
    (v_startTime v) stop (v_price v) (totalSeats s) (availableSeats s)
    (isActive s).

Fixpoint replaceShow (s' : Show) (ss : list Show) : list Show :=
  match ss with
  | [] => []
  | s :: ss' =>
      if String.eqb (s_id s) (s_id s') then s' :: ss'
      else s :: replaceShow s' ss'
  end.

(** The unique index on screen and start time, for an update: no other
    document has the pair. *)
Definition canUpdateShow (s' : Show) (db : DB) : bool :=
  negb (existsb (fun s => negb (String.eqb (s_id s) (s_id s'))
                          && String.eqb (screenId s) (screenId s')
                          && (startTime s =? startTime s'))
          (shows db)).

(** The handler.  As for the deletion, [up_theaterFound] and
    [up_userTheater] stand for the two sides of the comparison of line
    1065; [up_movie] is the movie found, and [movie.duration] throws when
    there is none. *)
Definition updateShow (o : Oracle) (env : UpdateEnv) (id : string)
    (v : ShowValue) (db : DB) : UpdateReply * DB :=
  if negb (validShow (up_now env) v) then (UpdateInvalid, db) else
  match o FindShow, findShow id db with
  | Some _, _ => (UpdateFailed, db)
  | None, None => (UpdateNotFound, db)
  | None, Some existing =>
      match up_theaterFound env, up_userTheater env with
      | false, _ | _, None => (UpdateFailed, db)
      | true, Some mine =>
          if negb (String.eqb (theaterId existing) mine)
          then (UpdateDenied, db) else
          match o AggregateBookings with
          | Some _ => (UpdateFailed, db)
          | None =>
              if hasBookings id db then (UpdateHasBookings, db) else
              match o FindMovie, up_movie env with
              | Some _, _ | None, None => (UpdateFailed, db)
              | None, Some movie =>
                  let start := v_startTime v in
                  let stop := start + (mv_duration movie + 30) * 60000 in
                  match o FindConflict with
                  | Some _ => (UpdateFailed, db)
                  | None =>
                      if existsb
                           (fun s => negb (String.eqb (s_id s) id)
                                     && overlaps (v_screenId v) start stop s)
                           (shows db)
                      then (UpdateConflict, db) else
                      let show := updated v stop existing in
                      match o IncShow with
                      | Some _ => (UpdateFailed, db)
                      | None =>
                          if canUpdateShow show db
                          then (ShowUpdated show,
                                setShows (replaceShow show) db)
                          else (UpdateFailed, db)
                      end
                  end
              end
          end
      end
  end.

(** *** [PUT /api/admin/theater/shows/:id] of the admin routes
    (lines 539-583) *)

(** The request, as the handler reads it.  [u_theaterId] is the user's
    theater, or the query's for a super admin.  [u_movieId] and [u_screen]
    are the body's fields when they are truthy.  [u_start] is there when
    the body has both a date and a time: [Some t] for the time that
    [new Date] reads from them, [None] for an invalid date.  [u_price]
    says that the body has a price which [Number] reads as a number other
    than 0; a price that is truthy and read as 0 or as no number is left
    out. *)
Record AdminUpdate := mkAdminUpdate {
  u_theaterId : string;
  u_movieId : option string;
  u_start : option (option Z);
  u_screen : option string;
  u_price : bool
}.

Inductive AdminUpdateReply :=
| AdminUpdated (s : Show)    (* 200 *)
| AdminUpdateNoTheater       (* 400 *)
| AdminUpdateNotFound        (* 404 *)
| AdminUpdateFailed.         (* 500 *)

(** The assignments of lines 565-571 to the loaded document, for a start
    that is a date and no price: the end is two hours after the start. *)
Definition assigned (u : AdminUpdate) (start : option Z) (s : Show) : Show :=
  mkShow (s_id s)
    (match u_movieId u with Some m => m | None => movieId s end)
    (theaterId s)
    (match u_screen u with Some sc => sc | None => screenId s end)
    (match start with Some t => t | None => startTime s end)
    (match start with
     | Some t => t + 2 * 60 * 60 * 1000
     | None => endTime s
     end)
    (price s) (totalSeats s) (availableSeats s) (isActive s).

(** The handler.  [Show.findOne({ _id: showId, theaterId })] finds the show
    of the id when it is of the theater.  An invalid date, and a number
    assigned to [price], which is a nested object in the schema, make the
    document invalid, and [save()] rejects it.  No overlap with the other
    shows of the screen is looked for; the unique index on screen and
    start time is all that [save()] meets.  A throw of [populate] comes
    after the save.  The awaited calls are [Show.findOne], [save] and
    [populate]. *)
Definition adminUpdateShow (o : Oracle) (id : string) (u : AdminUpdate)
    (db : DB) : AdminUpdateReply * DB :=
  if negb (JS.truthy (u_theaterId u)) then (AdminUpdateNoTheater, db) else
  match o FindShow, findShow id db with
  | Some _, _ => (AdminUpdateFailed, db)
  | None, None => (AdminUpdateNotFound, db)
  | None, Some show =>
      if negb (String.eqb (theaterId show) (u_theaterId u))
      then (AdminUpdateNotFound, db) else
      match u_start u, u_price u with
      | Some None, _ | _, true => (AdminUpdateFailed, db)
      | start, false =>
          let show' :=
            assigned u (match start with Some t => t | None => None end)
              show in
          match o IncShow with
          | Some _ => (AdminUpdateFailed, db)
          | None =>
              if canUpdateShow show' db then
                match o FetchPopulated with
                | Some _ =>
                    (AdminUpdateFailed, setShows (replaceShow show') db)
                | None =>
                    (AdminUpdated show', setShows (replaceShow show') db)
                end
              else (AdminUpdateFailed, db)
          end
      end
  end.

(** *** [DELETE /api/admin/theater/shows/:id] of the admin routes
    (lines 586-620) *)

Inductive AdminDeleteReply :=
| AdminDeleted               (* 200 *)
| AdminDeleteNoTheater       (* 400 *)
| AdminDeleteNotFound        (* 404 *)
| AdminDeleteHasBookings     (* 400 *)
| AdminDeleteFailed.         (* 500 *)

(** [Booking.countDocuments({ showId }) > 0]: bookings of any status. *)
Definition anyBooking (showId : string) (db : DB) : bool :=
  existsb (fun b => String.eqb (b_showId b) showId) (bookings db).

(** [Show.findByIdAndDelete(showId)] *)
Fixpoint removeShow (id : string) (ss : list Show) : list Show :=
  match ss with
  | [] => []
  | s :: ss' =>
      if String.eqb (s_id s) id then ss' else s :: removeShow id ss'
  end.

(** The handler.  The awaited calls are [Show.findOne],
    [Booking.countDocuments] and [Show.findByIdAndDelete]. *)
Definition adminDeleteShow (o : Oracle) (theater : string) (id : string)
    (db : DB) : AdminDeleteReply * DB :=
  if negb (JS.truthy theater) then (AdminDeleteNoTheater, db) else
  match o FindShow, findShow id db with
  | Some _, _ => (AdminDeleteFailed, db)
  | None, None => (AdminDeleteNotFound, db)
  | None, Some show =>
      if negb (String.eqb (theaterId show) theater)
      then (AdminDeleteNotFound, db) else
      match o AggregateBookings with
      | Some _ => (AdminDeleteFailed, db)
      | None =>
          if anyBooking id db then (AdminDeleteHasBookings, db) else
          match o IncShow with
          | Some _ => (AdminDeleteFailed, db)
          | None => (AdminDeleted, setShows (removeShow id) db)
          end
      end
  end.

(** *** Histories with the routes that write shows and bookings: those of
    the store, [PUT] and [DELETE /api/shows/:id], and [PUT] and
    [DELETE /api/admin/theater/shows/:id] *)

Inductive Change :=
| Routed (rq : Request)
| PutShow (o : Oracle) (env : UpdateEnv) (id : string) (v : ShowValue)
| DeleteShow (o : Oracle) (userTheater : option string)
    (theaterFound : bool) (id : string)
| AdminPutShow (o : Oracle) (id : string) (u : AdminUpdate)
| AdminDeleteShow (o : Oracle) (theater : string) (id : string).

Definition change (db : DB) (c : Change) : DB :=
  match c with
  | Routed rq => handle db rq
  | PutShow o env id v => snd (updateShow o env id v db)
  | DeleteShow o userTheater theaterFound id =>
      snd (deleteShow o userTheater theaterFound id db)
  | AdminPutShow o id u => snd (adminUpdateShow o id u db)
  | AdminDeleteShow o theater id => snd (adminDeleteShow o theater id db)
  end.

Definition history (cs : list Change) (db : DB) : DB :=
  fold_left change cs db.

(** *** The [canCancel] field of [GET /api/bookings/user] and
    [GET /api/bookings/:id] (lines 272-276, 350-352)

    [show] is the populated [showId] of the booking, [None] when the show
    document is gone. *)
Definition canCancel (now : Z) (b : Booking) (show : option Show) : bool :=
  status_eqb (status b) confirmed
  && match show with
     | Some s => now + 2 * 60 * 60 * 1000 <? startTime s
     | None => false
     end.

(** *** Vocabulary for the properties *)



(** No two active shows of one screen overlap in time. *)
Definition disjointShows (db : DB) : Prop :=
  forall a b,
    In a (shows db) -> In b (shows db) -> a <> b ->
    isActive a = true -> isActive b = true -> screenId a = screenId b ->
    ~ (startTime a < endTime b /\ startTime b < endTime a).

(** A history in which no show is updated through the admin route. *)
Definition planned (cs : list Change) : Prop :=
  forall o id u, ~ In (AdminPutShow o id u) cs.

End Catalog.

(** ** Vocabulary for the lock table *)

Module Table.
Import Registry.

(** Keys are unique, every entry sits under the key of its own show and
    seat, and every pending timer carries a lock id. *)
Definition tidy (st : Server) : Prop :=
  NoDup (map fst (activeSeatLocks st))
  /\ (forall k l, In (k, l) (activeSeatLocks st) ->
                  k = lockKey (showId l) (seatId l))
  /\ (forall t, In t (timers st) -> t_lockId t <> "").

(** The server after some events, started with an empty table. *)
Definition after (events : list System.Event) (db : Store.DB) : Server :=
  System.registry (System.run events (System.mkWorld initial db)).

(** What the sweep and the disconnect handler send for an entry. *)
Definition released (reason : string) (e : string * Lock) : Emit :=
  ToRoom (room (showId (snd e)))
    (SeatLocksReleased [seatId (snd e)] (Some reason) None).

End Table.

(** * Properties *)

(** ** Maps *)

Section MapFacts.
Context {V : Type}.
Implicit Types (m : JS.Map V) (k : string) (v : V).

Lemma get_set_eq k v m : JS.get k (JS.set k v m) = Some v.
Proof.
  induction m as [|[k' v'] m IH]; simpl.
  - now rewrite String.eqb_refl.
  - destruct (String.eqb k k') eqn:E; simpl.
    + now rewrite String.eqb_refl.
    + now rewrite E.
Qed.

Lemma get_set_ne k k' v m :
  k <> k' -> JS.get k' (JS.set k v m) = JS.get k' m.
Proof.
  intros Hne. induction m as [|[k0 v0] m IH]; simpl.
  - destruct (String.eqb_spec k' k); congruence.
  - destruct (String.eqb_spec k k0) as [->|Hk]; simpl.
    + destruct (String.eqb_spec k' k0); congruence.
    + destruct (String.eqb_spec k' k0); congruence.
Qed.

Lemma get_delete_eq k m : JS.get k (JS.delete k m) = None.
Proof.
  unfold JS.delete. induction m as [|[k' v'] m IH]; simpl; [reflexivity|].
  destruct (String.eqb k k') eqn:E; simpl; [assumption|].
  now rewrite E.
Qed.

Lemma get_delete_ne k k' m :
  k <> k' -> JS.get k' (JS.delete k m) = JS.get k' m.
Proof.
  intros Hne. unfold JS.delete.
  induction m as [|[k0 v0] m IH]; simpl; [reflexivity|].
  destruct (String.eqb_spec k k0) as [->|Hk]; simpl.
  - destruct (String.eqb_spec k' k0); congruence.
  - destruct (String.eqb_spec k' k0); congruence.
Qed.

Lemma get_delete k k' m :
  JS.get k' (JS.delete k m) = if String.eqb k k' then None else JS.get k' m.
Proof.
  destruct (String.eqb_spec k k') as [->|Hne].
  - apply get_delete_eq.
  - now apply get_delete_ne.
Qed.

Lemma delete_absent k m : JS.get k m = None -> JS.delete k m = m.
Proof.
  unfold JS.delete. induction m as [|[k' v'] m IH]; simpl; [reflexivity|].
  destruct (String.eqb k k'); simpl; [discriminate|].
  intros H. now rewrite IH.
Qed.

Lemma get_In k v m : JS.get k m = Some v -> In (k, v) m.
Proof.
  induction m as [|[k' v'] m IH]; simpl; [discriminate|].
  destruct (String.eqb_spec k k') as [->|Hne].
  - intros [= ->]. now left.
  - intros H. right. now apply IH.
Qed.

Lemma has_true k m : JS.has k m = true <-> exists v, JS.get k m = Some v.
Proof.
  unfold JS.has. destruct (JS.get k m) as [v|].
  - split; [intros _; now exists v | reflexivity].
  - split; [discriminate | intros [v Hv]; discriminate].
Qed.

Lemma has_false k m : JS.has k m = false <-> JS.get k m = None.
Proof.
  unfold JS.has. destruct (JS.get k m); split; congruence.
Qed.

End MapFacts.

(** ** The registry *)

Section RegistryFacts.
Import Registry.

Lemma append_inj_r (a x y : string) :
  String.append a x = String.append a y -> x = y.
Proof. induction a as [|c a IH]; simpl; [auto | intros [= H]; auto]. Qed.

(** For one show, distinct seats have distinct keys. *)
Lemma lockKey_inj showId a b : lockKey showId a = lockKey showId b -> a = b.
Proof.
  unfold lockKey, JS.template. simpl. intros H.
  apply append_inj_r in H. now injection H.
Qed.

Lemma includes_In x xs : JS.includes x xs = true <-> In x xs.
Proof.
  unfold JS.includes. rewrite existsb_exists. split.
  - intros [y [Hy E]]. apply String.eqb_eq in E. now subst.
  - intros H. exists x. split; [assumption | apply String.eqb_refl].
Qed.

Lemma conflictsOf_spec showId seatIds m seat :
  In seat (conflictsOf showId seatIds m) <->
  In seat seatIds /\ exists l, JS.get (lockKey showId seat) m = Some l.
Proof.
  unfold conflictsOf. rewrite filter_In, has_true. reflexivity.
Qed.

Lemma conflictsOf_nil showId seatIds m :
  conflictsOf showId seatIds m = [] <->
  forall seat, In seat seatIds -> JS.get (lockKey showId seat) m = None.
Proof.
  split.
  - intros H seat Hin.
    destruct (JS.get (lockKey showId seat) m) as [l|] eqn:E; [|reflexivity].
    assert (Hc : In seat (conflictsOf showId seatIds m))
      by (apply conflictsOf_spec; eauto).
    rewrite H in Hc. destruct Hc.
  - intros H. unfold conflictsOf.
    induction seatIds as [|s ss IH]; simpl; [reflexivity|].
    assert (Hs : JS.has (lockKey showId s) m = false)
      by (apply has_false, H; now left).
    rewrite Hs. apply IH. intros seat Hin. apply H. now right.
Qed.

(** What the second [forEach] of requestLock leaves under each key. *)
Lemma get_createLocks mk showId seatIds m seat :
  JS.get (lockKey showId seat) (createLocks mk showId seatIds m) =
  if JS.includes seat seatIds then Some (mk seat)
  else JS.get (lockKey showId seat) m.
Proof.
  unfold createLocks. revert m.
  induction seatIds as [|s ss IH]; intros m; simpl; [reflexivity|].
  rewrite IH. destruct (JS.includes seat ss) eqn:E.
  - now rewrite orb_true_r.
  - rewrite orb_false_r. destruct (String.eqb_spec seat s) as [->|Hne].
    + apply get_set_eq.
    + apply get_set_ne. intros Hk. apply lockKey_inj in Hk. congruence.
Qed.


End RegistryFacts.

Section RequestLock.
Import Registry.

Lemma requestLock_admitted socket rq seatIds clk st :
  admitted rq seatIds ->
  requestLock socket rq clk st =
  let showId := rq_showId rq in
  let lockId := lockIdFor rq clk in
  let expiresAt := at_expiry clk + lease in
  let conflicts := conflictsOf showId seatIds (activeSeatLocks st) in
  match conflicts with
  | _ :: _ =>
      (st, [ToSocket socket
              (LockFailed
                 (JS.template ["Seats "; JS.join ", " conflicts;
                               " are already locked"])
                 conflicts)])
  | [] =>
      (mkServer
         (createLocks
            (fun seatId =>
               mkLock lockId (rq_userId rq) seatId showId expiresAt socket)
            showId seatIds (activeSeatLocks st))
         (timers st ++
            [mkTimer (at_timer clk + lease) showId seatIds lockId]),
       [ToRoom (room showId)
          (SeatLocksLocked seatIds lockId expiresAt (rq_userId rq));
        ToSocket socket (LockSuccess lockId expiresAt)])
  end.
Proof.
  intros (Hs & Hshow & Huser & Hlen). unfold requestLock.
  rewrite Hs, Hshow, Huser. simpl negb. simpl orb.
  replace (maxSeats <? length seatIds)%nat with false
    by (symmetry; apply Nat.ltb_ge; exact Hlen).
  cbv zeta.
  destruct (conflictsOf (rq_showId rq) seatIds (activeSeatLocks st));
    reflexivity.
Qed.

Lemma requestLock_granted_iff socket rq seatIds clk st :
  admitted rq seatIds ->
  granted (snd (requestLock socket rq clk st)) = true <->
  conflictsOf (rq_showId rq) seatIds (activeSeatLocks st) = [].
Proof.
  intros Ha. rewrite (requestLock_admitted _ _ _ _ _ Ha). cbv zeta.
  destruct (conflictsOf _ _ _); simpl; split; congruence.
Qed.

(** The entries a granted request leaves behind. *)
Lemma requestLock_granted_entries socket rq seatIds clk st seat :
  admitted rq seatIds ->
  conflictsOf (rq_showId rq) seatIds (activeSeatLocks st) = [] ->
  In seat seatIds ->
  lockedFor (rq_showId rq) seat (fst (requestLock socket rq clk st))
  = Some (mkLock (lockIdFor rq clk) (rq_userId rq) seat (rq_showId rq)
            (at_expiry clk + lease) socket).
Proof.
  intros Ha Hc Hin.
  rewrite (requestLock_admitted socket rq seatIds clk st Ha). cbv zeta.
  rewrite Hc. unfold lockedFor. simpl. rewrite get_createLocks.
  apply includes_In in Hin. now rewrite Hin.
Qed.

End RequestLock.

Section LockRequests.
Import Registry.






End LockRequests.

(** ** Releasing locks *)

Section Release.
Import Registry.
Variables (showId : string) (specificLockId : option string).

Lemma releaseOne_releasable acc seat :
  releaseOne showId specificLockId acc seat =
  if releasable showId specificLockId (fst acc) seat
  then (JS.delete (lockKey showId seat) (fst acc),
        snd acc ++
        [ToRoom (room showId)
           (SeatLocksReleased [seat] None
              (option_map lockId
                 (JS.get (lockKey showId seat) (fst acc))))])
  else acc.
Proof.
  unfold releaseOne, releasable.
  destruct (JS.get (lockKey showId seat) (fst acc)) as [lock|];
    [|reflexivity].
  destruct (negb (JS.truthy_opt specificLockId) || _); reflexivity.
Qed.

(** Every key keeps its entry or loses it; it loses it only as the key of
    a listed seat whose entry passed the test. *)
Lemma release_only_removes seats :
  forall acc k,
    let r := fold_left (releaseOne showId specificLockId) seats acc in
    JS.get k (fst r) = JS.get k (fst acc)
    \/ (JS.get k (fst r) = None /\
        exists seat,
          In seat seats /\ k = lockKey showId seat /\
          releasable showId specificLockId (fst acc) seat = true).
Proof.
  induction seats as [|s ss IH]; intros acc k; simpl; [now left|].
  specialize (IH (releaseOne showId specificLockId acc s) k).
  cbv zeta in IH. rewrite releaseOne_releasable in *.
  destruct (releasable showId specificLockId (fst acc) s) eqn:Hs.
  - simpl in IH. rewrite get_delete in IH.
    destruct (String.eqb_spec (lockKey showId s) k) as [<-|Hne].
    + right. split.
      * destruct IH as [IH|[IH _]]; exact IH.
      * exists s. auto.
    + destruct IH as [IH|[IH (seat & Hin & Hk & Hr)]]; [now left|].
      right. split; [assumption|]. exists seat. repeat split; auto.
      unfold releasable in *. rewrite get_delete in Hr.
      destruct (String.eqb (lockKey showId s) (lockKey showId seat));
        [discriminate | assumption].
  - destruct IH as [IH|[IH (seat & Hin & Hk & Hr)]]; [now left|].
    right. split; [assumption|]. exists seat. auto.
Qed.

Lemma release_nothing seats :
  forall acc,
    (forall seat, In seat seats ->
                  releasable showId specificLockId (fst acc) seat = false) ->
    fold_left (releaseOne showId specificLockId) seats acc = acc.
Proof.
  induction seats as [|s ss IH]; intros acc H; simpl; [reflexivity|].
  rewrite releaseOne_releasable, (H s) by now left.
  apply IH. intros seat Hin. apply H. now right.
Qed.

Lemma releasable_stays_false seats acc seat :
  releasable showId specificLockId (fst acc) seat = false ->
  releasable showId specificLockId
    (fst (fold_left (releaseOne showId specificLockId) seats acc)) seat
  = false.
Proof.
  intros H.
  destruct (release_only_removes seats acc (lockKey showId seat))
    as [E|[E _]]; unfold releasable in *; rewrite E; auto.
Qed.

Lemma release_exhausts seats :
  forall acc seat,
    In seat seats ->
    releasable showId specificLockId
      (fst (fold_left (releaseOne showId specificLockId) seats acc)) seat
    = false.
Proof.
  induction seats as [|s ss IH]; intros acc seat Hin; [destruct Hin|].
  simpl. destruct Hin as [->|Hin]; [|now apply IH].
  apply releasable_stays_false. rewrite releaseOne_releasable.
  destruct (releasable showId specificLockId (fst acc) seat) eqn:E;
    [|assumption].
  unfold releasable. simpl. now rewrite get_delete_eq.
Qed.

End Release.

Section ReleaseLock.
Import Registry.

Lemma releasable_with_id showId id m seat :
  id <> "" ->
  releasable showId (Some id) m seat = true ->
  exists l, JS.get (lockKey showId seat) m = Some l /\ lockId l = id.
Proof.
  intros Hid. unfold releasable.
  destruct (JS.get (lockKey showId seat) m) as [l|]; [|discriminate].
  simpl. unfold JS.truthy.
  destruct (String.eqb_spec id ""); [contradiction|]. simpl.
  intros H. apply String.eqb_eq in H. eauto.
Qed.

Lemma server_eta st : mkServer (activeSeatLocks st) (timers st) = st.
Proof. now destruct st. Qed.

(** What the test of line 311 says of an entry that it lets pass. *)
Lemma releasable_entry showId id m seat :
  releasable showId id m seat = true ->
  exists l,
    JS.get (lockKey showId seat) m = Some l
    /\ (JS.truthy_opt id = true -> id = Some (lockId l)).
Proof.
  unfold releasable.
  destruct (JS.get (lockKey showId seat) m) as [l|]; [|discriminate].
  intros H. exists l. split; [reflexivity|]. intros Ht.
  rewrite Ht in H. destruct id as [id|]; [|discriminate]. simpl in H.
  apply String.eqb_eq in H. now rewrite H.
Qed.

(** ... and of one that it holds back. *)
Lemma unreleasable_entry showId id m seat l :
  JS.get (lockKey showId seat) m = Some l ->
  releasable showId id m seat = false ->
  JS.truthy_opt id = true /\ id <> Some (lockId l).
Proof.
  unfold releasable. intros ->.
  destruct (JS.truthy_opt id); [|discriminate]. simpl.
  destruct id as [id|]; [|intros _; split; [reflexivity | discriminate]].
  intros H. split; [reflexivity|]. intros [= ->].
  now rewrite String.eqb_refl in H.
Qed.

(** C7 (amended).  Ownership is by lock id, and only when one is given.
    For every releaseLock: an entry is removed only as the entry of a
    listed seat and, when the release carries a lock id that is not empty,
    only if that is its own lock id; every other entry stays.  Among the
    listed seats, the entries that stay are those under another lock id
    than the one given: a release without a lock id empties every listed
    seat, whoever holds it.  When no listed seat has an entry that the
    release may remove (each is free, or is locked under another id than
    the one given) nothing changes and nothing is sent.  Releasing again
    changes nothing, and no release touches the timers. *)
Theorem releaseLock_by_lock_id :
  forall rl st,
    let r := releaseLock rl st in
    (forall k,
        JS.get k (activeSeatLocks (fst r)) = JS.get k (activeSeatLocks st)
        \/ (JS.get k (activeSeatLocks (fst r)) = None /\
            exists seat l,
              In seat (rl_seatIds rl) /\ k = lockKey (rl_showId rl) seat /\
              JS.get k (activeSeatLocks st) = Some l /\
              (JS.truthy_opt (rl_lockId rl) = true ->
               rl_lockId rl = Some (lockId l))))
    /\ (forall seat l,
           In seat (rl_seatIds rl) ->
           lockedFor (rl_showId rl) seat (fst r) = Some l ->
           lockedFor (rl_showId rl) seat st = Some l
           /\ JS.truthy_opt (rl_lockId rl) = true
           /\ rl_lockId rl <> Some (lockId l))
    /\ ((forall seat l,
            In seat (rl_seatIds rl) ->
            lockedFor (rl_showId rl) seat st = Some l ->
            JS.truthy_opt (rl_lockId rl) = true
            /\ rl_lockId rl <> Some (lockId l)) ->
        r = (st, []))
    /\ releaseLock rl (fst r) = (fst r, [])
    /\ timers (fst r) = timers st.
Proof.
  intros rl st r. unfold r, releaseLock, releaseSeatLock.
  simpl fst. simpl snd. split; [|split; [|split; [|split]]].
  - intros k.
    destruct (release_only_removes (rl_showId rl) (rl_lockId rl)
                (rl_seatIds rl) (activeSeatLocks st, []) k)
      as [E|[E (seat & Hin & Hk & Hr)]]; [now left|].
    right. split; [exact E|].
    apply releasable_entry in Hr as (l & Hl & Hid).
    exists seat, l. subst k. auto.
  - intros seat l Hin Hl. unfold lockedFor in *. simpl in Hl.
    pose proof (release_exhausts (rl_showId rl) (rl_lockId rl)
                  (rl_seatIds rl) (activeSeatLocks st, []) seat Hin) as Hx.
    destruct (unreleasable_entry _ _ _ _ _ Hl Hx) as [H1 H2].
    split; [|auto].
    destruct (release_only_removes (rl_showId rl) (rl_lockId rl)
                (rl_seatIds rl) (activeSeatLocks st, [])
                (lockKey (rl_showId rl) seat))
      as [E|[E _]]; simpl in E; congruence.
  - intros H.
    rewrite release_nothing.
    + simpl. now rewrite server_eta.
    + intros seat Hin. simpl.
      destruct (releasable (rl_showId rl) (rl_lockId rl) (activeSeatLocks st)
                  seat) eqn:E; [|reflexivity].
      apply releasable_entry in E as (l & Hl & Hid).
      destruct (H seat l Hin Hl) as [H1 H2]. now elim H2; apply Hid.
  - rewrite release_nothing; [reflexivity|].
    intros seat Hin. simpl. now apply release_exhausts.
  - reflexivity.
Qed.

(** Releasing is idempotent whether or not a lock id is given. *)
Lemma releaseLock_idempotent rl st :
  releaseLock rl (fst (releaseLock rl st)) = (fst (releaseLock rl st), []).
Proof.
  unfold releaseLock, releaseSeatLock. simpl fst. simpl snd.
  rewrite release_nothing; [reflexivity|].
  intros seat Hin. simpl. now apply release_exhausts.
Qed.

End ReleaseLock.

(** ** The sweep *)

Section Purge.
Import Registry.
Variables (p : Lock -> bool) (reason : string).

Lemma purge_gone k :
  forall es acc,
    (exists l, In (k, l) es /\ p l = true) \/ JS.get k (fst acc) = None ->
    JS.get k (fst (fold_left (visit p reason) es acc)) = None.
Proof.
  induction es as [|[k0 l0] es IH]; intros acc H; simpl.
  - destruct H as [(l & [] & _)|H]; exact H.
  - apply IH. unfold visit at 1. simpl.
    destruct H as [(l & [[= -> ->]|Hin] & Hp)|H].
    + rewrite Hp. right. apply get_delete_eq.
    + left. eauto.
    + right. destruct (p l0); [|assumption]. simpl.
      rewrite get_delete, H. now destruct (String.eqb k0 k).
Qed.

Lemma purge_tells k l :
  forall es acc,
    In (k, l) es -> p l = true ->
    In (ToRoom (room (showId l))
          (SeatLocksReleased [seatId l] (Some reason) None))
       (snd (fold_left (visit p reason) es acc)).
Proof.
  assert (Hkeep : forall ev es acc,
             In ev (snd acc) -> In ev (snd (fold_left (visit p reason) es acc))).
  { intros ev. induction es as [|e es IH]; intros acc H; simpl; [exact H|].
    apply IH. unfold visit at 1. destruct (p (snd e)); [|exact H].
    simpl. apply in_or_app. now left. }
  induction es as [|e es IH]; intros acc Hin Hp; [destruct Hin|].
  simpl. destruct Hin as [->|Hin]; [|now apply IH].
  apply Hkeep. unfold visit. simpl. rewrite Hp. simpl.
  apply in_or_app. right. now left.
Qed.

Lemma purge_spec m k l :
  JS.get k m = Some l -> p l = true ->
  JS.get k (fst (purge p reason m)) = None /\
  In (ToRoom (room (showId l))
        (SeatLocksReleased [seatId l] (Some reason) None))
     (snd (purge p reason m)).
Proof.
  intros Hget Hp. apply get_In in Hget. split.
  - apply purge_gone. left. eauto.
  - now apply purge_tells with (k := k).
Qed.

Lemma purge_absent m k :
  JS.get k m = None -> JS.get k (fst (purge p reason m)) = None.
Proof. intros H. apply purge_gone. now right. Qed.

End Purge.

Section Expiry.
Import Registry.

(** C6 (amended).  A lock whose expiry has passed is still an entry of the
    table: whatever the clock reads, a request that names its seat is
    refused with that seat among the conflicts.  The sweep at [now]
    removes it and tells the room of its show that the seat is released
    with reason [expired]; from then on a request for that seat is
    granted. *)
Theorem expired_lock_blocks_until_swept :
  forall st now showId seat lock,
    lockedFor showId seat st = Some lock ->
    expiresAt lock < now ->
    (forall socket rq seatIds clk,
        admitted rq seatIds -> rq_showId rq = showId -> In seat seatIds ->
        let r := requestLock socket rq clk st in
        fst r = st /\ granted (snd r) = false /\
        exists message conflicts,
          snd r = [ToSocket socket (LockFailed message conflicts)] /\
          In seat conflicts)
    /\ lockedFor showId seat (fst (sweep now st)) = None
    /\ In (ToRoom (room (Registry.showId lock))
             (SeatLocksReleased [seatId lock] (Some "expired") None))
          (snd (sweep now st))
    /\ (forall socket rq clk,
           admitted rq [seat] -> rq_showId rq = showId ->
           granted (snd (requestLock socket rq clk (fst (sweep now st))))
           = true).
Proof.
  intros st now showId seat lock Hlock Hexp.
  assert (Hp : (expiresAt lock <? now) = true) by now apply Z.ltb_lt.
  destruct (purge_spec (fun l => expiresAt l <? now) "expired"
              (activeSeatLocks st) _ _ Hlock Hp) as [Hgone Htold].
  split; [|split; [|split]].
  - intros socket rq seatIds clk Ha Hshow Hin r. subst r.
    rewrite (requestLock_admitted socket rq seatIds clk st Ha).
    cbv zeta. rewrite Hshow.
    assert (Hc : In seat (conflictsOf showId seatIds (activeSeatLocks st)))
      by (apply conflictsOf_spec; eauto).
    destruct (conflictsOf showId seatIds (activeSeatLocks st))
      as [|c cs] eqn:E; [destruct Hc|].
    simpl. repeat split; eauto.
  - exact Hgone.
  - exact Htold.
  - intros socket rq clk Ha Hshow.
    apply (requestLock_granted_iff socket rq [seat] clk _ Ha).
    rewrite Hshow. apply conflictsOf_nil. intros s [<-|[]]. exact Hgone.
Qed.

(** C6, as stated, fails: one millisecond after Alice's lock on A1 has
    expired, with her timer not yet due and the last sweep having found
    nothing to remove, Bob's request for A1 is refused. *)
Lemma expired_lock_still_refuses :
  let st := Scenario.afterAlice in
  option_map expiresAt (lockedFor Scenario.theShow "A1" st) = Some 180000
  /\ sweep 179999 st = (st, [])
  /\ fireTimer 180001 st = (st, [])
  /\ requestLock "socketB" (Scenario.asks "bob" ["A1"])
       (Scenario.at_ 180001) st
     = (st, [ToSocket "socketB"
               (LockFailed "Seats A1 are already locked" ["A1"])]).
Proof. vm_compute. repeat split. Qed.

End Expiry.

Section Cap.
Import Registry.

(** C8 (amended).  The cap is on one request: a requestLock that names
    more than 8 seats changes nothing and grants nothing, and when its
    show and user are given it is answered with the error of its own,
    "Cannot lock more than 8 seats".  Likewise a booking request with
    more than 8 seats is refused by the schema and changes nothing. *)
Theorem more_than_eight_seats_refused :
  forall socket rq seatIds clk st,
    rq_seatIds rq = Some seatIds ->
    (8 < length seatIds)%nat ->
    let r := requestLock socket rq clk st in
    fst r = st /\ granted (snd r) = false
    /\ (JS.truthy (rq_showId rq) = true ->
        JS.truthy (rq_userId rq) = true ->
        snd r = [ToSocket socket (Error "Cannot lock more than 8 seats")])
    /\ (forall o env body db,
           (8 < length (Store.seats body))%nat ->
           exists field,
             Store.createBooking o env body db = (Store.Invalid field, db)).
Proof.
  intros socket rq seatIds clk st Hs Hlen r. subst r. unfold requestLock.
  rewrite Hs.
  replace (maxSeats <? length seatIds)%nat with true
    by (symmetry; apply Nat.ltb_lt; exact Hlen).
  destruct (JS.truthy (rq_showId rq)), (JS.truthy (rq_userId rq)); simpl;
    (split; [reflexivity | split; [reflexivity | split]]);
    try discriminate; try reflexivity.
  all: intros o env body db Hb;
    unfold Store.createBooking, Store.bookingTxn, Store.validate;
    destruct (negb (Store.validShowId (Store.showId body)));
    [eexists; reflexivity|];
    replace (length (Store.seats body) <=? 8)%nat with false
      by (symmetry; apply Nat.leb_gt; exact Hb);
    rewrite andb_false_r; simpl; eexists; reflexivity.
Qed.

(** C8, as stated, fails: two requests of five seats each are both
    granted, and Alice then holds ten seats. *)
Lemma holder_accumulates_ten_seats :
  let first := requestLock "socketA" (Scenario.asks "alice" Scenario.fiveA)
                 (Scenario.at_ 0) initial in
  let second := requestLock "socketA" (Scenario.asks "alice" Scenario.fiveB)
                  (Scenario.at_ 1000) (fst first) in
  granted (snd first) = true /\ granted (snd second) = true
  /\ System.heldBy "alice" (fst second) = 10%nat.
Proof. vm_compute. repeat split. Qed.

End Cap.

(** ** The booking transaction *)

Section BookingTxn.
Import Store.

Lemma findShow_incAvailable id d ss :
  find (fun s => String.eqb (s_id s) id) (incAvailable id d ss)
  = option_map (fun s => withAvailable (availableSeats s + d) s)
      (find (fun s => String.eqb (s_id s) id) ss).
Proof.
  induction ss as [|s ss IH]; simpl; [reflexivity|].
  destruct (String.eqb (s_id s) id) eqn:E; simpl; now rewrite E.
Qed.

(** The document of the commit is refused by its validation: it has no
    [bookingReference]. *)
Lemma bookingData_refused env show body :
  validated (bookingData env show body) = None.
Proof. reflexivity. Qed.

End BookingTxn.

Section Atomicity.
Import Store.

Local Ltac stopped :=
  intros [= <-]; split; [intro; discriminate | discriminate].

(** A transaction is only ever stopped with an error reply. *)
Lemma bookingTxn_inl o env body db r :
  bookingTxn o env body db = inl r ->
  (forall b, r <> Created b) /\ r <> NoReply.
Proof.
  unfold bookingTxn.
  destruct (validate body) as [field|]; [stopped|].
  unfold bind, query, update, guard, reject, ret, insertBooking.
  destruct (o FindShow) as [[]|]; [stopped..|].
  destruct (findShow (showId body) db) as [show|]; [|stopped].
  destruct (isActive show); [|stopped].
  destruct (negb (startTime show - now_window env <? 15 * (1000 * 60)));
    [|stopped].
  destruct (o AggregateBookings) as [[]|]; [stopped..|].
  destruct (negb _); [|stopped].
  destruct (o FindLocks) as [[]|]; [stopped..|].
  destruct (Nat.eqb _ (length (seatIdsOf body))); [|stopped].
  destruct (o SaveBooking) as [[]|]; [stopped..|].
  rewrite bookingData_refused. stopped.
Qed.

(** The transaction never reaches [commitTransaction]: when every check
    is passed, the first save throws the validation error. *)
Lemma bookingTxn_stops o env body db :
  exists r, bookingTxn o env body db = inl r.
Proof.
  unfold bookingTxn.
  destruct (validate body) as [field|]; [eexists; reflexivity|].
  unfold bind, query, update, guard, reject, ret, insertBooking.
  destruct (o FindShow); [eexists; reflexivity|].
  destruct (findShow (showId body) db) as [show|]; [|eexists; reflexivity].
  destruct (isActive show); [|eexists; reflexivity].
  destruct (negb (startTime show - now_window env <? 15 * (1000 * 60)));
    [|eexists; reflexivity].
  destruct (o AggregateBookings); [eexists; reflexivity|].
  destruct (negb _); [|eexists; reflexivity].
  destruct (o FindLocks); [eexists; reflexivity|].
  destruct (Nat.eqb _ (length (seatIdsOf body))); [|eexists; reflexivity].
  destruct (o SaveBooking); [eexists; reflexivity|].
  rewrite bookingData_refused. eexists; reflexivity.
Qed.

Lemma bookingTxn_not_inr o env body db b w :
  bookingTxn o env body db <> inr (b, w).
Proof.
  destruct (bookingTxn_stops o env body db) as [r ->]. discriminate.
Qed.

(** Every commit is answered with an error reply and leaves the store as
    it was. *)
Lemma createBooking_refused o env body db :
  snd (createBooking o env body db) = db
  /\ (forall b, fst (createBooking o env body db) <> Created b)
  /\ fst (createBooking o env body db) <> NoReply.
Proof.
  unfold createBooking.
  destruct (bookingTxn o env body db) as [r|[b w]] eqn:E.
  - apply bookingTxn_inl in E as [H1 H2]. simpl. auto.
  - now apply bookingTxn_not_inr in E.
Qed.

(** C2.  Every commit request either has the three effects together (a
    booking is stored, the show's [availableSeats] is lower by the number
    of seats, the caller's lock documents on those seats are gone) and is
    answered 201, or is answered with an error and leaves bookings, shows
    and lock documents exactly as they were.  Every request of the code as
    it stands is of the second kind: a request that passes every check is
    stopped by the validation of its first save, which answers 400. *)
Theorem commit_is_all_or_nothing :
  forall o env body db,
    let r := createBooking o env body db in
    (exists b, fst r = Created b /\ committed env body b db (snd r))
    \/ ((forall b, fst r <> Created b) /\ fst r <> NoReply
        /\ bookings (snd r) = bookings db
        /\ shows (snd r) = shows db
        /\ seatLocks (snd r) = seatLocks db).
Proof.
  intros o env body db r. right.
  destruct (createBooking_refused o env body db) as (H1 & H2 & H3).
  fold r in H1, H2, H3. rewrite H1. auto.
Qed.

End Atomicity.

(** ** The lock check of the commit *)

Section LockCheck.
Import Store.

Lemma NoDup_map_filter {A B} (f : A -> B) (p : A -> bool) l :
  NoDup (map f l) -> NoDup (map f (filter p l)).
Proof.
  induction l as [|a l IH]; simpl; [auto|].
  intros H. inversion H as [|x xs Hnotin Hnd]; subst.
  destruct (p a); simpl; [constructor|]; auto.
  intros Hin. apply Hnotin. apply in_map_iff in Hin as (y & Hy & Hin).
  apply filter_In in Hin as [Hin _]. apply in_map_iff. eauto.
Qed.

(** The documents the lock check counts for a holder. *)
Lemma userLocks_In user showId seatIds now db l :
  In l (userLocksOf user (activeLocks showId seatIds now db)) <->
  In l (seatLocks db) /\ sl_showId l = showId /\ In (sl_seatId l) seatIds
  /\ now <= sl_expiresAt l /\ lockedByUserId l = user.
Proof.
  unfold userLocksOf, activeLocks. rewrite !filter_In, !andb_true_iff.
  rewrite !String.eqb_eq, Z.leb_le, includes_In. tauto.
Qed.

(** Under the unique index, they are on distinct seats. *)
Lemma userLocks_distinct user showId seatIds now db :
  lockIndexUnique (seatLocks db) ->
  NoDup (map sl_seatId
           (userLocksOf user (activeLocks showId seatIds now db))).
Proof.
  unfold lockIndexUnique, userLocksOf. intros H.
  apply NoDup_map_filter. unfold activeLocks.
  induction (seatLocks db) as [|a ls IH]; simpl; [constructor|].
  inversion H as [|x xs Hnotin Hnd]; subst.
  destruct (String.eqb (sl_showId a) showId && _ && _) eqn:E;
    [|now apply IH].
  simpl. constructor; [|now apply IH].
  intros Hin. apply Hnotin. apply in_map_iff in Hin as (y & Hy & Hin).
  apply filter_In in Hin as [Hin Hp].
  apply andb_true_iff in Hp as [Hp _]. apply andb_true_iff in Hp as [Hp _].
  apply andb_true_iff in E as [E _]. apply andb_true_iff in E as [E _].
  apply String.eqb_eq in Hp, E. apply in_map_iff. exists y.
  split; [congruence | assumption].
Qed.

Lemma holdsLiveLock_true user showId seatIds now db seat :
  In seat seatIds ->
  holdsLiveLock user showId now db seat = true <->
  In seat (map sl_seatId
             (userLocksOf user (activeLocks showId seatIds now db))).
Proof.
  intros Hseat. unfold holdsLiveLock.
  rewrite existsb_exists, in_map_iff. split.
  - intros (l & Hin & H). exists l.
    rewrite !andb_true_iff, !String.eqb_eq, Z.leb_le in H.
    destruct H as [[[Hs Hseat'] Hu] Hn]. split; [assumption|].
    apply userLocks_In. subst seat. auto.
  - intros (l & Hl & Hin). apply userLocks_In in Hin.
    destruct Hin as (Hin & Hs & _ & Hn & Hu). exists l.
    split; [assumption|].
    rewrite !andb_true_iff, !String.eqb_eq, Z.leb_le. auto.
Qed.

Lemma userLocks_incl user showId seatIds now db :
  incl (map sl_seatId
          (userLocksOf user (activeLocks showId seatIds now db)))
    seatIds.
Proof.
  intros s Hin. apply in_map_iff in Hin as (l & <- & Hin).
  now apply userLocks_In in Hin.
Qed.

(** A seat without a live lock of the holder makes the counts differ. *)
Lemma unlocked_seat_miscounts user showId seatIds now db seat :
  lockIndexUnique (seatLocks db) ->
  In seat seatIds ->
  holdsLiveLock user showId now db seat = false ->
  length (userLocksOf user (activeLocks showId seatIds now db))
  <> length seatIds.
Proof.
  intros Hu Hin Hno Hlen.
  assert (Hback : incl seatIds
                    (map sl_seatId
                       (userLocksOf user
                          (activeLocks showId seatIds now db)))).
  { apply NoDup_length_incl.
    - now apply userLocks_distinct.
    - rewrite length_map, Hlen. apply Nat.le_refl.
    - apply userLocks_incl. }
  pose proof (Hback seat Hin) as Hheld.
  apply (holdsLiveLock_true user showId seatIds now db seat Hin) in Hheld.
  congruence.
Qed.

(** So does a seat that is listed twice. *)
Lemma repeated_seat_miscounts user showId seatIds now db :
  lockIndexUnique (seatLocks db) ->
  ~ NoDup seatIds ->
  length (userLocksOf user (activeLocks showId seatIds now db))
  <> length seatIds.
Proof.
  intros Hu Hdup Hlen. apply Hdup.
  apply NoDup_incl_NoDup
    with (l := map sl_seatId
                 (userLocksOf user (activeLocks showId seatIds now db))).
  - now apply userLocks_distinct.
  - rewrite length_map, Hlen. apply Nat.le_refl.
  - apply userLocks_incl.
Qed.

(** [missingLocks] lists the requested seats the holder has no live lock
    on. *)
Lemma missingLocksOf_spec user showId seatIds now db s :
  In s (missingLocksOf seatIds
          (userLocksOf user (activeLocks showId seatIds now db))) <->
  In s seatIds /\ holdsLiveLock user showId now db s = false.
Proof.
  unfold missingLocksOf. rewrite filter_In. split; intros [Hin H];
    (split; [assumption|]).
  - apply negb_true_iff in H.
    destruct (holdsLiveLock user showId now db s) eqn:E; [|reflexivity].
    apply (holdsLiveLock_true user showId seatIds now db s Hin) in E.
    apply in_map_iff in E as (l & Hl & Hinl).
    assert (existsb (fun l => String.eqb (sl_seatId l) s)
              (userLocksOf user (activeLocks showId seatIds now db))
            = true); [|congruence].
    apply existsb_exists. exists l. split; [assumption|].
    now apply String.eqb_eq.
  - apply negb_true_iff.
    destruct (existsb _ _) eqn:E; [|reflexivity].
    apply existsb_exists in E as (l & Hinl & Hl).
    apply String.eqb_eq in Hl.
    assert (holdsLiveLock user showId now db s = true); [|congruence].
    apply (holdsLiveLock_true user showId seatIds now db s Hin).
    apply in_map_iff. eauto.
Qed.

(** A commit whose lock count is off stops with an error reply. *)
Lemma miscount_refused o env body db :
  length (userLocksOf (userId env)
            (activeLocks (showId body) (seatIdsOf body) (now_locks env) db))
  <> length (seatIdsOf body) ->
  let r := createBooking o env body db in
  (forall b, fst r <> Created b) /\ fst r <> NoReply /\ snd r = db.
Proof.
  intros Hlen. unfold createBooking.
  destruct (bookingTxn o env body db) as [reply|[b w]] eqn:E.
  - apply bookingTxn_inl in E as [Hc Hn]. simpl. auto.
  - now apply bookingTxn_not_inr in E.
Qed.

Lemma filter_nil {A} (p : A -> bool) l :
  (forall x, In x l -> p x = false) -> filter p l = [].
Proof.
  induction l as [|a l IH]; simpl; [reflexivity|]. intros H.
  rewrite (H a) by now left. apply IH. intros x Hx. apply H. now right.
Qed.

(** ... and, once past the earlier checks, with the 409 of line 134. *)
Lemma miscount_at_lock_check o env body db :
  reachesLockCheck o env body db ->
  length (userLocksOf (userId env)
            (activeLocks (showId body) (seatIdsOf body) (now_locks env) db))
  <> length (seatIdsOf body) ->
  createBooking o env body db
  = (LocksMissing
       (missingLocksOf (seatIdsOf body)
          (userLocksOf (userId env)
             (activeLocks (showId body) (seatIdsOf body) (now_locks env)
                db))),
     db).
Proof.
  intros ((Hv & Ho1 & (show & Hshow & Hact & Hwin) & Ho2) & Hfree & Ho3)
    Hlen.
  unfold createBooking, bookingTxn. rewrite Hv.
  unfold bind, query, update, guard, reject, ret, insertBooking.
  rewrite Ho1, Hshow, Hact, Ho2, Ho3.
  replace (startTime show - now_window env <? 15 * (1000 * 60)) with false
    by (symmetry; apply Z.ltb_ge; exact Hwin).
  cbn [negb]. cbv beta iota. rewrite filter_nil.
  - cbn [length Nat.ltb Nat.leb negb]. cbv beta iota.
    apply Nat.eqb_neq in Hlen. now rewrite Hlen.
  - intros seat Hin.
    destruct (JS.includes seat (bookedSeatIds (showId body) db)) eqn:E;
      [|reflexivity].
    apply includes_In in E. now elim (Hfree seat Hin).
Qed.

End LockCheck.

Section CommitChecks.
Import Store.

(** C5 (amended).  With at most one lock document per seat of a show, a
    commit that names a seat on which the holder has no unexpired lock
    never succeeds and leaves the store as it was, so that no booking is
    created.  The four checks that come first answer in their own way; a
    request that gets past them is answered 409 with [missingLocks] being
    exactly the requested seats without an unexpired lock of the holder. *)
Theorem commit_without_lock_refused :
  forall o env body db seat,
    lockIndexUnique (seatLocks db) ->
    In seat (seatIdsOf body) ->
    holdsLiveLock (userId env) (showId body) (now_locks env) db seat
    = false ->
    let r := createBooking o env body db in
    (forall b, fst r <> Created b) /\ fst r <> NoReply /\ snd r = db
    /\ (reachesLockCheck o env body db ->
        exists missing,
          fst r = LocksMissing missing /\
          forall s,
            In s missing <->
            In s (seatIdsOf body) /\
            holdsLiveLock (userId env) (showId body) (now_locks env) db s
            = false).
Proof.
  intros o env body db seat Hu Hin Hno r.
  pose proof (unlocked_seat_miscounts _ _ _ _ _ _ Hu Hin Hno) as Hlen.
  destruct (miscount_refused o env body db Hlen) as (Hc & Hn & Hdb).
  repeat split; try assumption.
  intros Hreach. unfold r.
  rewrite (miscount_at_lock_check o env body db Hreach Hlen).
  eexists. split; [reflexivity|]. intros s. apply missingLocksOf_spec.
Qed.

(** C5, as stated, fails: Bob has no lock on A1, which Alice has booked;
    his commit is answered with the conflict of line 114, not with the
    missing locks. *)
Lemma unlocked_booked_seat_is_a_conflict :
  let db := Scenario.storeWith [Scenario.bookingOfA1 "alice"] [] in
  let env := Scenario.as_ "bob" "booking1" in
  holdsLiveLock "bob" Scenario.theShow 1000 db "A1" = false
  /\ createBooking noFault env (Scenario.posts [Scenario.seat "A" 1]) db
     = (SeatsTaken ["A1"], db).
Proof. vm_compute. split; reflexivity. Qed.

Lemma validate_seats_only id sp ss ss' :
  validate (mkBody id ss sp) = None ->
  forallb validSeat ss' = true ->
  (1 <= length ss' <= 8)%nat ->
  validate (mkBody id ss' sp) = None.
Proof.
  unfold validate. cbn [showId seats specialRequests].
  destruct (negb (validShowId id)); [discriminate|].
  destruct (negb (forallb validSeat ss && _ && _)); [discriminate|].
  intros Hsp Hall [Hlo Hhi]. rewrite Hall.
  apply Nat.leb_le in Hlo, Hhi. rewrite Hlo, Hhi. exact Hsp.
Qed.

Lemma validate_seats id sp ss :
  validate (mkBody id ss sp) = None -> forallb validSeat ss = true.
Proof.
  unfold validate. cbn [showId seats specialRequests].
  destruct (negb (validShowId id)); [discriminate|].
  destruct (forallb validSeat ss); [reflexivity | discriminate].
Qed.

(** C10 (amended).  The schema has no rule on repeated seats: a body that
    is accepted is still accepted with one of its seats listed once more,
    up to 8 seats.  With at most one lock document per seat of a show, a
    commit whose seat ids repeat never succeeds and leaves the store as it
    was; once past the earlier checks it is answered 409 with
    [missingLocks] being the requested seats without an unexpired lock of
    the holder, whether or not they are the repeated ones. *)
Theorem repeated_seats_fail_the_lock_count :
  forall o env body db,
    ~ NoDup (seatIdsOf body) ->
    lockIndexUnique (seatLocks db) ->
    let r := createBooking o env body db in
    (forall b, fst r <> Created b) /\ fst r <> NoReply /\ snd r = db
    /\ (reachesLockCheck o env body db ->
        exists missing,
          fst r = LocksMissing missing /\
          forall s,
            In s missing <->
            In s (seatIdsOf body) /\
            holdsLiveLock (userId env) (showId body) (now_locks env) db s
            = false)
    /\ (forall s,
           validate body = None -> In s (seats body) ->
           (length (seats body) < 8)%nat ->
           validate (mkBody (showId body) (s :: seats body)
                       (specialRequests body)) = None).
Proof.
  intros o env body db Hdup Hu r.
  pose proof (repeated_seat_miscounts (userId env) (showId body) _
                (now_locks env) db Hu Hdup) as Hlen.
  destruct (miscount_refused o env body db Hlen) as (Hc & Hn & Hdb).
  repeat split; try assumption.
  - intros Hreach. unfold r.
    rewrite (miscount_at_lock_check o env body db Hreach Hlen).
    eexists. split; [reflexivity|]. intros s. apply missingLocksOf_spec.
  - intros s Hv Hin Hlt. destruct body as [id ss sp]. simpl in *.
    apply validate_seats_only with (ss := ss); [assumption| |simpl; lia].
    simpl. apply validate_seats in Hv. rewrite Hv, andb_true_r.
    rewrite forallb_forall in Hv. now apply Hv.
Qed.

(** C10, as stated, fails: Alice, who holds a lock on A1, asks for A1
    twice.  The schema accepts the body, and the reply is the 409 of the
    lock check with an empty [missingLocks]: no validation error, and the
    repeated seat is not named. *)
Lemma repeated_seat_not_named :
  let db := Scenario.storeWith [] [Scenario.lockDoc "alice" "A1"] in
  let body := Scenario.posts [Scenario.seat "A" 1; Scenario.seat "A" 1] in
  seatIdsOf body = ["A1"; "A1"]
  /\ validate body = None
  /\ createBooking noFault (Scenario.as_ "alice" "booking1") body db
     = (LocksMissing [], db).
Proof. vm_compute. repeat split. Qed.

End CommitChecks.

(** ** The seat counter *)

Section Counter.
Import Store.

Lemma confirmedSeats_app id bs b :
  confirmedSeats id (bs ++ [b])
  = confirmedSeats id bs
    + (if String.eqb (b_showId b) id && status_eqb (status b) confirmed
       then Z.of_nat (length (b_seats b)) else 0).
Proof.
  induction bs as [|x bs IH]; simpl.
  - destruct (String.eqb (b_showId b) id && _); lia.
  - rewrite IH.
    destruct (String.eqb (b_showId x) id && _); lia.
Qed.

Lemma confirmedSeats_cancel id now bs b sid :
  find (fun b => String.eqb (b_id b) id) bs = Some b ->
  status b = confirmed ->
  confirmedSeats sid (replaceBooking (cancelledAs now b) bs)
  = confirmedSeats sid bs
    - (if String.eqb (b_showId b) sid
       then Z.of_nat (length (b_seats b)) else 0).
Proof.
  intros Hfind Hst. induction bs as [|x bs IH]; simpl in *; [discriminate|].
  destruct (String.eqb (b_id x) id) eqn:E.
  - injection Hfind as ->. apply String.eqb_eq in E.
    rewrite String.eqb_refl. simpl. rewrite Hst. simpl.
    rewrite andb_false_r, andb_true_r.
    destruct (String.eqb (b_showId b) sid); lia.
  - assert (Hid : b_id b = id).
    { apply find_some in Hfind as [_ H]. now apply String.eqb_eq in H. }
    rewrite Hid, E. simpl. rewrite (IH Hfind).
    destruct (String.eqb (b_showId x) sid && _); lia.
Qed.

Lemma replaceBooking_In b' bs x :
  In x (replaceBooking b' bs) -> x = b' \/ In x bs.
Proof.
  induction bs as [|y bs IH]; simpl; [tauto|].
  destruct (String.eqb (b_id y) (b_id b')); simpl; intuition.
Qed.

Lemma incAvailable_ids id d ss :
  map s_id (incAvailable id d ss) = map s_id ss.
Proof.
  induction ss as [|s ss IH]; simpl; [reflexivity|].
  destruct (String.eqb (s_id s) id); simpl; [reflexivity|].
  now rewrite IH.
Qed.

(** With unique ids, the increment touches every show of that id. *)
Lemma incAvailable_In id d ss s' :
  NoDup (map s_id ss) ->
  In s' (incAvailable id d ss) ->
  exists s,
    In s ss /\
    s' = if String.eqb (s_id s) id
         then withAvailable (availableSeats s + d) s else s.
Proof.
  induction ss as [|s ss IH]; simpl; [tauto|].
  intros Hnd Hin. inversion Hnd as [|x xs Hnotin Hnd']; subst.
  destruct (String.eqb (s_id s) id) eqn:E.
  - destruct Hin as [<-|Hin].
    + exists s. rewrite E. auto.
    + exists s'. split; [now right|].
      destruct (String.eqb_spec (s_id s') id) as [Hid|]; [|reflexivity].
      exfalso. apply Hnotin. apply String.eqb_eq in E.
      apply in_map_iff. exists s'. split; [congruence | assumption].
  - destruct Hin as [<-|Hin].
    + exists s. rewrite E. auto.
    + destruct (IH Hnd' Hin) as (s0 & Hs0 & ->). exists s0. auto.
Qed.

Lemma incAvailable_keeps id d ss s :
  In s ss -> exists s', In s' (incAvailable id d ss) /\ s_id s' = s_id s.
Proof.
  induction ss as [|x ss IH]; simpl; [tauto|].
  intros [->|Hin].
  - destruct (String.eqb (s_id s) id).
    + eexists. split; [now left | reflexivity].
    + exists s. split; [now left | reflexivity].
  - destruct (String.eqb (s_id x) id).
    + exists s. split; [now right | reflexivity].
    + destruct (IH Hin) as (s' & Hs' & Hid). exists s'. split; auto.
      now right.
Qed.

(** The counter moves with the confirmed seats. *)
Lemma counted_shift db id d bs' :
  NoDup (map s_id (shows db)) ->
  counted db ->
  (forall sid,
      confirmedSeats sid bs'
      = confirmedSeats sid (bookings db)
        - (if String.eqb sid id then d else 0)) ->
  counted (mkDB bs' (incAvailable id d (shows db)) (seatLocks db)).
Proof.
  intros Hnd Hc Hbs s' Hin. simpl in *.
  apply incAvailable_In in Hin as (s & Hs & ->); [|assumption].
  specialize (Hc s Hs). rewrite (Hbs (s_id _)).
  destruct (String.eqb (s_id s) id) eqn:E; simpl; rewrite E; lia.
Qed.

Lemma keyed_shift db id d bs' ls' :
  NoDup (map s_id (shows db)) ->
  (forall b, In b bs' ->
             exists s, In s (shows db) /\ s_id s = b_showId b) ->
  keyed (mkDB bs' (incAvailable id d (shows db)) ls').
Proof.
  intros Hnd Hbs. split; simpl.
  - now rewrite incAvailable_ids.
  - intros b Hb. destruct (Hbs b Hb) as (s & Hs & Hsid).
    destruct (incAvailable_keeps id d _ _ Hs) as (s' & Hs' & Hid').
    exists s'. split; [assumption | congruence].
Qed.

End Counter.

Section Routes.
Import Store.

Local Abbreviation fresh_show db show :=
  (setShows (fun ss => ss ++ [show]) db).

(** A show enters the store with its counter at its capacity. *)
Lemma createShow_effect o env v db :
  snd (createShow o env v db) = db
  \/ exists show,
      snd (createShow o env v db) = fresh_show db show
      /\ canInsertShow show db = true
      /\ availableSeats show = totalSeats show.
Proof.
  unfold createShow.
  destruct (negb (validShow (sh_now env) v)); [now left|].
  destruct (o FindScreen); [now left|].
  destruct (sh_screen env) as [screen|]; [|now left].
  destruct (negb (String.eqb (sc_theaterId screen) (sh_userTheater env)));
    [now left|].
  destruct (o FindMovie); [now left|].
  destruct (sh_movie env) as [movie|]; [|now left].
  destruct (negb (mv_isActive movie)); [now left|].
  destruct (o FindConflict); [now left|].
  destruct (existsb _ (shows db)); [now left|].
  destruct (o CreateShow); [now left|].
  match goal with |- context [canInsertShow ?s db] =>
    destruct (canInsertShow s db) eqn:E; [right; exists s | now left]
  end.
  auto.
Qed.

(** The admin route stores no show: its document has no prices. *)
Lemma adminCreateShow_refused o newId v db :
  snd (adminCreateShow o newId v db) = db
  /\ forall show, fst (adminCreateShow o newId v db) <> ShowCreated show.
Proof.
  unfold adminCreateShow.
  destruct (negb (JS.truthy (a_theaterId v)));
    [split; [reflexivity | discriminate]|].
  destruct (negb (JS.truthy (a_movieId v) && JS.truthy (a_screen v)));
    [split; [reflexivity | discriminate]|].
  destruct (o CreateShow); split; (reflexivity || discriminate).
Qed.

Lemma canInsertShow_fresh show db :
  canInsertShow show db = true -> ~ In (s_id show) (map s_id (shows db)).
Proof.
  unfold canInsertShow. intros H Hin. apply negb_true_iff in H.
  apply in_map_iff in Hin as (s & Hid & Hin).
  assert (existsb
            (fun s' => String.eqb (s_id s') (s_id show)
                       || (String.eqb (screenId s') (screenId show)
                           && (startTime s' =? startTime show)))
            (shows db) = true); [|congruence].
  apply existsb_exists. exists s. split; [assumption|].
  rewrite Hid, String.eqb_refl. reflexivity.
Qed.

Lemma confirmedSeats_none id bs :
  (forall b, In b bs -> b_showId b <> id) -> confirmedSeats id bs = 0.
Proof.
  induction bs as [|b bs IH]; simpl; [reflexivity|]. intros H.
  destruct (String.eqb_spec (b_showId b) id) as [Hid|_].
  - now elim (H b (or_introl eq_refl)).
  - simpl. apply IH. intros x Hx. apply H. now right.
Qed.

Lemma fresh_show_kept db show :
  canInsertShow show db = true ->
  availableSeats show = totalSeats show ->
  keyed db -> counted db ->
  keyed (fresh_show db show) /\ counted (fresh_show db show).
Proof.
  intros Hins Hfull [Hnd Href] Hc.
  apply canInsertShow_fresh in Hins. split; [split|]; simpl.
  - rewrite map_app. simpl. apply NoDup_app.
    + exact Hnd.
    + constructor; [intros [] | constructor].
    + intros a Ha [<-|[]]. now apply Hins.
  - intros b Hb. destruct (Href b Hb) as (s & Hs & Hid).
    exists s. split; [apply in_or_app; now left | assumption].
  - intros s Hin. apply in_app_or in Hin as [Hin|[<-|[]]].
    + now apply Hc.
    + rewrite confirmedSeats_none; [lia|].
      intros b Hb Hid. destruct (Href b Hb) as (s & Hs & Hsid).
      apply Hins. apply in_map_iff. exists s. split; congruence.
Qed.

End Routes.

Section CounterInvariant.
Import Store.

(** What a cancellation that reaches [commitTransaction] has done. *)
Lemma cancelTxn_inr o env id db b' w :
  cancelTxn o env id db = inr (b', w) ->
  exists b show,
    findBooking id db = Some b /\ status b = confirmed
    /\ findShow (b_showId b) db = Some show
    /\ b' = cancelledAs (c_now_saved env) b
    /\ w = mkDB (replaceBooking b' (bookings db))
             (incAvailable (s_id show) (Z.of_nat (length (b_seats b)))
                (shows db))
             (seatLocks db).
Proof.
  unfold cancelTxn, bind, query, update, guard, reject, ret.
  destruct (o FindBooking); [discriminate|].
  destruct (findBooking id db) as [b|] eqn:Hb; [|discriminate].
  destruct (String.eqb (b_userId b) (c_userId env)); [|discriminate].
  destruct (status b) eqn:Hst; try discriminate. simpl.
  destruct (findShow (b_showId b) db) as [show|] eqn:Hs; [|discriminate].
  destruct (negb (startTime show - c_now_window env <? _)); [|discriminate].
  destruct (o SaveBooking); [discriminate|].
  destruct (o IncShow); [discriminate|].
  intros [= <- <-]. exists b, show. repeat split; assumption.
Qed.

Lemma keyed_counted_cancelBooking o env id db :
  keyed db -> counted db ->
  keyed (snd (cancelBooking o env id db))
  /\ counted (snd (cancelBooking o env id db)).
Proof.
  intros Hk Hc. unfold cancelBooking.
  destruct (cancelTxn o env id db) as [r|[b' w]] eqn:E; [now split|].
  destruct (o CommitTransaction); [now split|]. simpl.
  apply cancelTxn_inr in E as (b & show & Hb & Hst & Hs & -> & ->).
  unfold findShow in Hs. apply find_some in Hs as [Hin Hid].
  apply String.eqb_eq in Hid. destruct Hk as [Hnd Href]. split.
  - apply keyed_shift; [assumption|].
    intros x Hx. apply replaceBooking_In in Hx as [->|Hx]; [|eauto].
    exists show. split; [assumption | exact Hid].
  - apply (counted_shift db); [assumption..|].
    intros sid. unfold findBooking in Hb.
    rewrite (confirmedSeats_cancel id _ _ b sid Hb Hst).
    rewrite Hid, (String.eqb_sym sid), <- Hid.
    destruct (String.eqb (b_showId b) sid); lia.
Qed.

Lemma keyed_counted_apply db st :
  keyed db -> counted db ->
  keyed (apply db st) /\ counted (apply db st).
Proof.
  intros Hk Hc. destruct st as [[o env v|o newId v|o env body|o env id]|ls];
    simpl.
  - destruct (createShow_effect o env v db) as [->|(s & -> & Hi & Hf)];
      [now split | now apply fresh_show_kept].
  - destruct (adminCreateShow_refused o newId v db) as [-> _]. now split.
  - destruct (createBooking_refused o env body db) as [-> _]. now split.
  - now apply keyed_counted_cancelBooking.
  - split; [exact Hk | exact Hc].
Qed.

Lemma incAvailable_stocked id d ss :
  0 <= d ->
  (forall s, In s ss -> 0 <= availableSeats s) ->
  forall s, In s (incAvailable id d ss) -> 0 <= availableSeats s.
Proof.
  intros Hd. induction ss as [|x ss IH]; simpl; intros H s Hin;
    [destruct Hin|].
  destruct (String.eqb (s_id x) id).
  - destruct Hin as [<-|Hin]; [|apply H; now right].
    simpl. specialize (H x (or_introl eq_refl)). lia.
  - destruct Hin as [<-|Hin]; [apply H; now left|].
    apply IH; [|exact Hin]. intros y Hy. apply H. now right.
Qed.

Lemma stocked_apply db st :
  (forall o env v screen,
      st = Route (PostShow o env v) -> sh_screen env = Some screen ->
      0 <= sc_totalSeats screen) ->
  stocked db -> stocked (apply db st).
Proof.
  intros Hst Hs. destruct st as [[o env v|o newId v|o env body|o env id]|ls];
    simpl.
  - specialize (Hst o env v). revert Hst. unfold createShow.
    destruct (negb (validShow (sh_now env) v)); [auto|].
    destruct (o FindScreen); [auto|].
    destruct (sh_screen env) as [screen|]; [|auto].
    destruct (negb (String.eqb (sc_theaterId screen) (sh_userTheater env)));
      [auto|].
    destruct (o FindMovie); [auto|].
    destruct (sh_movie env) as [movie|]; [|auto].
    destruct (negb (mv_isActive movie)); [auto|].
    destruct (o FindConflict); [auto|].
    destruct (existsb _ (shows db)); [auto|].
    destruct (o CreateShow); [auto|].
    destruct (canInsertShow _ db); [|auto].
    intros Hst s Hin. simpl in Hin.
    apply in_app_or in Hin as [Hin|[<-|[]]]; [now apply Hs|].
    simpl. now apply (Hst screen).
  - destruct (adminCreateShow_refused o newId v db) as [-> _]. exact Hs.
  - destruct (createBooking_refused o env body db) as [-> _]. exact Hs.
  - unfold cancelBooking.
    destruct (cancelTxn o env id db) as [r|[b' w]] eqn:E; [exact Hs|].
    destruct (o CommitTransaction); [exact Hs|]. simpl.
    apply cancelTxn_inr in E as (b & show & _ & _ & _ & _ & ->).
    intros s Hin. simpl in Hin.
    apply (incAvailable_stocked _ _ _ (Nat2Z.is_nonneg _) Hs s Hin).
  - exact Hs.
Qed.

(** C9.  Starting from a store in which it holds (the empty store, say),
    after any history of show creations, commits and cancellations, with
    the lock documents changing in between as they may, every show has
    [availableSeats] equal to [totalSeats] less the number of seats of its
    confirmed bookings, and [availableSeats] is not negative.  The screens
    on which shows are created have a seat count that is not negative. *)
Theorem availableSeats_counts_confirmed_seats :
  forall steps db,
    keyed db -> counted db -> stocked db -> seated steps ->
    forall s,
      In s (shows (run steps db)) ->
      availableSeats s
      = totalSeats s - confirmedSeats (s_id s) (bookings (run steps db))
      /\ 0 <= availableSeats s.
Proof.
  unfold run. induction steps as [|st steps IH];
    intros db Hk Hc Hs Hst; simpl.
  - intros s Hin. split; [now apply Hc | now apply Hs].
  - destruct (keyed_counted_apply db st Hk Hc) as [Hk' Hc'].
    apply IH; auto.
    + apply stocked_apply; [|exact Hs].
      intros o env v screen -> Hscreen.
      apply (Hst o env v screen); [now left | exact Hscreen].
    + intros o env v screen Hin. apply (Hst o env v screen). now right.
Qed.

End CounterInvariant.

(** ** The registry next to the store *)

Section TwoStores.
Import Registry Store System.

(** No route inserts a lock document. *)
Lemma handle_inserts_no_lock db rq l :
  In l (seatLocks (handle db rq)) -> In l (seatLocks db).
Proof.
  destruct rq as [o env v|o newId v|o env body|o env id]; simpl.
  - now destruct (createShow_effect o env v db) as [->|(s & -> & _)].
  - now destruct (adminCreateShow_refused o newId v db) as [-> _].
  - now destruct (createBooking_refused o env body db) as [-> _].
  - unfold cancelBooking.
    destruct (cancelTxn o env id db) as [r|[b' w]] eqn:E; [auto|].
    destruct (o CommitTransaction); [auto|]. simpl.
    now apply cancelTxn_inr in E as (b & show & _ & _ & _ & _ & ->).
Qed.

(** Nor does any socket event: the lock collection of the store stays
    empty through every event of the server. *)
Lemma lock_collection_stays_empty events :
  forall w,
    seatLocks (store w) = [] ->
    seatLocks (store (System.run events w)) = [].
Proof.
  unfold System.run.
  induction events as [|e events IH]; intros w Hw; simpl; [exact Hw|].
  apply IH. destruct e; simpl; try exact Hw.
  destruct (seatLocks (handle (store w) rq)) as [|l ls] eqn:E;
    [reflexivity|].
  assert (Hin : In l (seatLocks (store w))).
  { apply (handle_inserts_no_lock _ rq). rewrite E. now left. }
  rewrite Hw in Hin. destruct Hin.
Qed.

(** Without lock documents no commit succeeds. *)
Lemma no_lock_documents_no_booking o env body db :
  seatLocks db = [] ->
  let r := createBooking o env body db in
  (forall b, fst r <> Created b) /\ fst r <> NoReply /\ snd r = db.
Proof.
  intros _. destruct (createBooking_refused o env body db) as (H1 & H2 & H3).
  auto.
Qed.

End TwoStores.

Section RegistryAndCommit.
Import Registry Store System.

Lemma missingLocksOf_nil seatIds : missingLocksOf seatIds [] = seatIds.
Proof.
  unfold missingLocksOf. induction seatIds as [|s ss IH]; simpl in *;
    [reflexivity | now rewrite IH].
Qed.

(** C3.  The claim does not hold of the code.  requestLock writes the
    [activeSeatLocks] Map and nothing else; the commit reads the SeatLock
    collection, into which no event of the server inserts.  So in a server
    that started with an empty collection, after any events, a holder who
    has just been granted locks on some seats and commits exactly those
    seats is not seen to hold any: no booking is made, the store is left
    as it was, and a request that gets to the lock check is answered 409
    with every one of its seats under [missingLocks]. *)
Theorem socket_lock_unseen_by_commit :
  forall events w0 socket rq seatIds clk o env body,
    seatLocks (store w0) = [] ->
    admitted rq seatIds ->
    Store.userId env = rq_userId rq ->
    Store.showId body = rq_showId rq ->
    seatIdsOf body = seatIds ->
    let w := System.run events w0 in
    let locked := step w (RequestLock socket rq clk) in
    granted (snd locked) = true ->
    (forall seat,
        In seat seatIds ->
        option_map Registry.userId
          (lockedFor (rq_showId rq) seat (registry (fst locked)))
        = Some (rq_userId rq))
    /\ seatLocks (store (fst locked)) = []
    /\ let r := createBooking o env body (store (fst locked)) in
       (forall b, fst r <> Created b) /\ fst r <> NoReply
       /\ snd r = store (fst locked)
       /\ (reachesLockCheck o env body (store (fst locked)) ->
           fst r = LocksMissing seatIds).
Proof.
  intros events w0 socket rq seatIds clk o env body Hempty Ha Hu Hs Hseats
    w locked Hg.
  assert (Hw : seatLocks (store w) = [])
    by now apply lock_collection_stays_empty.
  assert (Hc : conflictsOf (rq_showId rq) seatIds
                 (activeSeatLocks (registry w)) = [])
    by (apply (requestLock_granted_iff socket rq seatIds clk _ Ha);
        exact Hg).
  split; [|split].
  - intros seat Hin. simpl.
    now rewrite (requestLock_granted_entries socket rq seatIds clk
                   (registry w) seat Ha Hc Hin).
  - exact Hw.
  - simpl store.
    destruct (no_lock_documents_no_booking o env body (store w) Hw)
      as (Hnc & Hnn & Hdb).
    cbv zeta. repeat split; try assumption.
    intros Hreach.
    rewrite (miscount_at_lock_check o env body (store w) Hreach).
    + unfold activeLocks. rewrite Hw. simpl.
      now rewrite missingLocksOf_nil, Hseats.
    + unfold activeLocks. rewrite Hw. simpl. intros Hlen.
      destruct Hreach as ((Hv & _) & _). unfold seatIdsOf in Hlen.
      rewrite length_map in Hlen. unfold validate in Hv.
      destruct (negb (validShowId (Store.showId body))); [discriminate|].
      destruct (seats body); [|discriminate Hlen].
      simpl in Hv. discriminate.
Qed.

(** A commit that names a booked seat stops at the conflict check. *)
Lemma booked_seat_refused o env body db seat :
  In seat (seatIdsOf body) ->
  In seat (bookedSeatIds (Store.showId body) db) ->
  let r := createBooking o env body db in
  (forall b, fst r <> Created b) /\ fst r <> NoReply /\ snd r = db
  /\ (reachesConflictCheck o env body db ->
      exists conflicts, fst r = SeatsTaken conflicts /\ In seat conflicts).
Proof.
  intros Hin Hbooked.
  assert (Hc : In seat
                 (filter (fun id => JS.includes id
                                      (bookedSeatIds (Store.showId body) db))
                    (seatIdsOf body))).
  { apply filter_In. split; [assumption | now apply includes_In]. }
  unfold createBooking.
  destruct (bookingTxn o env body db) as [r|[b w]] eqn:E.
  - pose proof (bookingTxn_inl _ _ _ _ _ E) as [Hnc Hnn].
    simpl. repeat split; try assumption.
    intros (Hv & Ho1 & (show & Hshow & Hact & Hwin) & Ho2).
    unfold bookingTxn in E. rewrite Hv in E.
    unfold bind, query, update, guard, reject, ret, insertBooking in E.
    rewrite Ho1, Hshow, Hact, Ho2 in E.
    replace (startTime show - now_window env <? 15 * (1000 * 60))
      with false in E by (symmetry; apply Z.ltb_ge; exact Hwin).
    cbn [negb] in E. cbv beta iota in E.
    destruct (filter _ (seatIdsOf body)) as [|c cs] eqn:Ef; [destruct Hc|].
    cbn [length Nat.ltb Nat.leb negb] in E. cbv beta iota in E.
    injection E as <-. eauto.
  - now apply bookingTxn_not_inr in E.
Qed.

(** C4 (amended).  requestLock looks at the lock table only: a request
    that reaches the table and finds no entry for its seats is granted,
    whatever bookings the store holds, and the store is not touched.  A
    booked seat is refused when it is committed: a commit that names a
    seat of a confirmed or pending booking of the show never succeeds and
    changes nothing, and once past the schema, the show and the time
    window it is answered 409 with that seat among the conflicts. *)
Theorem requestLock_ignores_bookings :
  forall w socket rq seatIds clk,
    admitted rq seatIds ->
    conflictsOf (rq_showId rq) seatIds (activeSeatLocks (registry w)) = [] ->
    let locked := step w (RequestLock socket rq clk) in
    granted (snd locked) = true
    /\ store (fst locked) = store w
    /\ forall o env body seat,
        In seat (seatIdsOf body) ->
        In seat (bookedSeatIds (Store.showId body) (store w)) ->
        let r := createBooking o env body (store w) in
        (forall b, fst r <> Created b) /\ fst r <> NoReply
        /\ snd r = store w
        /\ (reachesConflictCheck o env body (store w) ->
            exists conflicts,
              fst r = SeatsTaken conflicts /\ In seat conflicts).
Proof.
  intros w socket rq seatIds clk Ha Hc locked. split; [|split].
  - apply (requestLock_granted_iff socket rq seatIds clk _ Ha). exact Hc.
  - reflexivity.
  - intros o env body seat Hin Hbooked. now apply booked_seat_refused.
Qed.

(** C4, as stated, fails: A1 belongs to Bob's confirmed booking and no
    lock is held on it; Alice's request for A1 is granted. *)
Lemma booked_seat_is_granted :
  let w := mkWorld initial
             (Scenario.storeWith [Scenario.bookingOfA1 "bob"] []) in
  let locked := step w (RequestLock "socketA"
                          (Scenario.asks "alice" ["A1"]) (Scenario.at_ 0)) in
  bookedSeatIds Scenario.theShow (store w) = ["A1"]
  /\ granted (snd locked) = true
  /\ option_map Registry.userId
       (lockedFor Scenario.theShow "A1" (registry (fst locked)))
     = Some "alice".
Proof. vm_compute. repeat split. Qed.

End RegistryAndCommit.

(** ** The theorems at concrete requests *)

Section Witnesses.
Import Registry.


Lemma expired_lock_blocks_until_swept_witness :
  lockedFor Scenario.theShow "A1" Scenario.afterAlice
  = Some Scenario.aliceLock
  /\ expiresAt Scenario.aliceLock < 180001
  /\ lockedFor Scenario.theShow "A1"
       (fst (sweep 180001 Scenario.afterAlice)) = None.
Proof.
  assert (H1 : lockedFor Scenario.theShow "A1" Scenario.afterAlice
               = Some Scenario.aliceLock) by reflexivity.
  assert (H2 : expiresAt Scenario.aliceLock < 180001) by (simpl; lia).
  split; [exact H1 | split; [exact H2|]].
  apply (expired_lock_blocks_until_swept Scenario.afterAlice 180001
           Scenario.theShow "A1" Scenario.aliceLock H1 H2).
Defined.

(** Alice holds A1 and Bob B1; a release of both seats under Alice's lock
    id removes her entry and leaves his. *)
Lemma releaseLock_by_lock_id_witness :
  let alice := Scenario.asks "alice" ["A1"] in
  let bob := Scenario.asks "bob" ["B1"] in
  let st := requests [("socketA", alice, Scenario.at_ 0);
                      ("socketB", bob, Scenario.at_ 1)] initial in
  let rl := mkReleaseRequest Scenario.theShow ["A1"; "B1"]
              (Some (lockIdFor alice (Scenario.at_ 0))) None in
  option_map userId (lockedFor Scenario.theShow "A1" st) = Some "alice"
  /\ option_map userId (lockedFor Scenario.theShow "B1" st) = Some "bob"
  /\ lockedFor Scenario.theShow "A1" (fst (releaseLock rl st)) = None
  /\ (forall l,
         lockedFor Scenario.theShow "B1" (fst (releaseLock rl st)) = Some l ->
         lockedFor Scenario.theShow "B1" st = Some l
         /\ rl_lockId rl <> Some (lockId l))
  /\ releaseLock rl (fst (releaseLock rl st)) = (fst (releaseLock rl st), []).
Proof.
  intros alice bob st rl.
  destruct (releaseLock_by_lock_id rl st) as (_ & Hstay & _ & Hagain & _).
  split; [reflexivity | split; [reflexivity | split; [reflexivity|]]].
  split; [|exact Hagain].
  intros l Hl.
  destruct (Hstay "B1" l (or_intror (or_introl eq_refl)) Hl)
    as (H1 & _ & H2).
  split; assumption.
Defined.

Lemma more_than_eight_seats_refused_witness :
  rq_seatIds (Scenario.asks "alice" Scenario.nine) = Some Scenario.nine
  /\ (8 < length Scenario.nine)%nat
  /\ fst (requestLock "socketA" (Scenario.asks "alice" Scenario.nine)
            (Scenario.at_ 0) initial) = initial.
Proof.
  assert (H1 : rq_seatIds (Scenario.asks "alice" Scenario.nine)
               = Some Scenario.nine) by reflexivity.
  assert (H2 : (8 < length Scenario.nine)%nat) by (simpl; lia).
  split; [exact H1 | split; [exact H2|]].
  apply (more_than_eight_seats_refused "socketA"
           (Scenario.asks "alice" Scenario.nine) Scenario.nine
           (Scenario.at_ 0) initial H1 H2).
Defined.

End Witnesses.

Section StoreWitnesses.
Import Store.

Lemma commit_without_lock_refused_witness :
  lockIndexUnique (seatLocks (Scenario.storeWith [] []))
  /\ In "A1" (seatIdsOf (Scenario.posts [Scenario.seat "A" 1]))
  /\ holdsLiveLock "bob" Scenario.theShow 1000 (Scenario.storeWith [] [])
       "A1" = false
  /\ snd (createBooking noFault (Scenario.as_ "bob" "booking1")
            (Scenario.posts [Scenario.seat "A" 1])
            (Scenario.storeWith [] []))
     = Scenario.storeWith [] [].
Proof.
  assert (H1 : lockIndexUnique (seatLocks (Scenario.storeWith [] [])))
    by constructor.
  assert (H2 : In "A1" (seatIdsOf (Scenario.posts [Scenario.seat "A" 1])))
    by (left; reflexivity).
  assert (H3 : holdsLiveLock "bob" Scenario.theShow 1000
                 (Scenario.storeWith [] []) "A1" = false) by reflexivity.
  split; [exact H1 | split; [exact H2 | split; [exact H3|]]].
  apply (commit_without_lock_refused noFault
           (Scenario.as_ "bob" "booking1")
           (Scenario.posts [Scenario.seat "A" 1])
           (Scenario.storeWith [] []) "A1" H1 H2 H3).
Defined.

Lemma repeated_seats_fail_the_lock_count_witness :
  ~ NoDup (seatIdsOf (Scenario.posts [Scenario.seat "A" 1;
                                       Scenario.seat "A" 1]))
  /\ lockIndexUnique
       (seatLocks (Scenario.storeWith [] [Scenario.lockDoc "alice" "A1"]))
  /\ snd (createBooking noFault (Scenario.as_ "alice" "booking1")
            (Scenario.posts [Scenario.seat "A" 1; Scenario.seat "A" 1])
            (Scenario.storeWith [] [Scenario.lockDoc "alice" "A1"]))
     = Scenario.storeWith [] [Scenario.lockDoc "alice" "A1"].
Proof.
  assert (H1 : ~ NoDup (seatIdsOf (Scenario.posts [Scenario.seat "A" 1;
                                                    Scenario.seat "A" 1]))).
  { intros H. inversion H as [|x xs Hnotin _]. apply Hnotin. now left. }
  assert (H2 : lockIndexUnique
                 (seatLocks (Scenario.storeWith []
                               [Scenario.lockDoc "alice" "A1"]))).
  { constructor; [intros [] | constructor]. }
  split; [exact H1 | split; [exact H2|]].
  apply (repeated_seats_fail_the_lock_count noFault
           (Scenario.as_ "alice" "booking1")
           (Scenario.posts [Scenario.seat "A" 1; Scenario.seat "A" 1])
           (Scenario.storeWith [] [Scenario.lockDoc "alice" "A1"]) H1 H2).
Defined.

Lemma availableSeats_counts_confirmed_seats_witness :
  let db := mkDB [Scenario.bookingOfA1 "bob"]
              [withAvailable 99 Scenario.theShowDoc] [] in
  let steps :=
    [Route (PutCancel noFault (mkCancelEnv "bob" 2000 2000 2001)
              "booking0");
     Route (PostShow noFault
              (mkShowEnv 0 "theater" (Some (mkScreen "theater" 120))
                 (Some (mkMovie true 120)) "64b7f0c2a1d3e4f5a6b7c8da")
              (mkShowValue "movie" "screen2" Scenario.showtime
                 Scenario.prices))] in
  keyed db /\ counted db /\ stocked db /\ seated steps
  /\ map availableSeats (shows db) = [99]
  /\ map availableSeats (shows (run steps db)) = [100; 120]
  /\ forall s,
      In s (shows (run steps db)) ->
      availableSeats s
      = totalSeats s - confirmedSeats (s_id s) (bookings (run steps db))
      /\ 0 <= availableSeats s.
Proof.
  intros db steps.
  assert (H1 : keyed db).
  { split; [repeat constructor; intros [] |].
    intros b [<-|[]]. eexists. split; [left; reflexivity | reflexivity]. }
  assert (H2 : counted db) by (intros s [<-|[]]; reflexivity).
  assert (H3 : stocked db) by (intros s [<-|[]]; simpl; lia).
  assert (H4 : seated steps).
  { intros o env v screen [H|[H|[]]]; [discriminate H|].
    injection H as <- <- <-. intros [= <-]. simpl. lia. }
  split; [exact H1 | split; [exact H2 | split; [exact H3|]]].
  split; [exact H4 | split; [reflexivity | split; [reflexivity|]]].
  exact (availableSeats_counts_confirmed_seats steps db H1 H2 H3 H4).
Defined.

End StoreWitnesses.

Section SystemWitnesses.
Import Registry System.

Lemma requestLock_ignores_bookings_witness :
  admitted (Scenario.asks "alice" ["A1"]) ["A1"]
  /\ conflictsOf Scenario.theShow ["A1"] (activeSeatLocks initial) = []
  /\ granted
       (snd (step (mkWorld initial
                     (Scenario.storeWith [Scenario.bookingOfA1 "bob"] []))
               (RequestLock "socketA" (Scenario.asks "alice" ["A1"])
                  (Scenario.at_ 0)))) = true.
Proof.
  assert (H1 : admitted (Scenario.asks "alice" ["A1"]) ["A1"]).
  { repeat split; try reflexivity. vm_compute. lia. }
  assert (H2 : conflictsOf Scenario.theShow ["A1"]
                 (activeSeatLocks initial) = []) by reflexivity.
  split; [exact H1 | split; [exact H2|]].
  apply (requestLock_ignores_bookings
           (mkWorld initial
              (Scenario.storeWith [Scenario.bookingOfA1 "bob"] []))
           "socketA" (Scenario.asks "alice" ["A1"]) ["A1"]
           (Scenario.at_ 0) H1 H2).
Defined.

Lemma socket_lock_unseen_by_commit_witness :
  let w0 := mkWorld initial (Scenario.storeWith [] []) in
  let locked := step w0 (RequestLock "socketA"
                           (Scenario.asks "alice" ["A1"])
                           (Scenario.at_ 0)) in
  Store.seatLocks (store w0) = []
  /\ admitted (Scenario.asks "alice" ["A1"]) ["A1"]
  /\ Store.seatIdsOf (Scenario.posts [Scenario.seat "A" 1]) = ["A1"]
  /\ granted (snd locked) = true
  /\ Store.reachesLockCheck Store.noFault (Scenario.as_ "alice" "booking1")
       (Scenario.posts [Scenario.seat "A" 1]) (store (fst locked))
  /\ fst (Store.createBooking Store.noFault
            (Scenario.as_ "alice" "booking1")
            (Scenario.posts [Scenario.seat "A" 1]) (store (fst locked)))
     = Store.LocksMissing ["A1"].
Proof.
  intros w0 locked.
  assert (H1 : Store.seatLocks (store w0) = []) by reflexivity.
  assert (H2 : admitted (Scenario.asks "alice" ["A1"]) ["A1"]).
  { repeat split; try reflexivity. vm_compute. lia. }
  assert (H3 : Store.seatIdsOf (Scenario.posts [Scenario.seat "A" 1])
               = ["A1"]) by reflexivity.
  assert (H4 : granted (snd locked) = true) by reflexivity.
  assert (H5 : Store.reachesLockCheck Store.noFault
                 (Scenario.as_ "alice" "booking1")
                 (Scenario.posts [Scenario.seat "A" 1])
                 (store (fst locked))).
  { repeat split; try reflexivity.
    - exists Scenario.theShowDoc. repeat split. vm_compute. discriminate.
    - intros seat _ []. }
  split; [exact H1 | split; [exact H2 | split; [exact H3|]]].
  split; [exact H4 | split; [exact H5|]].
  apply (socket_lock_unseen_by_commit [] w0 "socketA"
           (Scenario.asks "alice" ["A1"]) ["A1"] (Scenario.at_ 0)
           Store.noFault (Scenario.as_ "alice" "booking1")
           (Scenario.posts [Scenario.seat "A" 1])
           H1 H2 eq_refl eq_refl H3 H4).
  exact H5.
Defined.

End SystemWitnesses.

Section ReleaseWithoutId.
Import Registry.

(** C7, as stated, fails: A1 is locked by Alice; Bob's releaseLock for A1,
    sent without a lock id as the client sends it, removes her entry. *)
Lemma release_without_id_frees_anyones_seat :
  option_map userId (lockedFor Scenario.theShow "A1" Scenario.afterAlice)
  = Some "alice"
  /\ rl_userId Scenario.bobRelease = Some "bob"
  /\ lockedFor Scenario.theShow "A1"
       (fst (releaseLock Scenario.bobRelease Scenario.afterAlice)) = None.
Proof. vm_compute. repeat split. Qed.

End ReleaseWithoutId.

(** * Further properties *)

(** ** Maps with unique keys *)

Section MapKeys.
Context {V : Type}.
Implicit Types (m : JS.Map V) (k : string) (v : V).

Lemma set_In k v m e :
  In e (JS.set k v m) -> e = (k, v) \/ In e m.
Proof.
  induction m as [|[k' v'] m IH]; simpl.
  - intros [<-|[]]. now left.
  - destruct (String.eqb k k'); simpl; intuition.
Qed.

Lemma delete_In k m e : In e (JS.delete k m) -> In e m /\ fst e <> k.
Proof.
  unfold JS.delete. rewrite filter_In. intros [H Hk]. split; [exact H|].
  apply negb_true_iff in Hk. intros E. rewrite E, String.eqb_refl in Hk.
  discriminate.
Qed.

Lemma keys_set k v m :
  NoDup (map fst m) -> NoDup (map fst (JS.set k v m)).
Proof.
  induction m as [|[k' v'] m IH]; simpl; intros H.
  - constructor; [intros [] | constructor].
  - inversion H as [|x xs Hnotin Hnd]; subst.
    destruct (String.eqb_spec k k') as [->|Hne]; simpl.
    + now constructor.
    + constructor; [|now apply IH].
      intros Hin. apply in_map_iff in Hin as (e & He & Hin).
      apply set_In in Hin as [->|Hin]; [simpl in He; congruence|].
      apply Hnotin. apply in_map_iff. eauto.
Qed.

Lemma keys_delete k m :
  NoDup (map fst m) -> NoDup (map fst (JS.delete k m)).
Proof. apply NoDup_map_filter. Qed.

Lemma get_unique k v m :
  NoDup (map fst m) -> In (k, v) m -> JS.get k m = Some v.
Proof.
  induction m as [|[k' v'] m IH]; simpl; [tauto|]. intros H Hin.
  inversion H as [|x xs Hnotin Hnd]; subst.
  destruct Hin as [[= -> ->]|Hin].
  - now rewrite String.eqb_refl.
  - destruct (String.eqb_spec k k') as [->|_]; [|now apply IH].
    exfalso. apply Hnotin. apply in_map_iff. now exists (k', v).
Qed.

End MapKeys.

(** ** Purging the lock table *)

Section PurgeMore.
Import Registry.
Variables (p : Lock -> bool) (reason : string).

Lemma purge_only_removes k :
  forall es acc,
    JS.get k (fst (fold_left (visit p reason) es acc))
    = JS.get k (fst acc)
    \/ JS.get k (fst (fold_left (visit p reason) es acc)) = None.
Proof.
  induction es as [|[k0 l0] es IH]; intros acc; simpl; [now left|].
  destruct (IH (visit p reason acc (k0, l0))) as [E|E]; [|now right].
  rewrite E. unfold visit. simpl. destruct (p l0); [|now left].
  simpl. rewrite get_delete.
  destruct (String.eqb k0 k); [now right | now left].
Qed.

Lemma purge_keeps k :
  forall es acc,
    (forall l, In (k, l) es -> p l = false) ->
    JS.get k (fst (fold_left (visit p reason) es acc)) = JS.get k (fst acc).
Proof.
  induction es as [|[k0 l0] es IH]; intros acc H; simpl; [reflexivity|].
  rewrite IH by (intros l Hl; apply H; now right).
  unfold visit. simpl. destruct (p l0) eqn:Hp; [|reflexivity].
  simpl. apply get_delete_ne. intros ->.
  rewrite (H l0) in Hp by now left. discriminate.
Qed.

Lemma purge_emits :
  forall es acc,
    snd (fold_left (visit p reason) es acc)
    = snd acc
      ++ map (fun e => ToRoom (room (showId (snd e)))
                         (SeatLocksReleased [seatId (snd e)] (Some reason)
                            None))
          (filter (fun e => p (snd e)) es).
Proof.
  induction es as [|e es IH]; intros acc; simpl.
  - now rewrite app_nil_r.
  - rewrite IH. unfold visit. destruct (p (snd e)); simpl; [|reflexivity].
    now rewrite <- app_assoc.
Qed.

Lemma purge_keys m :
  NoDup (map fst m) -> NoDup (map fst (fst (purge p reason m))).
Proof.
  unfold purge. intros H.
  assert (G : forall es acc,
             NoDup (map fst (fst acc)) ->
             NoDup (map fst (fst (fold_left (visit p reason) es acc)))).
  { induction es as [|e es IH]; intros acc Ha; simpl; [exact Ha|].
    apply IH. unfold visit. destruct (p (snd e)); [|exact Ha].
    simpl. now apply keys_delete. }
  now apply G.
Qed.

Lemma purge_In m e :
  In e (fst (purge p reason m)) -> In e m.
Proof.
  unfold purge.
  assert (G : forall es acc,
             In e (fst (fold_left (visit p reason) es acc)) ->
             In e (fst acc)).
  { induction es as [|x es IH]; intros acc Ha; simpl in *; [exact Ha|].
    apply IH in Ha. unfold visit in Ha. destruct (p (snd x)); [|exact Ha].
    simpl in Ha. now apply delete_In in Ha. }
  apply G.
Qed.

(** With unique keys, purging is filtering. *)
Lemma purge_get m k :
  NoDup (map fst m) ->
  JS.get k (fst (purge p reason m))
  = match JS.get k m with
    | Some l => if p l then None else Some l
    | None => None
    end.
Proof.
  intros Hnd. destruct (JS.get k m) as [l|] eqn:E.
  - destruct (p l) eqn:Hp.
    + now apply purge_spec with (l := l).
    + unfold purge. rewrite purge_keeps; [exact E|].
      intros l' Hl'. apply (get_unique _ _ _ Hnd) in Hl'. congruence.
  - now apply purge_absent.
Qed.

End PurgeMore.

(** ** The lock table after any events *)

Section Tidy.
Import Registry Table.

Lemma release_sub showId id seats :
  forall (acc : JS.Map Lock * list Emit) e,
    In e (fst (fold_left (releaseOne showId id) seats acc)) ->
    In e (fst acc).
Proof.
  induction seats as [|s ss IH]; intros acc e H; simpl in *; [exact H|].
  apply IH in H. rewrite releaseOne_releasable in H.
  destruct (releasable showId id (fst acc) s); [|exact H].
  simpl in H. now apply delete_In in H.
Qed.

Lemma release_keys showId id seats :
  forall acc : JS.Map Lock * list Emit,
    NoDup (map fst (fst acc)) ->
    NoDup (map fst (fst (fold_left (releaseOne showId id) seats acc))).
Proof.
  induction seats as [|s ss IH]; intros acc H; simpl; [exact H|].
  apply IH. rewrite releaseOne_releasable.
  destruct (releasable showId id (fst acc) s); [|exact H].
  simpl. now apply keys_delete.
Qed.

Lemma createLocks_keys mk showId seats :
  forall m,
    NoDup (map fst m) -> NoDup (map fst (createLocks mk showId seats m)).
Proof.
  unfold createLocks.
  induction seats as [|s ss IH]; intros m H; simpl; [exact H|].
  apply IH. now apply keys_set.
Qed.

Lemma createLocks_In mk showId seats :
  forall m e,
    In e (createLocks mk showId seats m) ->
    In e m \/ exists seat, In seat seats /\ e = (lockKey showId seat, mk seat).
Proof.
  unfold createLocks.
  induction seats as [|s ss IH]; intros m e H; simpl in *; [now left|].
  apply IH in H as [H|(seat & Hin & ->)].
  - apply set_In in H as [->|H]; [right; exists s; auto | now left].
  - right. exists seat. auto.
Qed.

Lemma takeDue_spec now ts t rest :
  takeDue now ts = Some (t, rest) ->
  In t ts /\ due t <= now /\ (forall t', In t' rest -> In t' ts)
  /\ length ts = S (length rest).
Proof.
  revert t rest. induction ts as [|x ts IH]; intros t rest; simpl;
    [discriminate|].
  destruct (due x <=? now) eqn:E.
  - intros [= <- <-]. apply Z.leb_le in E. repeat split; auto.
  - destruct (takeDue now ts) as [[t' rest']|]; [|discriminate].
    intros [= <- <-]. destruct (IH t' rest' eq_refl) as (H1 & H2 & H3 & H4).
    split; [now right|]. split; [exact H2|]. split.
    + intros y [<-|Hy]; [now left | right; auto].
    + simpl. now rewrite H4.
Qed.

Lemma tidy_release st showId seats id :
  tidy st ->
  tidy (mkServer (fst (releaseSeatLock showId seats id (activeSeatLocks st)))
          (timers st)).
Proof.
  intros (Hk & Hc & Ht). unfold releaseSeatLock. repeat split; simpl.
  - now apply release_keys.
  - intros k l H. apply release_sub in H. now apply Hc.
  - exact Ht.
Qed.

Lemma tidy_purge st p reason :
  tidy st ->
  tidy (mkServer (fst (purge p reason (activeSeatLocks st))) (timers st)).
Proof.
  intros (Hk & Hc & Ht). repeat split; simpl.
  - now apply purge_keys.
  - intros k l H. apply purge_In in H. now apply Hc.
  - exact Ht.
Qed.

Lemma tidy_requestLock socket rq clk st :
  tidy st -> tidy (fst (requestLock socket rq clk st)).
Proof.
  intros (Hk & Hc & Ht). unfold requestLock.
  destruct (rq_seatIds rq) as [seatIds|]; [|now repeat split].
  destruct (negb (JS.truthy (rq_showId rq)) || _); [now repeat split|].
  destruct (maxSeats <? length seatIds)%nat; [now repeat split|].
  cbv zeta. destruct (0 <? length _)%nat; [now repeat split|].
  repeat split; simpl.
  - now apply createLocks_keys.
  - intros k l H. apply createLocks_In in H as [H|(seat & _ & [= -> ->])];
      [now apply Hc | reflexivity].
  - intros t Hin. apply in_app_or in Hin as [Hin|[<-|[]]]; [now apply Ht|].
    simpl. unfold lockIdFor, JS.template. simpl. discriminate.
Qed.

Lemma tidy_fireTimer now st : tidy st -> tidy (fst (fireTimer now st)).
Proof.
  intros H. unfold fireTimer.
  destruct (takeDue now (timers st)) as [[t rest]|] eqn:E; [|exact H].
  apply takeDue_spec in E as (_ & _ & Hrest & _).
  destruct (tidy_release st (t_showId t) (t_seatIds t) (Some (t_lockId t)) H)
    as (Hk & Hc & Ht).
  repeat split; simpl; auto.
Qed.

Lemma tidy_step w e :
  tidy (System.registry w) -> tidy (System.registry (fst (System.step w e))).
Proof.
  intros H. destruct e; simpl.
  - now apply tidy_requestLock.
  - now apply tidy_release.
  - now apply tidy_release.
  - now apply tidy_purge.
  - now apply tidy_purge.
  - now apply tidy_fireTimer.
  - exact H.
Qed.

Lemma tidy_after events db : tidy (after events db).
Proof.
  unfold after, System.run.
  assert (G : forall w,
             tidy (System.registry w) ->
             tidy (System.registry
                     (fold_left (fun w e => fst (System.step w e)) events w))).
  { induction events as [|e events IH]; intros w H; simpl; [exact H|].
    apply IH. now apply tidy_step. }
  apply G. repeat split; simpl; [constructor | intros k l [] | intros t []].
Qed.

End Tidy.

Section TableProperties.
Import Registry Table.

(** X1.  After any events, no key occurs twice in the table, and every
    entry of the table sits under the key made of its own show and seat,
    where looking up that show and seat finds it. *)
Theorem lock_entries_keyed_by_show_and_seat :
  forall events db,
    NoDup (map fst (activeSeatLocks (after events db)))
    /\ forall k l,
         In (k, l) (activeSeatLocks (after events db)) ->
         k = lockKey (showId l) (seatId l)
         /\ lockedFor (showId l) (seatId l) (after events db) = Some l.
Proof.
  intros events db.
  destruct (tidy_after events db) as (Hn & Hc & _).
  split; [exact Hn|]. intros k l Hin.
  assert (Hk : k = lockKey (showId l) (seatId l)) by now apply Hc.
  split; [exact Hk|]. unfold lockedFor. rewrite <- Hk.
  now apply get_unique.
Qed.

(** X2.  After any events, a disconnect removes the entries made through that
    socket and no other, and sends one release with reason
    [user_disconnected] for each of them, in the order of the table. *)
Theorem disconnect_releases_the_sockets_locks :
  forall events db socket,
    let st := after events db in
    let r := disconnect socket st in
    (forall k l,
        JS.get k (activeSeatLocks (fst r)) = Some l <->
        JS.get k (activeSeatLocks st) = Some l /\ socketId l <> socket)
    /\ snd r
       = map (released "user_disconnected")
           (filter (fun e => String.eqb (socketId (snd e)) socket)
              (activeSeatLocks st))
    /\ timers (fst r) = timers st.
Proof.
  intros events db socket st r.
  destruct (tidy_after events db) as (Hk & _ & _). fold st in Hk.
  split; [|split; [|reflexivity]].
  - intros k l. unfold r, disconnect. simpl.
    rewrite (purge_get _ _ _ k Hk).
    destruct (JS.get k (activeSeatLocks st)) as [l'|]; [|split;
      [discriminate | intros [H _]; discriminate]].
    destruct (String.eqb_spec (socketId l') socket) as [E|E].
    + split; [discriminate | intros [[= ->] H]; contradiction].
    + split; [intros [= ->]; auto | intros [[= ->] _]; reflexivity].
  - unfold r, disconnect, purge. simpl. now rewrite purge_emits.
Qed.

(** X3.  After any events, the sweep at [now] removes the entries whose expiry
    is before [now] and no other, and sends one release with reason
    [expired] for each of them. *)
Theorem sweep_removes_expired_locks_only :
  forall events db now,
    let st := after events db in
    let r := sweep now st in
    (forall k l,
        JS.get k (activeSeatLocks (fst r)) = Some l <->
        JS.get k (activeSeatLocks st) = Some l /\ now <= expiresAt l)
    /\ snd r
       = map (released "expired")
           (filter (fun e => expiresAt (snd e) <? now) (activeSeatLocks st))
    /\ timers (fst r) = timers st.
Proof.
  intros events db now st r.
  destruct (tidy_after events db) as (Hk & _ & _). fold st in Hk.
  split; [|split; [|reflexivity]].
  - intros k l. unfold r, sweep. simpl.
    rewrite (purge_get _ _ _ k Hk).
    destruct (JS.get k (activeSeatLocks st)) as [l'|]; [|split;
      [discriminate | intros [H _]; discriminate]].
    destruct (Z.ltb_spec (expiresAt l') now) as [E|E].
    + split; [discriminate | intros [[= ->] H]; lia].
    + split; [intros [= ->]; auto | intros [[= ->] _]; reflexivity].
  - unfold r, sweep, purge. simpl. now rewrite purge_emits.
Qed.

(** X4.  After any events, a timer that fires removes only entries made under
    its own lock id, for the seats it was armed for: a seat locked again
    under another lock id is not released by the old timer.  When no timer
    is due nothing happens; when one fires it is no longer pending. *)
Theorem timer_releases_its_own_lock_only :
  forall events db now k l,
    let st := after events db in
    JS.get k (activeSeatLocks st) = Some l ->
    (JS.get k (activeSeatLocks (fst (fireTimer now st))) = Some l
     \/ (JS.get k (activeSeatLocks (fst (fireTimer now st))) = None /\
         exists t seat,
           In t (timers st) /\ due t <= now /\ t_lockId t = lockId l /\
           In seat (t_seatIds t) /\ k = lockKey (t_showId t) seat))
    /\ ((forall t, In t (timers st) -> now < due t) ->
        fireTimer now st = (st, []))
    /\ (fireTimer now st = (st, [])
        \/ length (timers st) = S (length (timers (fst (fireTimer now st))))).
Proof.
  intros events db now k l st Hget.
  destruct (tidy_after events db) as (_ & _ & Ht). fold st in Ht.
  unfold fireTimer.
  destruct (takeDue now (timers st)) as [[t rest]|] eqn:E.
  - apply takeDue_spec in E as (Hin & Hdue & _ & Hlen).
    split; [|split].
    + simpl. unfold releaseSeatLock.
      destruct (release_only_removes (t_showId t) (Some (t_lockId t))
                  (t_seatIds t) (activeSeatLocks st, []) k)
        as [H|[H (seat & Hs & Hk & Hr)]].
      * left. simpl in H. congruence.
      * right. split; [exact H|].
        apply releasable_with_id in Hr; [|now apply Ht].
        destruct Hr as (l' & Hl' & Hid). simpl in Hl'. subst k.
        exists t, seat. repeat split; auto. congruence.
    + intros Hnone. specialize (Hnone t Hin). lia.
    + right. simpl. exact Hlen.
  - split; [now left | split; [reflexivity | now left]].
Qed.

(** X5.  confirmBooking frees every listed seat of the show, whoever holds it
    and under whatever lock id, leaves every other key alone, keeps the
    pending timers, and ends by telling the room that the seats are
    booked. *)
Theorem confirmBooking_frees_listed_seats :
  forall showId seatIds bookingId now st,
    let r := confirmBooking showId seatIds bookingId now st in
    (forall seat, In seat seatIds -> lockedFor showId seat (fst r) = None)
    /\ (forall k,
           (forall seat, In seat seatIds -> k <> lockKey showId seat) ->
           JS.get k (activeSeatLocks (fst r))
           = JS.get k (activeSeatLocks st))
    /\ timers (fst r) = timers st
    /\ exists released,
        snd r = released
                ++ [ToRoom (room showId)
                      (SeatsBooked seatIds bookingId now)].
Proof.
  intros showId seatIds bookingId now st r. unfold r, confirmBooking.
  simpl. unfold releaseSeatLock. repeat split.
  - intros seat Hin. unfold lockedFor. simpl.
    pose proof (release_exhausts showId None seatIds
                  (activeSeatLocks st, []) seat Hin) as H.
    unfold releasable in H.
    destruct (JS.get (lockKey showId seat) _); [discriminate | reflexivity].
  - intros k Hk.
    destruct (release_only_removes showId None seatIds
                (activeSeatLocks st, []) k)
      as [H|[_ (seat & Hs & -> & _)]]; [exact H|].
    now elim (Hk seat Hs).
  - eexists. reflexivity.
Qed.

End TableProperties.

(** ** A grant and its release *)

Section RoundTrip.
Import Registry.

Lemma delete_cons k (e : string * Lock) (m : JS.Map Lock) :
  JS.delete k (e :: m)
  = if String.eqb k (fst e) then JS.delete k m else e :: JS.delete k m.
Proof. unfold JS.delete. simpl. now destruct (String.eqb k (fst e)). Qed.

Lemma deletes_nil (ks : list string) :
  fold_left (fun (m : JS.Map Lock) k => JS.delete k m) ks [] = [].
Proof. induction ks as [|k ks IH]; simpl; auto. Qed.

Lemma deletes_cons (ks : list string) :
  forall (e : string * Lock) (m : JS.Map Lock),
    fold_left (fun (m : JS.Map Lock) k => JS.delete k m) ks (e :: m)
    = if JS.includes (fst e) ks
      then fold_left (fun (m : JS.Map Lock) k => JS.delete k m) ks m
      else e :: fold_left (fun (m : JS.Map Lock) k => JS.delete k m) ks m.
Proof.
  induction ks as [|k ks IH]; intros e m; [reflexivity|].
  cbn [fold_left JS.includes existsb].
  rewrite delete_cons, (String.eqb_sym (fst e) k).
  destruct (String.eqb k (fst e)); [reflexivity|]. apply IH.
Qed.

Lemma deletes_absent (ks : list string) (m : JS.Map Lock) :
  (forall k, In k ks -> JS.get k m = None) ->
  fold_left (fun (m : JS.Map Lock) k => JS.delete k m) ks m = m.
Proof.
  revert m. induction ks as [|k ks IH]; intros m H; simpl; [reflexivity|].
  rewrite delete_absent by (apply H; now left).
  apply IH. intros k' Hk'. apply H. now right.
Qed.

Lemma deletes_set (ks : list string) k (v : Lock) :
  In k ks ->
  forall m : JS.Map Lock,
    fold_left (fun (m : JS.Map Lock) k => JS.delete k m) ks (JS.set k v m)
    = fold_left (fun (m : JS.Map Lock) k => JS.delete k m) ks m.
Proof.
  intros Hin. apply includes_In in Hin.
  induction m as [|[k' v'] m IH]; simpl.
  - rewrite deletes_cons. simpl. now rewrite Hin.
  - destruct (String.eqb_spec k k') as [<-|Hne].
    + rewrite !deletes_cons. simpl. now rewrite Hin.
    + rewrite !deletes_cons. simpl. rewrite IH. reflexivity.
Qed.

Lemma deletes_createLocks mk showId (ss ks : list string) :
  (forall s, In s ss -> In (lockKey showId s) ks) ->
  forall m : JS.Map Lock,
    fold_left (fun (m : JS.Map Lock) k => JS.delete k m) ks
      (createLocks mk showId ss m)
    = fold_left (fun (m : JS.Map Lock) k => JS.delete k m) ks m.
Proof.
  unfold createLocks.
  induction ss as [|s ss IH]; intros H m; simpl; [reflexivity|].
  rewrite IH by (intros s' Hs'; apply H; now right).
  apply deletes_set. apply H. now left.
Qed.

(** When every entry found for a listed seat may be released, the loop of
    [releaseSeatLock] leaves the table with the listed keys deleted. *)
Lemma release_deletes showId id (ss : list string) :
  forall acc : JS.Map Lock * list Emit,
    (forall s l, In s ss -> JS.get (lockKey showId s) (fst acc) = Some l ->
                 releasable showId id (fst acc) s = true) ->
    fst (fold_left (releaseOne showId id) ss acc)
    = fold_left (fun (m : JS.Map Lock) k => JS.delete k m)
        (map (lockKey showId) ss) (fst acc).
Proof.
  induction ss as [|s ss IH]; intros acc H; simpl; [reflexivity|].
  assert (E : fst (releaseOne showId id acc s)
              = JS.delete (lockKey showId s) (fst acc)).
  { rewrite releaseOne_releasable.
    destruct (JS.get (lockKey showId s) (fst acc)) as [l|] eqn:G.
    - rewrite (H s l) by (auto; now left). reflexivity.
    - unfold releasable. rewrite G. simpl. now rewrite delete_absent. }
  rewrite IH, E; [reflexivity|].
  intros s' l Hin G. rewrite E in G |- *.
  rewrite get_delete in G.
  destruct (String.eqb_spec (lockKey showId s) (lockKey showId s'))
    as [Ek|Ek]; [discriminate|].
  specialize (H s' l (or_intror Hin) G).
  unfold releasable in H |- *. now rewrite get_delete_ne.
Qed.

Lemma takeDue_last now ts t :
  (forall t', In t' ts -> now < due t') -> due t <= now ->
  takeDue now (ts ++ [t]) = Some (t, ts).
Proof.
  intros H Ht. induction ts as [|t0 ts IH]; simpl.
  - destruct (Z.leb_spec (due t) now); [reflexivity | lia].
  - destruct (Z.leb_spec (due t0) now) as [L|L].
    + specialize (H t0 (or_introl eq_refl)). lia.
    + rewrite IH by (intros t' Ht'; apply H; now right). reflexivity.
Qed.

(** The table after a grant, with the keys of the granted seats deleted,
    is the table before the grant. *)
Lemma grant_undone socket rq seatIds clk st :
  admitted rq seatIds ->
  granted (snd (requestLock socket rq clk st)) = true ->
  fst (releaseSeatLock (rq_showId rq) seatIds (Some (lockIdFor rq clk))
         (activeSeatLocks (fst (requestLock socket rq clk st))))
  = activeSeatLocks st.
Proof.
  intros Ha Hg.
  apply (requestLock_granted_iff socket rq seatIds clk st Ha) in Hg.
  rewrite (requestLock_admitted _ _ _ _ _ Ha). cbv zeta. rewrite Hg.
  cbn [fst activeSeatLocks]. unfold releaseSeatLock.
  rewrite release_deletes.
  - cbn [fst]. rewrite deletes_createLocks
      by (intros s Hs; now apply in_map).
    apply deletes_absent. intros k Hk. apply in_map_iff in Hk.
    destruct Hk as (s & <- & Hs).
    now apply (proj1 (conflictsOf_nil _ _ _) Hg).
  - intros s l Hs G. cbn [fst] in *. unfold releasable. rewrite G.
    rewrite get_createLocks in G.
    rewrite (proj2 (includes_In s seatIds) Hs) in G.
    injection G as <-. cbn [lockId]. rewrite String.eqb_refl.
    apply orb_true_r.
Qed.

(** X6.  A granted request followed by the release of its seats under its lock
    id leaves the table as it was before the request, entry for entry and
    in the same order; the timer of the request stays pending.  When the
    timer of the request is the first to come due, its firing gives back
    the server state of before the request, table and timers. *)
Theorem grant_then_release_restores_table :
  forall socket rq seatIds clk st user now,
    admitted rq seatIds ->
    granted (snd (requestLock socket rq clk st)) = true ->
    let st1 := fst (requestLock socket rq clk st) in
    let rl := mkReleaseRequest (rq_showId rq) seatIds
                (Some (lockIdFor rq clk)) user in
    activeSeatLocks (fst (releaseLock rl st1)) = activeSeatLocks st
    /\ timers (fst (releaseLock rl st1))
       = timers st ++ [mkTimer (at_timer clk + lease) (rq_showId rq)
                         seatIds (lockIdFor rq clk)]
    /\ ((forall t, In t (timers st) -> now < due t) ->
        at_timer clk + lease <= now ->
        fst (fireTimer now st1) = st).
Proof.
  intros socket rq seatIds clk st user now Ha Hg st1 rl.
  pose proof (grant_undone socket rq seatIds clk st Ha Hg) as U.
  fold st1 in U.
  assert (T : timers st1
              = timers st ++ [mkTimer (at_timer clk + lease) (rq_showId rq)
                                seatIds (lockIdFor rq clk)]).
  { unfold st1.
    apply (requestLock_granted_iff socket rq seatIds clk st Ha) in Hg.
    rewrite (requestLock_admitted _ _ _ _ _ Ha). cbv zeta.
    now rewrite Hg. }
  split; [exact U | split; [exact T|]].
  intros Hts Hdue. unfold fireTimer. rewrite T.
  rewrite takeDue_last by (auto; simpl; lia).
  cbn [t_showId t_seatIds t_lockId fst]. rewrite U. apply server_eta.
Qed.

End RoundTrip.

(** ** Lock keys and the shows they belong to *)

Section Keys.
Import Registry Table.

Lemma append_same_length (a b x y : string) :
  String.length a = String.length b ->
  String.append a x = String.append b y -> a = b /\ x = y.
Proof.
  revert b. induction a as [|c a IH]; intros [|d b]; simpl;
    try discriminate.
  - auto.
  - intros [= L] [= -> E]. destruct (IH b L E) as [-> ->]. auto.
Qed.

Lemma lockKey_append showId seatId :
  lockKey showId seatId = String.append showId (String "_" seatId).
Proof. reflexivity. Qed.

Lemma prefix_append (a x : string) : String.prefix a (String.append a x) = true.
Proof.
  induction a as [|c a IH]; simpl; [now destruct x|].
  destruct (ascii_dec c c); [exact IH | contradiction].
Qed.

Lemma prefix_same_length (a b x y : string) :
  String.length a = String.length b ->
  String.prefix (String.append a x) (String.append b y) = true -> a = b.
Proof.
  revert b. induction a as [|c a IH]; intros [|d b]; simpl;
    try discriminate; [reflexivity|].
  intros [= L]. destruct (ascii_dec c d) as [->|]; [|discriminate].
  intros H. now rewrite (IH b L H).
Qed.

Lemma ofShow_own showId seatId :
  Rooms.ofShow showId (lockKey showId seatId) = true.
Proof.
  unfold Rooms.ofShow. rewrite lockKey_append.
  change (JS.template [showId; "_"]) with (String.append showId "_").
  induction showId as [|c a IH]; simpl.
  - now destruct seatId.
  - destruct (ascii_dec c c); [apply IH | contradiction].
Qed.

Lemma ofShow_same_length showId a seatId :
  String.length a = String.length showId ->
  Rooms.ofShow showId (lockKey a seatId) = String.eqb a showId.
Proof.
  intros L. destruct (String.eqb_spec a showId) as [->|Hne].
  - apply ofShow_own.
  - destruct (Rooms.ofShow showId (lockKey a seatId)) eqn:E; [|reflexivity].
    unfold Rooms.ofShow in E. rewrite lockKey_append in E.
    change (JS.template [showId; "_"]) with (String.append showId "_") in E.
    symmetry in L. apply (prefix_same_length _ _ _ _ L) in E. congruence.
Qed.

Lemma validShowId_length s :
  Store.validShowId s = true -> String.length s = 24%nat.
Proof.
  unfold Store.validShowId. intros H. apply andb_true_iff in H as [H _].
  now apply Nat.eqb_eq.
Qed.

(** X7.  For show ids that pass the check of the booking schema (24 hex
    digits), the key of a lock determines its show and its seat. *)
Theorem lockKey_separates_valid_shows :
  forall a b seat seat',
    Store.validShowId a = true -> Store.validShowId b = true ->
    lockKey a seat = lockKey b seat' -> a = b /\ seat = seat'.
Proof.
  intros a b seat seat' Ha Hb E. rewrite !lockKey_append in E.
  apply append_same_length in E.
  - destruct E as [-> [= ->]]. auto.
  - now rewrite (validShowId_length a), (validShowId_length b).
Qed.

(** X8.  The handler of requestLock only asks for a show id that is not empty.
    A lock on seat [t] of the show [a_s] then sits under the key of seat
    [s_t] of the show [a], and a request for that seat of [a] finds it as
    a conflict. *)
Theorem lockKey_collides_across_shows :
  forall a s t m l,
    JS.get (lockKey (JS.template [a; "_"; s]) t) m = Some l ->
    lockKey (JS.template [a; "_"; s]) t = lockKey a (JS.template [s; "_"; t])
    /\ conflictsOf a [JS.template [s; "_"; t]] m
       = [JS.template [s; "_"; t]].
Proof.
  intros a s t m l H.
  assert (E : lockKey (JS.template [a; "_"; s]) t
              = lockKey a (JS.template [s; "_"; t])).
  { rewrite !lockKey_append.
    change (JS.template [a; "_"; s]) with (String.append a (String "_" s)).
    change (JS.template [s; "_"; t]) with (String.append s (String "_" t)).
    clear H. induction a as [|c a IH]; simpl; [reflexivity|].
    now rewrite IH. }
  split; [exact E|].
  unfold conflictsOf. simpl. unfold JS.has. now rewrite <- E, H.
Qed.

(** X9.  After any events, a socket that joins a show is sent a view of every
    lock of that show; when the show ids of the table have the length of
    the joined one, it is sent these and no other, in the order of the
    table. *)
Theorem joinShow_sends_the_shows_locks :
  forall events db socket showId userId rooms,
    JS.truthy showId = true -> JS.truthy userId = true ->
    let table := activeSeatLocks (after events db) in
    let view (l : Lock) :=
      Rooms.mkLockView (seatId l) (Registry.userId l) (expiresAt l) in
    exists views,
      snd (Rooms.joinShow socket showId userId table rooms)
      = Rooms.CurrentLocks views
      /\ (forall k l, In (k, l) table -> Registry.showId l = showId ->
                      In (view l) views)
      /\ ((forall k l, In (k, l) table ->
                       String.length (Registry.showId l)
                       = String.length showId) ->
          views = map (fun e => view (snd e))
                    (filter (fun e => String.eqb (Registry.showId (snd e))
                                        showId) table)).
Proof.
  intros events db socket showId userId rooms Hs Hu table view.
  destruct (tidy_after events db) as (_ & Hk & _). fold table in Hk.
  exists (Rooms.currentLocks showId table). split; [|split].
  - unfold Rooms.joinShow. now rewrite Hs, Hu.
  - intros k l Hin E. unfold Rooms.currentLocks.
    apply in_map_iff. exists (k, l). split; [reflexivity|].
    apply filter_In. split; [exact Hin|]. simpl.
    rewrite (Hk k l Hin), E. apply ofShow_own.
  - intros Hlen. unfold Rooms.currentLocks. f_equal.
    apply filter_ext_in. intros [k l] Hin. simpl.
    rewrite (Hk k l Hin). apply ofShow_same_length. now apply (Hlen k).
Qed.

End Keys.

(** ** Room tracking *)

Section RoomFacts.
Import Registry Rooms.

Implicit Types (rooms : JS.Map (list string)) (users : list string).

Lemma get_absent {V} k (m : JS.Map V) :
  ~ In k (map fst m) -> JS.get k m = None.
Proof.
  intros H. destruct (JS.get k m) as [v|] eqn:E; [|reflexivity].
  apply get_In in E. elim H. apply in_map_iff. now exists (k, v).
Qed.

Lemma set_same {V} k (v : V) (m : JS.Map V) :
  JS.get k m = Some v -> JS.set k v m = m.
Proof.
  induction m as [|[k' v'] m IH]; simpl; [discriminate|].
  destruct (String.eqb_spec k k') as [->|Hne].
  - now intros [= ->].
  - intros H. now rewrite IH.
Qed.

Lemma set_set {V} k (v v' : V) (m : JS.Map V) :
  JS.set k v (JS.set k v' m) = JS.set k v m.
Proof.
  induction m as [|[k0 v0] m IH]; simpl.
  - now rewrite String.eqb_refl.
  - destruct (String.eqb k k0) eqn:E; simpl.
    + now rewrite String.eqb_refl.
    + now rewrite E, IH.
Qed.

Lemma delete_set_new {V} k (v : V) (m : JS.Map V) :
  JS.get k m = None -> JS.delete k (JS.set k v m) = m.
Proof.
  unfold JS.delete. induction m as [|[k0 v0] m IH]; simpl.
  - now rewrite String.eqb_refl.
  - destruct (String.eqb k k0) eqn:E; [discriminate|]. simpl.
    rewrite E. simpl. intros H. now rewrite IH.
Qed.

Lemma remove_spec x users y :
  In y (remove x users) <-> In y users /\ y <> x.
Proof.
  unfold remove. rewrite filter_In, negb_true_iff.
  destruct (String.eqb_spec x y); split; intros [H1 H2]; split;
    congruence.
Qed.

Lemma remove_NoDup x users : NoDup users -> NoDup (remove x users).
Proof. apply NoDup_filter. Qed.

Lemma remove_absent x users : ~ In x users -> remove x users = users.
Proof.
  unfold remove. induction users as [|y ys IH]; simpl; [reflexivity|].
  intros H. destruct (String.eqb_spec x y) as [->|_].
  - elim H. now left.
  - simpl. rewrite IH; [reflexivity | tauto].
Qed.

Lemma remove_added x users :
  ~ In x users -> remove x (add x users) = users.
Proof.
  intros H. unfold add.
  destruct (JS.includes x users) eqn:E.
  - apply includes_In in E. contradiction.
  - unfold remove. rewrite filter_app. simpl. rewrite String.eqb_refl.
    simpl. rewrite app_nil_r. now apply remove_absent.
Qed.

Lemma add_spec x users y : In y (add x users) <-> In y users \/ y = x.
Proof.
  unfold add. destruct (JS.includes x users) eqn:E.
  - apply includes_In in E. split; [auto | intros [H| ->]; auto].
  - rewrite in_app_iff. simpl. intuition.
Qed.

Lemma add_NoDup x users : NoDup users -> NoDup (add x users).
Proof.
  intros H. unfold add. destruct (JS.includes x users) eqn:E; [exact H|].
  apply NoDup_app; [exact H | constructor; [intros [] | constructor] |].
  intros y Hy [<-|[]].
  apply includes_In in Hy. congruence.
Qed.

Lemma kept_set rooms r users :
  kept rooms -> users <> [] -> NoDup users -> kept (JS.set r users rooms).
Proof.
  intros [Hk Hu] Hne Hnd. split; [now apply keys_set|].
  intros r' users' Hin. apply set_In in Hin as [[= -> ->]|Hin]; eauto.
Qed.

Lemma kept_delete rooms r : kept rooms -> kept (JS.delete r rooms).
Proof.
  intros [Hk Hu]. split; [now apply keys_delete|].
  intros r' users' Hin. apply delete_In in Hin as [Hin _]. eauto.
Qed.

Lemma kept_dropFrom socket rooms r users :
  kept rooms -> NoDup users -> kept (dropFrom socket rooms r users).
Proof.
  intros K Hnd. unfold dropFrom.
  destruct (remove socket users) as [|u us] eqn:E; simpl.
  - now apply kept_delete.
  - apply kept_set; [exact K | discriminate |].
    rewrite <- E. now apply remove_NoDup.
Qed.

Lemma kept_joinShow socket showId userId m rooms :
  kept rooms -> kept (fst (joinShow socket showId userId m rooms)).
Proof.
  intros K. unfold joinShow.
  destruct (negb (JS.truthy showId) || negb (JS.truthy userId));
    [exact K|]. cbv zeta. cbn [fst].
  destruct (JS.has (room showId) rooms) eqn:H.
  - apply has_true in H as [users H]. rewrite H.
    apply kept_set; [exact K | |].
    + intros E. assert (Hin : In socket (add socket users))
        by (apply add_spec; now right).
      rewrite E in Hin. destruct Hin.
    + apply add_NoDup. apply get_In in H. now apply (proj2 K) in H.
  - rewrite get_set_eq, set_set. apply kept_set; [exact K | |].
    + discriminate.
    + apply add_NoDup. constructor.
Qed.

Lemma kept_leaveShow socket showId rooms :
  kept rooms -> kept (leaveShow socket showId rooms).
Proof.
  intros K. unfold leaveShow.
  destruct (JS.get (room showId) rooms) as [users|] eqn:H; [|exact K].
  apply kept_dropFrom; [exact K|].
  apply get_In in H. now apply (proj2 K) in H.
Qed.

Lemma kept_fold socket es :
  forall acc,
    (forall e, In e es -> NoDup (snd e)) -> kept acc ->
    kept (fold_left (fun acc e => dropFrom socket acc (fst e) (snd e))
            es acc).
Proof.
  induction es as [|e es IH]; intros acc H K; simpl; [exact K|].
  apply IH; [intros e' He'; apply H; now right|].
  apply kept_dropFrom; [exact K | apply H; now left].
Qed.

Lemma kept_dropSocket socket rooms :
  kept rooms -> kept (dropSocket socket rooms).
Proof.
  intros K. unfold dropSocket. apply kept_fold; [|exact K].
  intros [r users] Hin. now apply (proj2 K) in Hin.
Qed.

Lemma kept_run m events :
  forall rooms, kept rooms -> kept (run m events rooms).
Proof.
  unfold run. induction events as [|e es IH]; intros rooms K; simpl;
    [exact K|].
  apply IH. destruct e; simpl.
  - now apply kept_joinShow.
  - now apply kept_leaveShow.
  - now apply kept_dropSocket.
Qed.

Lemma kept_nil : kept [].
Proof. split; [constructor | intros r users []]. Qed.

(** The second loop of the disconnect handler, key by key. *)
Lemma dropSocket_fold socket es :
  forall acc r,
    NoDup (map fst es) ->
    JS.get r (fold_left (fun acc e => dropFrom socket acc (fst e) (snd e))
                es acc)
    = match JS.get r es with
      | Some users =>
          match remove socket users with
          | [] => None
          | users' => Some users'
          end
      | None => JS.get r acc
      end.
Proof.
  induction es as [|[k u] es IH]; intros acc r Hnd; simpl; [reflexivity|].
  inversion Hnd as [|x xs Hnotin Hnd']; subst.
  rewrite IH by exact Hnd'.
  destruct (String.eqb_spec r k) as [->|Hne].
  - rewrite (get_absent k es Hnotin). unfold dropFrom.
    destruct (remove socket u) as [|x xs]; simpl.
    + apply get_delete_eq.
    + apply get_set_eq.
  - destruct (JS.get r es); [reflexivity|]. unfold dropFrom.
    destruct (remove socket u) as [|x xs]; simpl.
    + apply get_delete_ne. congruence.
    + apply get_set_ne. congruence.
Qed.

Lemma dropSocket_get socket rooms r :
  NoDup (map fst rooms) ->
  JS.get r (dropSocket socket rooms)
  = match JS.get r rooms with
    | Some users =>
        match remove socket users with
        | [] => None
        | users' => Some users'
        end
    | None => None
    end.
Proof.
  intros H. unfold dropSocket. rewrite dropSocket_fold by exact H.
  now destruct (JS.get r rooms).
Qed.

(** X10.  Whatever sockets join, leave and disconnect, the keys of the tracked
    rooms stay distinct, no tracked room is empty, and no room lists a
    socket twice. *)
Theorem tracked_rooms_are_never_empty :
  forall m events,
    let rooms := run m events [] in
    NoDup (map fst rooms)
    /\ forall r users,
         JS.get r rooms = Some users -> users <> [] /\ NoDup users.
Proof.
  intros m events rooms.
  destruct (kept_run m events [] kept_nil) as [Hk Hu]. fold rooms in Hk, Hu.
  split; [exact Hk|]. intros r users H. apply get_In in H. eauto.
Qed.

(** X11.  After any joins and leaves, a disconnect takes the socket out of every
    room, drops the rooms it was alone in, and leaves the other sockets of
    every room where they were. *)
Theorem disconnect_leaves_every_room :
  forall m events socket,
    let rooms := run m events [] in
    let rooms' := dropSocket socket rooms in
    (forall r users, JS.get r rooms' = Some users -> ~ In socket users)
    /\ (forall r other,
           other <> socket ->
           ((exists users, JS.get r rooms' = Some users /\ In other users)
            <-> exists users, JS.get r rooms = Some users /\ In other users))
    /\ (forall r, JS.get r rooms = Some [socket] -> JS.get r rooms' = None).
Proof.
  intros m events socket rooms rooms'.
  destruct (kept_run m events [] kept_nil) as [Hk _]. fold rooms in Hk.
  assert (G := fun r => dropSocket_get socket rooms r Hk).
  fold rooms' in G. split; [|split].
  - intros r users H. rewrite G in H.
    destruct (JS.get r rooms) as [u|]; [|discriminate].
    destruct (remove socket u) as [|x xs] eqn:E; [discriminate|].
    injection H as <-. rewrite <- E. intros Hin.
    apply remove_spec in Hin. tauto.
  - intros r other Hne. rewrite G.
    destruct (JS.get r rooms) as [u|];
      [|split; intros (users & H & _); discriminate].
    split.
    + intros (users & H & Hin). exists u. split; [reflexivity|].
      destruct (remove socket u) as [|x xs] eqn:E; [discriminate|].
      injection H as <-. rewrite <- E in Hin.
      now apply remove_spec in Hin.
    + intros (users & [= <-] & Hin).
      assert (Hin' : In other (remove socket u))
        by (apply remove_spec; auto).
      destruct (remove socket u) as [|x xs]; [destruct Hin'|].
      eexists. split; [reflexivity | exact Hin'].
  - intros r H. rewrite G, H. simpl. now rewrite String.eqb_refl.
Qed.

(** X12.  After any joins and leaves, a socket that joins a show it is not in
    and then leaves it puts the tracked rooms back as they were. *)
Theorem leaveShow_undoes_joinShow :
  forall m events socket showId userId,
    JS.truthy showId = true -> JS.truthy userId = true ->
    let rooms := run m events [] in
    (forall users, JS.get (room showId) rooms = Some users ->
                   ~ In socket users) ->
    leaveShow socket showId (fst (joinShow socket showId userId m rooms))
    = rooms.
Proof.
  intros m events socket showId userId Hs Hu rooms Hout.
  destruct (kept_run m events [] kept_nil) as [Hk Hne]. fold rooms in Hk, Hne.
  unfold joinShow. rewrite Hs, Hu. cbv zeta. cbn [negb orb fst].
  destruct (JS.has (Registry.room showId) rooms) eqn:H.
  - apply has_true in H as [users H]. rewrite H.
    unfold leaveShow. rewrite get_set_eq. unfold dropFrom.
    rewrite remove_added by now apply Hout.
    destruct users as [|u us].
    + apply get_In, Hne in H. now destruct H.
    + simpl. rewrite set_set. now apply set_same.
  - apply has_false in H. rewrite get_set_eq, set_set.
    unfold leaveShow. rewrite get_set_eq. unfold dropFrom.
    rewrite remove_added by (intros []). simpl.
    now apply delete_set_new.
Qed.

End RoomFacts.

(** ** No seat is sold twice *)

Section SinglyBooked.
Import Store Catalog.

Lemma cancelBooking_cases o env id db :
  snd (cancelBooking o env id db) = db
  \/ exists b,
      cancelTxn o env id db = inr (b, snd (cancelBooking o env id db)).
Proof.
  unfold cancelBooking.
  destruct (cancelTxn o env id db) as [r|[b w]]; [now left|].
  destruct (o CommitTransaction); [now left|]. right. now exists b.
Qed.

Lemma bookedSeatIds_bookings sid db db' :
  bookings db = bookings db' ->
  bookedSeatIds sid db = bookedSeatIds sid db'.
Proof. unfold bookedSeatIds. now intros ->. Qed.








End SinglyBooked.

(** ** Seats and their ids *)

Section Seats.
Import Store Catalog.

Lemma to_int_proper n :
  Z.to_int n <> Decimal.Pos Decimal.Nil
  /\ Z.to_int n <> Decimal.Neg Decimal.Nil.
Proof.
  assert (E : Z.to_int n = Decimal.norm (Z.to_int n))
    by (rewrite <- DecimalZ.to_of, DecimalZ.of_to; reflexivity).
  split; intros H; rewrite H in E; discriminate E.
Qed.

(** [`${n}`] tells whole numbers apart. *)
Lemma toString_inj a b : JS.toString a = JS.toString b -> a = b.
Proof.
  unfold JS.toString. intros E.
  apply (f_equal NilZero.int_of_string) in E.
  destruct (to_int_proper a) as [Ha1 Ha2], (to_int_proper b) as [Hb1 Hb2].
  rewrite !NilZero.isi in E by assumption.
  injection E as E. now apply DecimalZ.to_int_inj.
Qed.

Lemma validRow_letter r :
  validRow r = true -> exists c, r = String c EmptyString.
Proof.
  destruct r as [|c [|d r]]; simpl; try discriminate. intros _. now exists c.
Qed.

(** X14.  Two seats that the booking schema accepts have the same seat id only
    when they have the same row and the same number. *)
Theorem seatIdOf_tells_valid_seats_apart :
  forall s s',
    validSeat s = true -> validSeat s' = true ->
    seatIdOf (r_row s) (r_number s) = seatIdOf (r_row s') (r_number s') ->
    r_row s = r_row s' /\ r_number s = r_number s'.
Proof.
  intros s s' Hs Hs' E. unfold validSeat in Hs, Hs'.
  apply andb_true_iff in Hs as [Hs _]. apply andb_true_iff in Hs as [Hs _].
  apply andb_true_iff in Hs as [Hs _].
  apply andb_true_iff in Hs' as [Hs' _]. apply andb_true_iff in Hs' as [Hs' _].
  apply andb_true_iff in Hs' as [Hs' _].
  destruct (validRow_letter _ Hs) as [c Hc].
  destruct (validRow_letter _ Hs') as [c' Hc'].
  unfold seatIdOf, JS.template in E. rewrite Hc, Hc' in E |- *.
  simpl in E. injection E as -> E. split; [reflexivity|].
  now apply toString_inj.
Qed.

Lemma generateSeats_length rows columns :
  length (generateSeats rows columns) = (rows * columns)%nat.
Proof.
  unfold generateSeats.
  rewrite <- (length_seq rows 0) at 2.
  induction (seq 0 rows) as [|i l IH]; simpl; [reflexivity|].
  now rewrite length_app, length_map, length_seq, IH.
Qed.

Lemma generateSeats_In rows columns d :
  In d (generateSeats rows columns) <->
  exists i j,
    (i < rows)%nat /\ (1 <= j <= columns)%nat
    /\ d = mkSeatDraft (nth_error rowNames i) (Z.of_nat j)
             (seatTypeAt rows columns i j).
Proof.
  unfold generateSeats. rewrite in_flat_map. split.
  - intros (i & Hi & Hd). apply in_map_iff in Hd as (j & <- & Hj).
    apply in_seq in Hi, Hj. exists i, j. repeat split; lia.
  - intros (i & j & Hi & Hj & ->). exists i. split; [apply in_seq; lia|].
    apply in_map_iff. exists j. split; [reflexivity | apply in_seq; lia].
Qed.

Lemma rowNames_valid i :
  (i < 26)%nat ->
  exists r, nth_error rowNames i = Some r /\ validRow r = true.
Proof.
  intros H.
  do 26 (destruct i as [|i]; [eexists; split; reflexivity|]). lia.
Qed.

Lemma rowNames_inj i i' r :
  nth_error rowNames i = Some r -> nth_error rowNames i' = Some r -> i = i'.
Proof.
  intros H H'.
  assert (Hi : (i < length rowNames)%nat)
    by (apply nth_error_Some; congruence).
  apply (proj1 (NoDup_nth_error rowNames)); [|exact Hi | congruence].
  repeat (constructor; [simpl; intuition discriminate|]). constructor.
Qed.

Lemma NoDup_map_inj {A B} (f : A -> B) (l : list A) :
  (forall x y, f x = f y -> x = y) -> NoDup l -> NoDup (map f l).
Proof.
  intros Hf. induction 1 as [|x l Hx Hl IH]; simpl; constructor; [|exact IH].
  intros Hin. apply in_map_iff in Hin as (y & E & Hy).
  apply Hf in E. now subst y.
Qed.

Lemma NoDup_flat_map {A B} (f : A -> list B) (l : list A) :
  NoDup l -> (forall x, In x l -> NoDup (f x)) ->
  (forall x y b, In x l -> In y l -> In b (f x) -> In b (f y) -> x = y) ->
  NoDup (flat_map f l).
Proof.
  induction l as [|a l IH]; simpl; intros Hnd Hf Hd; [constructor|].
  inversion Hnd as [|x xs Hnotin Hnd']; subst.
  apply NoDup_app.
  - apply Hf. now left.
  - apply IH; [exact Hnd' | intros x Hx; apply Hf; now right |].
    intros x y b Hx Hy. apply Hd; now right.
  - intros b Hb Hb'. apply in_flat_map in Hb' as (y & Hy & Hby).
    assert (a = y) by (apply (Hd a y b); auto; now right).
    subst y. contradiction.
Qed.

(** X15.  [generateSeats] makes [rows * columns] seats, none of them of type
    [vip].  For at most 26 rows and 50 columns, the limits of the screen
    schema, every generated seat has a row name and is accepted by the
    booking schema, and no two generated seats have the same row and
    number. *)
Theorem generateSeats_makes_bookable_seats :
  forall rows columns,
    (rows <= 26)%nat -> (columns <= 50)%nat ->
    generatedTotal rows columns = Z.of_nat rows * Z.of_nat columns
    /\ (forall d, In d (generateSeats rows columns) ->
                  d_type d <> "vip"
                  /\ exists s, stored d = Some s
                               /\ validSeat (requested s) = true)
    /\ NoDup (map (fun d => (d_row d, d_number d))
                (generateSeats rows columns)).
Proof.
  intros rows columns Hr Hc. split; [|split].
  - unfold generatedTotal. rewrite generateSeats_length. lia.
  - intros d Hd. apply generateSeats_In in Hd as (i & j & Hi & Hj & ->).
    cbn [d_type]. split.
    + unfold seatTypeAt. destruct (_ && _); discriminate.
    + destruct (rowNames_valid i) as (r & Hn & Hv); [lia|].
      unfold stored. cbn [d_row d_number d_type]. rewrite Hn.
      eexists. split; [reflexivity|].
      assert (Ht : validType (seatTypeAt rows columns i j) = true)
        by (unfold seatTypeAt; destruct (_ && _); reflexivity).
      unfold validSeat, requested.
      cbn [r_row r_number r_type ss_row ss_number ss_type].
      rewrite Hv, Ht. cbn [andb].
      replace (1 <=? Z.of_nat j) with true by (symmetry; apply Z.leb_le; lia).
      replace (Z.of_nat j <=? 50) with true
        by (symmetry; apply Z.leb_le; lia).
      reflexivity.
  - unfold generateSeats. rewrite flat_map_concat_map, concat_map, map_map.
    rewrite <- flat_map_concat_map. apply NoDup_flat_map.
    + apply seq_NoDup.
    + intros i _. rewrite map_map. cbn [d_row d_number].
      apply NoDup_map_inj; [|apply seq_NoDup].
      intros j j' [= E]. lia.
    + intros i i' b Hi Hi' Hb Hb'.
      rewrite map_map in Hb, Hb'. cbn [d_row d_number] in Hb, Hb'.
      apply in_map_iff in Hb as (j & <- & _).
      apply in_map_iff in Hb' as (j' & [= E _] & _).
      apply in_seq in Hi.
      destruct (rowNames_valid i) as (r & Hn & _); [lia|].
      rewrite Hn in E. now apply (rowNames_inj i i' r).
Qed.

End Seats.

(** ** Cancelling *)

Section Cancelling.
Import Store Catalog.

Lemma cancelTxn_ok o env id db b show :
  o FindBooking = None -> o SaveBooking = None -> o IncShow = None ->
  findBooking id db = Some b ->
  b_userId b = c_userId env ->
  status b = confirmed ->
  findShow (b_showId b) db = Some show ->
  2 * (1000 * 60 * 60) <= startTime show - c_now_window env ->
  cancelTxn o env id db
  = inr (cancelledAs (c_now_saved env) b,
         mkDB (replaceBooking (cancelledAs (c_now_saved env) b)
                 (bookings db))
           (incAvailable (s_id show) (Z.of_nat (length (b_seats b)))
              (shows db))
           (seatLocks db)).
Proof.
  intros H1 H2 H3 Hb Hu Hs Hf Ht.
  unfold cancelTxn, bind, query, update, guard, ret, reject.
  rewrite H1, Hb, Hf, Hu, String.eqb_refl, Hs. cbn [status_eqb].
  replace (startTime show - c_now_window env <? 2 * (1000 * 60 * 60))
    with false by (symmetry; apply Z.ltb_ge; exact Ht).
  cbn [negb]. rewrite H2, H3. reflexivity.
Qed.

(** X16.  The owner's cancellation of a booking goes through exactly when the
    [canCancel] flag of the two read routes is set at the same reading of
    the clock, or when the show starts in two hours to the millisecond:
    the flag asks for more than two hours, the cancellation for no less
    than two. *)
Theorem canCancel_flag_and_cancellation :
  forall env id db b,
    findBooking id db = Some b ->
    b_userId b = c_userId env ->
    (exists amount at_,
        fst (cancelBooking noFault env id db) = Cancelled id amount at_)
    <-> (canCancel (c_now_window env) b (findShow (b_showId b) db) = true
         \/ (status b = confirmed
             /\ exists show,
                 findShow (b_showId b) db = Some show
                 /\ startTime show
                    = c_now_window env + 2 * 60 * 60 * 1000)).
Proof.
  intros env id db b Hb Hu.
  assert (Hid : b_id b = id).
  { unfold findBooking in Hb. apply find_some in Hb as [_ E].
    now apply String.eqb_eq in E. }
  split.
  - intros (amount & at_ & H). unfold cancelBooking in H.
    destruct (cancelTxn noFault env id db) as [r|[b' w]] eqn:E.
    + simpl in H. subst r. exfalso. revert E.
      unfold cancelTxn, bind, query, update, guard, ret, reject.
      cbn [noFault]. rewrite Hb.
      destruct (String.eqb (b_userId b) (c_userId env)); [|discriminate].
      destruct (status_eqb (status b) confirmed); [|discriminate].
      destruct (findShow (b_showId b) db); [|discriminate].
      destruct (negb _); discriminate.
    + clear H. revert E.
      unfold cancelTxn, bind, query, update, guard, ret, reject.
      cbn [noFault]. rewrite Hb.
      destruct (String.eqb (b_userId b) (c_userId env)); [|discriminate].
      destruct (status_eqb (status b) confirmed) eqn:Hs; [|discriminate].
      destruct (findShow (b_showId b) db) as [show|]; [|discriminate].
      destruct (Z.ltb_spec (startTime show - c_now_window env)
                  (2 * (1000 * 60 * 60))) as [L|L]; [discriminate|].
      intros _. unfold canCancel. rewrite Hs. cbn [andb].
      destruct (Z.ltb_spec (c_now_window env + 2 * 60 * 60 * 1000)
                  (startTime show)) as [L'|L']; [now left|].
      right. split; [now destruct (status b)|].
      exists show. split; [reflexivity | lia].
  - intros H.
    assert (G : status b = confirmed /\
                exists show,
                  findShow (b_showId b) db = Some show /\
                  2 * (1000 * 60 * 60)
                  <= startTime show - c_now_window env).
    { destruct H as [H|(Hs & show & Hf & Ht)].
      - unfold canCancel in H. apply andb_true_iff in H as [Hs H].
        split; [now destruct (status b)|].
        destruct (findShow (b_showId b) db) as [show|]; [|discriminate].
        exists show. split; [reflexivity|]. apply Z.ltb_lt in H. lia.
      - split; [exact Hs|]. exists show. split; [exact Hf | lia]. }
    destruct G as (Hs & show & Hf & Ht).
    unfold cancelBooking.
    rewrite (cancelTxn_ok noFault env id db b show) by auto.
    cbn [noFault fst b_id cancelledAs]. rewrite Hid. eauto.
Qed.

End Cancelling.

(** ** Expired lock documents *)

Section Cleanup.
Import Store Catalog.

Lemma activeLocks_cleanup showId seatIds now t db :
  t <= now ->
  activeLocks showId seatIds now (cleanupExpired t db)
  = activeLocks showId seatIds now db.
Proof.
  intros Ht. unfold activeLocks, cleanupExpired. cbn [seatLocks setSeatLocks].
  induction (seatLocks db) as [|l ls IH]; simpl; [reflexivity|].
  destruct (Z.ltb_spec (sl_expiresAt l) t) as [L|L]; simpl.
  - rewrite IH.
    replace (now <=? sl_expiresAt l) with false
      by (symmetry; apply Z.leb_gt; lia).
    now rewrite andb_false_r.
  - now rewrite IH.
Qed.

(** The transaction reads the lock documents only through the query for
    the unexpired locks of the requested seats. *)
Lemma bookingTxn_locks o env body db db' :
  bookings db' = bookings db -> shows db' = shows db ->
  activeLocks (showId body) (seatIdsOf body) (now_locks env) db'
  = activeLocks (showId body) (seatIdsOf body) (now_locks env) db ->
  bookingTxn o env body db' = bookingTxn o env body db.
Proof.
  intros Hb Hs Ha. unfold bookingTxn.
  destruct (validate body); [reflexivity|].
  unfold bind, query, update, guard, reject, ret, insertBooking.
  destruct (o FindShow); [reflexivity|].
  unfold findShow. rewrite Hs.
  destruct (find _ (shows db)) as [show|]; [|reflexivity].
  destruct (isActive show); [|reflexivity].
  destruct (negb (startTime show - now_window env <? 15 * (1000 * 60)));
    [|reflexivity].
  destruct (o AggregateBookings); [reflexivity|].
  rewrite (bookedSeatIds_bookings (showId body) db' db Hb).
  destruct (filter _ (seatIdsOf body)) as [|c cs]; [|reflexivity].
  cbn [length Nat.ltb Nat.leb negb].
  destruct (o FindLocks); [reflexivity|].
  rewrite Ha.
  destruct (Nat.eqb _ (length (seatIdsOf body))); [|reflexivity].
  destruct (o SaveBooking); [reflexivity|].
  now rewrite bookingData_refused.
Qed.

(** X19.  [cleanupExpired] at [t] leaves no expired document and keeps the
    unique index; a commit whose lock check reads the clock at [t] or
    later is answered the same with or without the cleanup, since its
    query already skips the expired documents. *)
Theorem cleanupExpired_does_not_change_commits :
  forall t db,
    (forall l, In l (seatLocks (cleanupExpired t db)) ->
               In l (seatLocks db) /\ isExpired t l = false)
    /\ (lockIndexUnique (seatLocks db) ->
        lockIndexUnique (seatLocks (cleanupExpired t db)))
    /\ (forall o env body,
           t <= now_locks env ->
           fst (createBooking o env body (cleanupExpired t db))
           = fst (createBooking o env body db)
           /\ bookings (snd (createBooking o env body (cleanupExpired t db)))
              = bookings (snd (createBooking o env body db))
           /\ shows (snd (createBooking o env body (cleanupExpired t db)))
              = shows (snd (createBooking o env body db))).
Proof.
  intros t db. split; [|split].
  - intros l Hl. unfold cleanupExpired in Hl. cbn [seatLocks setSeatLocks] in Hl.
    apply filter_In in Hl as [Hin Hl]. split; [exact Hin|].
    unfold isExpired. now apply negb_true_iff in Hl.
  - intros Hu. unfold cleanupExpired. cbn [seatLocks setSeatLocks].
    now apply NoDup_map_filter.
  - intros o env body Ht. unfold createBooking.
    rewrite (bookingTxn_locks o env body db (cleanupExpired t db))
      by (try reflexivity; now apply activeLocks_cleanup).
    destruct (bookingTxn o env body db) as [r|[b w]] eqn:E;
      [now repeat split|].
    now apply bookingTxn_not_inr in E.
Qed.

End Cleanup.

(** ** The seat map *)

Section SeatMap.
Import Store Catalog.

Lemma tally_fold sts :
  forall s,
    let r := fold_left tally sts s in
    total r = (total s + length sts)%nat
    /\ booked r = (booked s + length (filter isBooked sts))%nat
    /\ (total r + (booked s + locked s + available s)
        = total s + (booked r + locked r + available r))%nat.
Proof.
  induction sts as [|st sts IH]; intros s; cbn [fold_left filter length];
    [cbv zeta; lia|].
  destruct (IH (tally s st)) as (H1 & H2 & H3).
  destruct st; cbn [isBooked length] in *; simpl in *; lia.
Qed.

Lemma insertByNumber_perm v vs :
  Permutation (insertByNumber v vs) (v :: vs).
Proof.
  induction vs as [|x vs IH]; cbn [insertByNumber]; [reflexivity|].
  destruct (_ <=? _); [reflexivity|].
  rewrite IH. apply perm_swap.
Qed.

Lemma sortByNumber_perm vs : Permutation (sortByNumber vs) vs.
Proof.
  induction vs as [|v vs IH]; cbn [sortByNumber fold_right];
    [reflexivity|].
  rewrite insertByNumber_perm. now apply perm_skip.
Qed.

Lemma insertByNumber_sorted v vs :
  StronglySorted byNumber vs -> StronglySorted byNumber (insertByNumber v vs).
Proof.
  induction 1 as [|x vs Hs IH Hx]; cbn [insertByNumber].
  - constructor; constructor.
  - destruct (_ <=? _) eqn:E.
    + apply Z.leb_le in E. constructor; [now constructor|].
      constructor; [exact E|].
      eapply Forall_impl; [|exact Hx]. unfold byNumber. intros; lia.
    + apply Z.leb_gt in E. constructor; [exact IH|].
      eapply Permutation_Forall;
        [symmetry; apply insertByNumber_perm|].
      constructor; [unfold byNumber; lia | exact Hx].
Qed.

Lemma sortByNumber_sorted vs : StronglySorted byNumber (sortByNumber vs).
Proof.
  induction vs as [|v vs IH]; cbn [sortByNumber fold_right];
    [constructor|].
  now apply insertByNumber_sorted.
Qed.

Lemma seatsOfShow_map o screen now id db byRow summary :
  seatsOfShow o screen now id db = SeatMap byRow summary ->
  exists show seats views,
    findShow id db = Some show /\ isActive show = true
    /\ screen = Some seats
    /\ (forall seat, In seat seats ->
                     JS.includes (ss_row seat) inherited = false)
    /\ views
       = map (fun seat =>
                mkSeatView seat
                  (statusOf (bookedSeatIds id db) (lockedSeatIds id now db)
                     (seatIdOf (ss_row seat) (ss_number seat)))
                  (priceFor (price show) (ss_type seat)))
           seats
    /\ byRow = seatsByRow views
    /\ summary = fold_left tally (map sv_status views) (mkSummary 0 0 0 0).
Proof.
  unfold seatsOfShow.
  destruct (o FindShow); [discriminate|].
  destruct (findShow id db) as [show|] eqn:Hf; [|discriminate].
  destruct (isActive show) eqn:Ha; [|discriminate]. cbn [negb].
  destruct (o AggregateBookings); [discriminate|].
  destruct (o FindLocks); [discriminate|].
  destruct screen as [seats|]; [|discriminate].
  destruct (existsb _ seats) eqn:Ei; [discriminate|].
  assert (Hid : s_id show = id).
  { unfold findShow in Hf. apply find_some in Hf as [_ E].
    now apply String.eqb_eq in E. }
  rewrite Hid. intros [= <- <-]. exists show, seats. eexists.
  split; [reflexivity|]. split; [exact Ha|]. split; [reflexivity|].
  split; [|auto].
  intros seat Hin.
  destruct (JS.includes (ss_row seat) inherited) eqn:E; [|reflexivity].
  assert (existsb (fun seat => JS.includes (ss_row seat) inherited) seats
          = true) by (apply existsb_exists; eauto).
  congruence.
Qed.

Lemma seatsByRow_In views r v :
  In v (seatsByRow views r) <-> In v views /\ ss_row (sv_seat v) = r.
Proof.
  unfold seatsByRow. split.
  - intros H. apply (Permutation_in _ (sortByNumber_perm _)) in H.
    apply filter_In in H as [H E]. now apply String.eqb_eq in E.
  - intros [H E].
    apply (Permutation_in _ (Permutation_sym (sortByNumber_perm _))).
    apply filter_In. split; [exact H|]. now apply String.eqb_eq.
Qed.

(** X20.  The seat map is answered by row.  Under a row stand exactly the
    seats of the screen in that row, each as often as the screen has it,
    sorted by number; a row of no seat has none.  A seat is shown as
    booked exactly when its id is among the booked seat ids of the show.
    The summary counts the seats of the screen over all rows: its total
    is their number, its booked count is the number of seats whose id is
    booked, and the booked, locked and available counts add up to the
    total. *)
Theorem seat_map_summary_adds_up :
  forall o screen now id db byRow summary,
    seatsOfShow o screen now id db = SeatMap byRow summary ->
    exists seats,
      screen = Some seats
      /\ (forall r,
            Permutation (map sv_seat (byRow r))
              (filter (fun seat => String.eqb (ss_row seat) r) seats))
      /\ (forall r, StronglySorted byNumber (byRow r))
      /\ (forall r v,
            In v (byRow r) ->
            (sv_status v = Booked <->
             In (seatIdOf (ss_row (sv_seat v)) (ss_number (sv_seat v)))
               (bookedSeatIds id db)))
      /\ total summary = length seats
      /\ booked summary
         = length
             (filter (fun seat =>
                        JS.includes (seatIdOf (ss_row seat) (ss_number seat))
                          (bookedSeatIds id db))
                seats)
      /\ total summary
         = (booked summary + locked summary + available summary)%nat.
Proof.
  intros o screen now id db byRow summary H.
  apply seatsOfShow_map in H
    as (show & seats & views & _ & _ & -> & _ & Hv & -> & ->).
  exists seats.
  destruct (tally_fold (map sv_status views) (mkSummary 0 0 0 0))
    as (H1 & H2 & H3). cbn [total booked locked available] in H1, H2, H3.
  rewrite length_map in H1.
  assert (Hl : length views = length seats) by (rewrite Hv; apply length_map).
  split; [reflexivity|]. split; [|split; [|split; [|split; [|split]]]].
  - intros r. unfold seatsByRow.
    rewrite (Permutation_map sv_seat (sortByNumber_perm _)).
    rewrite Hv. clear. induction seats as [|seat seats IH]; [reflexivity|].
    cbn [map filter sv_seat].
    destruct (String.eqb (ss_row seat) r); cbn [map sv_seat];
      [now apply perm_skip | exact IH].
  - intros r. apply sortByNumber_sorted.
  - intros r v Hin. apply seatsByRow_In in Hin as [Hin _].
    rewrite Hv in Hin.
    apply in_map_iff in Hin as (seat & <- & _). cbn [sv_status sv_seat].
    unfold statusOf. rewrite <- includes_In.
    destruct (JS.includes _ (bookedSeatIds id db)); [tauto|].
    destruct (JS.includes _ (lockedSeatIds id now db));
      split; discriminate.
  - lia.
  - rewrite H2, Hv. clear. cbn [Nat.add].
    induction seats as [|seat seats IH]; [reflexivity|].
    cbn [map filter sv_status]. unfold statusOf at 1.
    destruct (JS.includes _ (bookedSeatIds id db)); cbn [isBooked length].
    + now rewrite IH.
    + destruct (JS.includes _ (lockedSeatIds id now db)); cbn [isBooked];
        exact IH.
  - lia.
Qed.



End SeatMap.

(** ** Deleting a show *)

Section DeleteShow.
Import Store Catalog.




End DeleteShow.

(** ** Shows of one screen *)

Section Schedule.
Import Store Catalog.

Lemma createShow_cases o env v db :
  snd (createShow o env v db) = db
  \/ exists show,
      snd (createShow o env v db) = setShows (fun ss => ss ++ [show]) db
      /\ canInsertShow show db = true
      /\ existsb (overlaps (screenId show) (startTime show) (endTime show))
           (shows db) = false.
Proof.
  unfold createShow.
  destruct (negb (validShow (sh_now env) v)); [now left|].
  destruct (o FindScreen); [now left|].
  destruct (sh_screen env) as [screen|]; [|now left].
  destruct (negb (String.eqb (sc_theaterId screen) (sh_userTheater env)));
    [now left|].
  destruct (o FindMovie); [now left|].
  destruct (sh_movie env) as [movie|]; [|now left].
  destruct (negb (mv_isActive movie)); [now left|].
  destruct (o FindConflict); [now left|].
  destruct (existsb _ (shows db)) eqn:Ho; [now left|].
  destruct (o CreateShow); [now left|].
  match goal with |- context [canInsertShow ?s db] =>
    destruct (canInsertShow s db) eqn:E; [right; exists s | now left]
  end.
  auto.
Qed.

(** Show ids are unique and no two active shows of a screen overlap. *)
Local Abbreviation timetable db :=
  (NoDup (map s_id (shows db)) /\ disjointShows db).

Lemma timetable_createShow o env v db :
  timetable db -> timetable (snd (createShow o env v db)).
Proof.
  intros [Hn Hd].
  destruct (createShow_cases o env v db) as [->|(show & -> & Hins & Ho)];
    [now split|].
  cbn [shows setShows]. split.
  - rewrite map_app. simpl. apply NoDup_app; [exact Hn | |].
    + constructor; [intros [] | constructor].
    + intros x Hx [<-|[]]. now apply canInsertShow_fresh in Hins.
  - assert (Hnew : forall a,
               In a (shows db) -> isActive a = true ->
               screenId a = screenId show ->
               ~ (startTime a < endTime show /\ startTime show < endTime a)).
    { intros a Ha Hact Hsc [L1 L2].
      assert (E : existsb (overlaps (screenId show) (startTime show)
                             (endTime show)) (shows db) = true).
      { apply existsb_exists. exists a. split; [exact Ha|].
        unfold overlaps. rewrite Hsc, String.eqb_refl, Hact. simpl.
        apply andb_true_iff. split; now apply Z.ltb_lt. }
      congruence. }
    intros a b Ha Hb Hab Haa Hba Hsc.
    apply in_app_or in Ha as [Ha|[<-|[]]];
      apply in_app_or in Hb as [Hb|[<-|[]]].
    + now apply Hd.
    + now apply Hnew.
    + intros [L1 L2]. apply (Hnew b Hb Hba); [congruence | tauto].
    + now elim Hab.
Qed.

Lemma timetable_incAvailable bs id d ls db :
  timetable db ->
  timetable (mkDB bs (incAvailable id d (shows db)) ls).
Proof.
  intros [Hn Hd]. cbn [shows]. split; [now rewrite incAvailable_ids|].
  intros a' b' Ha Hb Hab Haa Hba Hsc. cbn [shows] in Ha, Hb.
  apply (incAvailable_In id d (shows db) a' Hn) in Ha as (a & Ha & Ea).
  apply (incAvailable_In id d (shows db) b' Hn) in Hb as (b & Hb & Eb).
  assert (Fa : screenId a' = screenId a /\ startTime a' = startTime a
               /\ endTime a' = endTime a /\ isActive a' = isActive a)
    by (rewrite Ea; destruct (String.eqb (s_id a) id); auto).
  assert (Fb : screenId b' = screenId b /\ startTime b' = startTime b
               /\ endTime b' = endTime b /\ isActive b' = isActive b)
    by (rewrite Eb; destruct (String.eqb (s_id b) id); auto).
  destruct Fa as (A1 & A2 & A3 & A4), Fb as (B1 & B2 & B3 & B4).
  rewrite A2, A3, B2, B3.
  apply Hd; try assumption; try congruence.
  intros E. apply Hab. rewrite Ea, Eb, E. reflexivity.
Qed.

Lemma timetable_handle db rq : timetable db -> timetable (handle db rq).
Proof.
  intros T. destruct rq as [o env v|o newId v|o env body|o env id]; simpl.
  - now apply timetable_createShow.
  - now destruct (adminCreateShow_refused o newId v db) as [-> _].
  - now destruct (createBooking_refused o env body db) as [-> _].
  - destruct (cancelBooking_cases o env id db) as [->|[b' H]]; [exact T|].
    apply cancelTxn_inr in H as (b & show & _ & _ & _ & _ & ->).
    now apply timetable_incAvailable.
Qed.

Lemma removeShow_In id ss x : In x (removeShow id ss) -> In x ss.
Proof.
  induction ss as [|s ss IH]; simpl; [tauto|].
  destruct (String.eqb (s_id s) id); simpl; [tauto|].
  intros [H|H]; [now left | right; now apply IH].
Qed.

Lemma removeShow_ids id ss :
  NoDup (map s_id ss) -> NoDup (map s_id (removeShow id ss)).
Proof.
  induction ss as [|s ss IH]; simpl; [tauto|]. intros Hn.
  inversion Hn as [|i ids Hnotin Hn']; subst.
  destruct (String.eqb (s_id s) id); simpl; [exact Hn'|].
  constructor; [|now apply IH].
  intros Hin. apply Hnotin. apply in_map_iff in Hin as (x & E & Hx).
  apply in_map_iff. exists x. split; [exact E|].
  now apply removeShow_In in Hx.
Qed.

Lemma timetable_adminDeleteShow o theater id db :
  timetable db -> timetable (snd (adminDeleteShow o theater id db)).
Proof.
  intros [Hn Hd]. unfold adminDeleteShow.
  destruct (negb (JS.truthy theater)); [now split|].
  destruct (o FindShow); [now split|].
  destruct (findShow id db); [|now split].
  destruct (negb _); [now split|].
  destruct (o AggregateBookings); [now split|].
  destruct (anyBooking id db); [now split|].
  destruct (o IncShow); [now split|].
  cbn [snd shows setShows]. split; [now apply removeShow_ids|].
  intros a b Ha Hb. apply removeShow_In in Ha, Hb. now apply Hd.
Qed.

Lemma deactivate_ids id ss : map s_id (deactivate id ss) = map s_id ss.
Proof.
  induction ss as [|s ss IH]; simpl; [reflexivity|].
  destruct (String.eqb (s_id s) id); simpl; [reflexivity | now rewrite IH].
Qed.

Lemma deactivate_In id ss x :
  In x (deactivate id ss) -> In x ss \/ isActive x = false.
Proof.
  induction ss as [|s ss IH]; simpl; [tauto|].
  destruct (String.eqb (s_id s) id); simpl.
  - intros [<-|H]; [now right | left; now right].
  - intros [<-|H]; [left; now left|]. destruct (IH H); auto.
Qed.

Lemma replaceShow_ids s' ss :
  map s_id (replaceShow s' ss) = map s_id ss.
Proof.
  induction ss as [|s ss IH]; simpl; [reflexivity|].
  destruct (String.eqb_spec (s_id s) (s_id s')) as [E|E]; simpl;
    [now rewrite E | now rewrite IH].
Qed.

Lemma replaceShow_In s' ss x :
  NoDup (map s_id ss) ->
  In x (replaceShow s' ss) -> x = s' \/ (In x ss /\ s_id x <> s_id s').
Proof.
  induction ss as [|s ss IH]; simpl; [tauto|]. intros Hn.
  inversion Hn as [|i ids Hnotin Hn']; subst.
  destruct (String.eqb_spec (s_id s) (s_id s')) as [E|E]; simpl.
  - intros [<-|H]; [now left|]. right. split; [now right|].
    intros E'. apply Hnotin. rewrite E, <- E'. now apply in_map.
  - intros [<-|H]; [right; split; [now left | exact E]|].
    destruct (IH Hn' H) as [->|[H1 H2]]; [now left|].
    right. split; [now right | exact H2].
Qed.

Lemma timetable_deleteShow o userTheater theaterFound id db :
  timetable db ->
  timetable (snd (deleteShow o userTheater theaterFound id db)).
Proof.
  intros [Hn Hd]. unfold deleteShow.
  destruct (o FindShow); [now split|].
  destruct (findShow id db); [|now split].
  destruct theaterFound; [|now split].
  destruct userTheater; [|now split].
  destruct (negb _); [now split|].
  destruct (o AggregateBookings); [now split|].
  destruct (hasBookings id db); [now split|].
  destruct (o IncShow); [now split|].
  cbn [snd shows setShows]. split; [now rewrite deactivate_ids|].
  intros a b Ha Hb Hab Haa Hba Hsc.
  apply deactivate_In in Ha as [Ha|Ha]; [|congruence].
  apply deactivate_In in Hb as [Hb|Hb]; [|congruence].
  now apply Hd.
Qed.

Lemma timetable_updateShow o env id v db :
  timetable db -> timetable (snd (updateShow o env id v db)).
Proof.
  intros [Hn Hd]. unfold updateShow.
  destruct (negb (validShow (up_now env) v)); [now split|].
  destruct (o FindShow); [now split|].
  destruct (findShow id db) as [existing|] eqn:Hf; [|now split].
  destruct (up_theaterFound env); [|now split].
  destruct (up_userTheater env); [|now split].
  destruct (negb _); [now split|].
  destruct (o AggregateBookings); [now split|].
  destruct (hasBookings id db); [now split|].
  destruct (o FindMovie); [now split|].
  destruct (up_movie env) as [movie|]; [|now split].
  cbv zeta.
  destruct (o FindConflict); [now split|].
  destruct (existsb _ (shows db)) eqn:Ho; [now split|].
  destruct (o IncShow); [now split|].
  destruct (canUpdateShow _ db); [|now split].
  cbn [snd shows setShows]. split; [now rewrite replaceShow_ids|].
  assert (Hid : s_id existing = id).
  { unfold findShow in Hf. apply find_some in Hf as [_ E].
    now apply String.eqb_eq in E. }
  set (stop := v_startTime v + (mv_duration movie + 30) * 60000) in *.
  assert (Hnew : forall y,
             In y (shows db) -> s_id y <> id -> isActive y = true ->
             screenId y = v_screenId v ->
             ~ (startTime y < stop /\ v_startTime v < endTime y)).
  { intros y Hy Hne Hact Hsc [L1 L2].
    assert (E : existsb
                  (fun s => negb (String.eqb (s_id s) id)
                            && overlaps (v_screenId v) (v_startTime v)
                                 stop s) (shows db) = true).
    { apply existsb_exists. exists y. split; [exact Hy|].
      destruct (String.eqb_spec (s_id y) id); [contradiction|].
      unfold overlaps. rewrite Hsc, String.eqb_refl, Hact. simpl.
      apply andb_true_iff. split; now apply Z.ltb_lt. }
    congruence. }
  intros a b Ha Hb Hab Haa Hba Hsc.
  apply (replaceShow_In _ _ _ Hn) in Ha, Hb.
  cbn [s_id updated] in Ha, Hb. rewrite Hid in Ha, Hb.
  destruct Ha as [->|[Ha Ha']], Hb as [->|[Hb Hb']].
  - now elim Hab.
  - cbn [startTime endTime updated screenId] in *.
    intros [L1 L2]. apply (Hnew b Hb Hb' Hba); [congruence | tauto].
  - cbn [startTime endTime updated screenId] in *.
    now apply Hnew.
  - now apply Hd.
Qed.

(** X23.  When requests are handled one after the other and no show is
    updated through [PUT /api/admin/theater/shows/:id], no two active
    shows of one screen overlap in time, whatever creations, updates and
    deletions of shows through the other routes, commits and
    cancellations there are. *)
Theorem shows_of_a_screen_never_overlap :
  forall cs db,
    planned cs ->
    NoDup (map s_id (shows db)) -> disjointShows db ->
    disjointShows (history cs db).
Proof.
  unfold history. intros cs.
  assert (G : forall db,
             planned cs -> timetable db ->
             timetable (fold_left change cs db)).
  { induction cs as [|c cs IH]; intros db Hs T; simpl; [exact T|].
    apply IH.
    - intros o id u Hin. apply (Hs o id u). now right.
    - destruct c as [rq|o env id v|o userTheater theaterFound id|o id u
                    |o theater id]; simpl.
      + now apply timetable_handle.
      + now apply timetable_updateShow.
      + now apply timetable_deleteShow.
      + elim (Hs o id u). now left.
      + now apply timetable_adminDeleteShow. }
  intros db Hs Hn Hd. now apply G.
Qed.

Lemma replaceShow_other s' ss x :
  In x ss -> s_id x <> s_id s' -> In x (replaceShow s' ss).
Proof.
  induction ss as [|s ss IH]; simpl; [tauto|]. intros [<-|H] Hne.
  - destruct (String.eqb_spec (s_id s) (s_id s')); [contradiction|].
    now left.
  - destruct (String.eqb (s_id s) (s_id s')); right; [|now apply IH].
    exact H.
Qed.

Lemma replaceShow_self s' ss :
  In (s_id s') (map s_id ss) -> In s' (replaceShow s' ss).
Proof.
  induction ss as [|s ss IH]; simpl; [tauto|]. intros H.
  destruct (String.eqb_spec (s_id s) (s_id s')) as [E|E]; [now left|].
  right. apply IH. destruct H as [H|H]; [contradiction | exact H].
Qed.

(** X24.  [PUT /api/admin/theater/shows/:id] looks for no overlap.  When it
    is given a date and time, and no other show of the screen starts at
    that very time, it is answered 200 and the show is moved there with
    an end two hours later, also when that puts it over another active
    show of its screen: then two active shows of the screen overlap. *)
Theorem admin_update_checks_no_overlap :
  forall id t db a b,
    findShow id db = Some b -> JS.truthy (theaterId b) = true ->
    In a (shows db) -> s_id a <> id ->
    isActive a = true -> isActive b = true -> screenId a = screenId b ->
    startTime a < t + 2 * 60 * 60 * 1000 -> t < endTime a ->
    (forall s, In s (shows db) -> s_id s <> id ->
               screenId s = screenId b -> startTime s <> t) ->
    let u := mkAdminUpdate (theaterId b) None (Some (Some t)) None false in
    let r := adminUpdateShow noFault id u db in
    let b' := mkShow (s_id b) (movieId b) (theaterId b) (screenId b) t
                (t + 2 * 60 * 60 * 1000) (price b) (totalSeats b)
                (availableSeats b) (isActive b) in
    fst r = AdminUpdated b'
    /\ snd r = setShows (replaceShow b') db
    /\ ~ disjointShows (snd r).
Proof.
  intros id t db a b Hf Ht Ha Hne Haa Hba Hsc L1 L2 Hfree u r b'.
  assert (Hid : s_id b = id).
  { unfold findShow in Hf. apply find_some in Hf as [_ E].
    now apply String.eqb_eq in E. }
  assert (Hb : In b (shows db)).
  { unfold findShow in Hf. now apply find_some in Hf as [H _]. }
  assert (Hu : canUpdateShow b' db = true).
  { unfold canUpdateShow. apply negb_true_iff.
    destruct (existsb _ (shows db)) eqn:E; [|reflexivity].
    apply existsb_exists in E as (s & Hs & E).
    apply andb_true_iff in E as [E E3]. apply andb_true_iff in E as [E1 E2].
    cbn [s_id screenId startTime b'] in *.
    apply negb_true_iff in E1.
    destruct (String.eqb_spec (s_id s) (s_id b)) as [|E1']; [discriminate|].
    apply String.eqb_eq in E2. apply Z.eqb_eq in E3.
    elim (Hfree s Hs); congruence. }
  assert (Hr : r = (AdminUpdated b', setShows (replaceShow b') db)).
  { unfold r, adminUpdateShow, u. cbn [u_theaterId u_start u_price noFault].
    rewrite Ht, Hf, String.eqb_refl. cbn [negb].
    change (assigned _ (Some t) b) with b'. now rewrite Hu. }
  rewrite Hr. cbn [fst snd]. split; [reflexivity|]. split; [reflexivity|].
  intros Hd.
  apply (Hd a b').
  - cbn [shows setShows]. apply replaceShow_other; [exact Ha|].
    cbn [s_id b']. congruence.
  - cbn [shows setShows]. apply replaceShow_self. cbn [s_id b'].
    now apply in_map.
  - intros E. apply Hne. rewrite E. exact Hid.
  - exact Haa.
  - exact Hba.
  - exact Hsc.
  - cbn [startTime endTime b']. lia.
Qed.

End Schedule.

(** ** The further properties at concrete requests *)

Section TableWitnesses.
Import Registry Table.

Lemma lock_entries_keyed_by_show_and_seat_witness :
  let events := [System.RequestLock "socketA"
                   (Scenario.asks "alice" ["A1"; "A2"]) (Scenario.at_ 0);
                 System.RequestLock "socketB"
                   (Scenario.asks "bob" ["B1"]) (Scenario.at_ 1);
                 System.ReleaseLock
                   (mkReleaseRequest Scenario.theShow ["A2"] None None)] in
  map fst (activeSeatLocks (after events Store.empty))
  = [lockKey Scenario.theShow "A1"; lockKey Scenario.theShow "B1"]
  /\ NoDup (map fst (activeSeatLocks (after events Store.empty))).
Proof.
  intros events. split; [reflexivity|].
  exact (proj1 (lock_entries_keyed_by_show_and_seat events Store.empty)).
Defined.

Lemma timer_releases_its_own_lock_only_witness :
  let events := [System.RequestLock "socketA"
                   (Scenario.asks "alice" ["A1"]) (Scenario.at_ 0)] in
  let l := mkLock (lockIdFor (Scenario.asks "alice" ["A1"]) (Scenario.at_ 0))
             "alice" "A1" Scenario.theShow 180000 "socketA" in
  let st := after events Store.empty in
  JS.get (lockKey Scenario.theShow "A1") (activeSeatLocks st) = Some l
  /\ ((forall t, In t (timers st) -> 100 < due t) ->
      fireTimer 100 st = (st, [])).
Proof.
  intros events l st.
  assert (H : JS.get (lockKey Scenario.theShow "A1") (activeSeatLocks st)
              = Some l) by reflexivity.
  split; [exact H|].
  exact (proj1 (proj2 (timer_releases_its_own_lock_only events Store.empty
                         100 (lockKey Scenario.theShow "A1") l H))).
Defined.

Lemma grant_then_release_restores_table_witness :
  let rq := Scenario.asks "alice" ["A1"; "A2"] in
  let st1 := fst (requestLock "socketA" rq (Scenario.at_ 0) initial) in
  admitted rq ["A1"; "A2"]
  /\ granted (snd (requestLock "socketA" rq (Scenario.at_ 0) initial)) = true
  /\ activeSeatLocks
       (fst (releaseLock
               (mkReleaseRequest Scenario.theShow ["A1"; "A2"]
                  (Some (lockIdFor rq (Scenario.at_ 0))) None) st1))
     = activeSeatLocks initial.
Proof.
  intros rq st1.
  assert (H1 : admitted rq ["A1"; "A2"]).
  { repeat split; try reflexivity. vm_compute. lia. }
  assert (H2 : granted (snd (requestLock "socketA" rq (Scenario.at_ 0)
                               initial)) = true) by reflexivity.
  split; [exact H1 | split; [exact H2|]].
  exact (proj1 (grant_then_release_restores_table "socketA" rq
                  ["A1"; "A2"] (Scenario.at_ 0) initial None 180000
                  H1 H2)).
Defined.

Lemma lockKey_separates_valid_shows_witness :
  Store.validShowId Scenario.theShow = true
  /\ lockKey Scenario.theShow "A1" = lockKey Scenario.theShow "A1"
  /\ Scenario.theShow = Scenario.theShow /\ "A1" = "A1".
Proof.
  assert (H1 : Store.validShowId Scenario.theShow = true) by reflexivity.
  split; [exact H1 | split; [reflexivity|]].
  exact (lockKey_separates_valid_shows Scenario.theShow Scenario.theShow
           "A1" "A1" H1 H1 eq_refl).
Defined.

Lemma lockKey_collides_across_shows_witness :
  let rq := mkLockRequest "a_b" (Some ["c"]) "carol" in
  let m := activeSeatLocks
             (fst (requestLock "socketC" rq (Scenario.at_ 0) initial)) in
  let l := mkLock (lockIdFor rq (Scenario.at_ 0)) "carol" "c" "a_b" 180000
             "socketC" in
  JS.get (lockKey (JS.template ["a"; "_"; "b"]) "c") m = Some l
  /\ conflictsOf "a" ["b_c"] m = ["b_c"].
Proof.
  intros rq m l.
  assert (H : JS.get (lockKey (JS.template ["a"; "_"; "b"]) "c") m = Some l)
    by reflexivity.
  split; [exact H|].
  exact (proj2 (lockKey_collides_across_shows "a" "b" "c" m l H)).
Defined.

Lemma joinShow_sends_the_shows_locks_witness :
  let events := [System.RequestLock "socketA"
                   (Scenario.asks "alice" ["A1"]) (Scenario.at_ 0)] in
  JS.truthy Scenario.theShow = true /\ JS.truthy "bob" = true
  /\ exists views,
      snd (Rooms.joinShow "socketB" Scenario.theShow "bob"
             (activeSeatLocks (after events Store.empty)) [])
      = Rooms.CurrentLocks views.
Proof.
  intros events.
  assert (H1 : JS.truthy Scenario.theShow = true) by reflexivity.
  assert (H2 : JS.truthy "bob" = true) by reflexivity.
  split; [exact H1 | split; [exact H2|]].
  destruct (joinShow_sends_the_shows_locks events Store.empty "socketB"
              Scenario.theShow "bob" [] H1 H2) as (views & H & _).
  exists views. exact H.
Defined.

Lemma leaveShow_undoes_joinShow_witness :
  let rooms := Rooms.run [] [Rooms.Join "socketA" Scenario.theShow "alice"]
                 [] in
  JS.truthy Scenario.theShow = true /\ JS.truthy "bob" = true
  /\ (forall users,
         JS.get (room Scenario.theShow) rooms = Some users ->
         ~ In "socketB" users)
  /\ Rooms.leaveShow "socketB" Scenario.theShow
       (fst (Rooms.joinShow "socketB" Scenario.theShow "bob" [] rooms))
     = rooms.
Proof.
  intros rooms.
  assert (H1 : JS.truthy Scenario.theShow = true) by reflexivity.
  assert (H2 : JS.truthy "bob" = true) by reflexivity.
  assert (H3 : forall users,
             JS.get (room Scenario.theShow) rooms = Some users ->
             ~ In "socketB" users).
  { intros users H. vm_compute in H. injection H as <-.
    intros [E|[]]. discriminate E. }
  split; [exact H1 | split; [exact H2 | split; [exact H3|]]].
  exact (leaveShow_undoes_joinShow []
           [Rooms.Join "socketA" Scenario.theShow "alice"] "socketB"
           Scenario.theShow "bob" H1 H2 H3).
Defined.

End TableWitnesses.

Section CatalogWitnesses.
Import Store Catalog.


Lemma seatIdOf_tells_valid_seats_apart_witness :
  validSeat (Scenario.seat "A" 1) = true
  /\ seatIdOf "A" 1 = seatIdOf "A" 1
  /\ r_row (Scenario.seat "A" 1) = r_row (Scenario.seat "A" 1)
  /\ r_number (Scenario.seat "A" 1) = r_number (Scenario.seat "A" 1).
Proof.
  assert (H1 : validSeat (Scenario.seat "A" 1) = true) by reflexivity.
  split; [exact H1 | split; [reflexivity|]].
  exact (seatIdOf_tells_valid_seats_apart (Scenario.seat "A" 1)
           (Scenario.seat "A" 1) H1 H1 eq_refl).
Defined.

Lemma generateSeats_makes_bookable_seats_witness :
  (2 <= 26)%nat /\ (3 <= 50)%nat /\ generatedTotal 2 3 = 2 * 3.
Proof.
  assert (H1 : (2 <= 26)%nat) by lia.
  assert (H2 : (3 <= 50)%nat) by lia.
  split; [exact H1 | split; [exact H2|]].
  exact (proj1 (generateSeats_makes_bookable_seats 2 3 H1 H2)).
Defined.

Lemma canCancel_flag_and_cancellation_witness :
  let env := mkCancelEnv "bob" 2000 2000 2001 in
  let db := Scenario.storeWith [Scenario.bookingOfA1 "bob"] [] in
  findBooking "booking0" db = Some (Scenario.bookingOfA1 "bob")
  /\ b_userId (Scenario.bookingOfA1 "bob") = c_userId env
  /\ exists amount at_,
      fst (cancelBooking noFault env "booking0" db)
      = Cancelled "booking0" amount at_.
Proof.
  intros env db.
  assert (H1 : findBooking "booking0" db = Some (Scenario.bookingOfA1 "bob"))
    by reflexivity.
  assert (H2 : b_userId (Scenario.bookingOfA1 "bob") = c_userId env)
    by reflexivity.
  split; [exact H1 | split; [exact H2|]].
  apply (proj2 (canCancel_flag_and_cancellation env "booking0" db
                  (Scenario.bookingOfA1 "bob") H1 H2)).
  left. reflexivity.
Defined.

Lemma seat_map_summary_adds_up_witness :
  let db := Scenario.storeWith [Scenario.bookingOfA1 "bob"] [] in
  let A1 := mkScreenSeat "A" 1 "regular" in
  let A2 := mkScreenSeat "A" 2 "regular" in
  let B1 := mkScreenSeat "B" 1 "regular" in
  let views :=
    [mkSeatView B1 Available 200; mkSeatView A2 Available 200;
     mkSeatView A1 Booked 200] in
  let summary := mkSummary 3 1 0 2 in
  seatsOfShow noFault (Some [B1; A2; A1]) 1000 Scenario.theShow db
  = SeatMap (seatsByRow views) summary
  /\ seatsByRow views "A"
     = [mkSeatView A1 Booked 200; mkSeatView A2 Available 200]
  /\ seatsByRow views "B" = [mkSeatView B1 Available 200]
  /\ seatsByRow views "C" = []
  /\ exists seats,
       Some [B1; A2; A1] = Some seats
       /\ (forall r,
             Permutation (map sv_seat (seatsByRow views r))
               (filter (fun seat => String.eqb (ss_row seat) r) seats))
       /\ (forall r, StronglySorted byNumber (seatsByRow views r))
       /\ (forall r v,
             In v (seatsByRow views r) ->
             (sv_status v = Booked <->
              In (seatIdOf (ss_row (sv_seat v)) (ss_number (sv_seat v)))
                (bookedSeatIds Scenario.theShow db)))
       /\ total summary = length seats
       /\ booked summary
          = length
              (filter (fun seat =>
                         JS.includes
                           (seatIdOf (ss_row seat) (ss_number seat))
                           (bookedSeatIds Scenario.theShow db))
                 seats)
       /\ total summary
          = (booked summary + locked summary + available summary)%nat.
Proof.
  intros db A1 A2 B1 views summary.
  assert (H : seatsOfShow noFault (Some [B1; A2; A1]) 1000 Scenario.theShow
                db
              = SeatMap (seatsByRow views) summary) by reflexivity.
  split; [exact H|]. split; [reflexivity|]. split; [reflexivity|].
  split; [reflexivity|].
  exact (seat_map_summary_adds_up noFault (Some [B1; A2; A1]) 1000
           Scenario.theShow db (seatsByRow views) summary H).
Defined.


Lemma shows_of_a_screen_never_overlap_witness :
  let second :=
    mkShowEnv 0 "theater" (Some (mkScreen "theater" 1))
      (Some (mkMovie true 120)) "64b7f0c2a1d3e4f5a6b7c8da" in
  let at_ t := mkShowValue "movie" "screen" t Scenario.prices in
  let cs := [Routed (PostShow noFault Scenario.smallScreen
                       Scenario.showValue);
             Routed (PostShow noFault second
                       (at_ (Scenario.showtime + 60000)));
             Routed (PostShow noFault second
                       (at_ (Scenario.showtime + 20000000)));
             PutShow noFault
               (mkUpdateEnv 0 (Some "theater") true
                  (Some (mkMovie true 90)))
               Scenario.theShow (at_ (Scenario.showtime + 7000000));
             AdminDeleteShow noFault "theater" "64b7f0c2a1d3e4f5a6b7c8db"] in
  planned cs /\ NoDup (map s_id (shows empty)) /\ disjointShows empty
  /\ map (fun s => (s_id s, startTime s, endTime s))
       (shows (history cs empty))
     = [(Scenario.theShow, 107000000, 114200000);
        ("64b7f0c2a1d3e4f5a6b7c8da", 120000000, 129000000)]
  /\ disjointShows (history cs empty).
Proof.
  intros second at_ cs.
  assert (H1 : planned cs).
  { intros o id u [H|[H|[H|[H|[H|[]]]]]]; discriminate H. }
  assert (H2 : NoDup (map s_id (shows empty))) by constructor.
  assert (H3 : disjointShows empty) by (intros a b []).
  split; [exact H1 | split; [exact H2 | split; [exact H3|]]].
  split; [reflexivity|].
  exact (shows_of_a_screen_never_overlap cs empty H1 H2 H3).
Defined.

Lemma admin_update_checks_no_overlap_witness :
  let later :=
    mkShow "64b7f0c2a1d3e4f5a6b7c8da" "movie" "theater" "screen" 120000000
      129000000 Scenario.prices 100 100 true in
  let db := mkDB [] [Scenario.theShowDoc; later] [] in
  let moved :=
    mkShow "64b7f0c2a1d3e4f5a6b7c8da" "movie" "theater" "screen" 100060000
      107260000 Scenario.prices 100 100 true in
  disjointShows db
  /\ adminUpdateShow noFault "64b7f0c2a1d3e4f5a6b7c8da"
       (mkAdminUpdate "theater" None (Some (Some 100060000)) None false) db
     = (AdminUpdated moved, mkDB [] [Scenario.theShowDoc; moved] [])
  /\ ~ disjointShows (mkDB [] [Scenario.theShowDoc; moved] []).
Proof.
  intros later db moved.
  assert (H0 : disjointShows db).
  { intros a b [<-|[<-|[]]] [<-|[<-|[]]] Hab _ _ _; try (now elim Hab);
      vm_compute; intros [L1 L2]; discriminate. }
  assert (H1 : findShow "64b7f0c2a1d3e4f5a6b7c8da" db = Some later)
    by reflexivity.
  assert (H2 : JS.truthy (theaterId later) = true) by reflexivity.
  assert (H3 : In Scenario.theShowDoc (shows db)) by (left; reflexivity).
  assert (H4 : s_id Scenario.theShowDoc <> "64b7f0c2a1d3e4f5a6b7c8da")
    by discriminate.
  assert (H5 : isActive Scenario.theShowDoc = true) by reflexivity.
  assert (H6 : isActive later = true) by reflexivity.
  assert (H7 : screenId Scenario.theShowDoc = screenId later)
    by reflexivity.
  assert (H8 : startTime Scenario.theShowDoc
               < 100060000 + 2 * 60 * 60 * 1000) by reflexivity.
  assert (H9 : 100060000 < endTime Scenario.theShowDoc) by reflexivity.
  assert (H10 : forall s, In s (shows db) ->
                  s_id s <> "64b7f0c2a1d3e4f5a6b7c8da" ->
                  screenId s = screenId later -> startTime s <> 100060000).
  { intros s [<-|[<-|[]]] Hne _; [discriminate | now elim Hne]. }
  split; [exact H0|].
  pose proof (admin_update_checks_no_overlap "64b7f0c2a1d3e4f5a6b7c8da"
                100060000 db Scenario.theShowDoc later H1 H2 H3 H4 H5 H6 H7
                H8 H9 H10) as (R1 & R2 & R3).
  split.
  - apply injective_projections; [exact R1 | exact R2].
  - rewrite R2 in R3. exact R3.
Defined.

End CatalogWitnesses.
